(** * ai-code-context: diff parsing, glob filtering and section extraction

    A shallow embedding of the text-processing core of the repository:
    - [GitUtils.parseDiffOutput] and [GitUtils.getContextLines]
      (git-utils.ts),
    - [Analyzer.matchesPattern], [Analyzer.shouldAnalyzeFile],
      [Analyzer.extractSections], [Analyzer.extractListItems] and
      [Analyzer.parseAnalysisResponse] (analyzer.ts).

    The code leans on JavaScript's built-in strings and regular expressions,
    so the development starts with a model of those: strings are sequences
    of UTF-16 code units, and regular expressions are parsed from their
    source text and
    run by the backtracking matcher of ECMAScript (continuation-passing, as
    in the language specification).  The regular-expression literals of the
    program are given by their source text, so that they can be compared
    with the code character by character. *)

From Stdlib Require Import Bool Arith Ascii String List NArith Lia.
Import ListNotations.

Set Implicit Arguments.

(** ** JavaScript strings *)

Module JsString.

(** A code unit of a JavaScript string (UTF-16), as a number. *)
Definition char : Type := N.

Definition str : Type := list char.

(** The code unit of an ASCII character. *)
Definition chr (a : ascii) : char := N_of_ascii a.

(** String literals of the source are written [lit "..."]. *)
Definition lit (s : string) : str := map chr (list_ascii_of_string s).

Definition newline : char := 10%N.

(** The one-character string holding a line feed, for writing literals. *)
Definition nl : string := String (ascii_of_nat 10) EmptyString.

Definition in_range (lo hi : N) (c : char) : bool :=
  (lo <=? c)%N && (c <=? hi)%N.

Definition is_digit (c : char) : bool := in_range 48 57 c.

Definition is_upper (c : char) : bool := in_range 65 90 c.

Definition is_lower (c : char) : bool := in_range 97 122 c.

Definition is_ascii_alnum (c : char) : bool :=
  is_digit c || is_upper c || is_lower c.

Definition is_word (c : char) : bool :=
  is_ascii_alnum c || (c =? 95)%N.

(** LineTerminator: LF, CR, LS, PS. *)
Definition is_line_terminator (c : char) : bool :=
  (c =? 10)%N || (c =? 13)%N || (c =? 8232)%N || (c =? 8233)%N.

(** WhiteSpace and LineTerminator, the set that [\s] matches and [trim]
    strips: TAB, LF, VT, FF, CR, SP, NBSP, U+1680, U+2000 to U+200A, LS, PS,
    U+202F, U+205F, U+3000 and the byte-order mark U+FEFF. *)
Definition is_space (c : char) : bool :=
  in_range 9 13 c || (c =? 32)%N || (c =? 160)%N || (c =? 5760)%N ||
  in_range 8192 8202 c || (c =? 8232)%N || (c =? 8233)%N || (c =? 8239)%N ||
  (c =? 8287)%N || (c =? 12288)%N || (c =? 65279)%N.

(** Upper and lower case of the ASCII letters; other characters are left
    alone. *)
Definition to_upper (c : char) : char :=
  if is_lower c then (c - 32)%N else c.

Definition to_lower (c : char) : char :=
  if is_upper c then (c + 32)%N else c.

Definition all_digits (s : str) : bool := forallb is_digit s.

(** [s.startsWith(p)] *)
Fixpoint startsWith (p s : str) : bool :=
  match p, s with
  | [], _ => true
  | _ :: _, [] => false
  | a :: p', b :: s' => (a =? b)%N && startsWith p' s'
  end.

(** [w] is found at the start of [s], letter case aside. *)
Fixpoint starts_ci (w s : str) : bool :=
  match w, s with
  | [], _ => true
  | _ :: _, [] => false
  | a :: w', b :: s' => (to_upper a =? to_upper b)%N && starts_ci w' s'
  end.

(** [w] occurs somewhere in [s], letter case aside. *)
Fixpoint occurs_ci (w s : str) : bool :=
  starts_ci w s ||
  match s with
  | [] => false
  | _ :: s' => occurs_ci w s'
  end.

(** [s.substring(n)] for [0 <= n]. *)
Definition substring_from (n : nat) (s : str) : str := skipn n s.

(** [s.substring(i, j)] / [s.slice(i, j)] for [0 <= i <= j]. *)
Definition substring (i j : nat) (s : str) : str := firstn (j - i) (skipn i s).

(** [s.split('\n')]: the result is never empty, [''.split('\n')] is ['']. *)
Fixpoint split_on (sep : char) (s : str) : list str :=
  match s with
  | [] => [[]]
  | c :: s' =>
      if (c =? sep)%N then [] :: split_on sep s'
      else match split_on sep s' with
           | [] => [[c]]
           | l :: ls => (c :: l) :: ls
           end
  end.

(** [lines.join(sep)] *)
Fixpoint join (sep : str) (ls : list str) : str :=
  match ls with
  | [] => []
  | [l] => l
  | l :: ls' => l ++ sep ++ join sep ls'
  end.

Fixpoint trim_start (s : str) : str :=
  match s with
  | c :: s' => if is_space c then trim_start s' else s
  | [] => []
  end.

Definition trim_end (s : str) : str := rev (trim_start (rev s)).

(** [s.trim()] *)
Definition trim (s : str) : str := trim_end (trim_start s).

(** *** Numbers

    JavaScript numbers as far as the line counter of the diff parser needs
    them: a natural number that is a double, NaN (what [parseInt] gives
    without digits), or Infinity (what a natural number from about 1.8e308
    on becomes). *)
Inductive jsnum : Type := Num (n : N) | NaN | Infinity.

(** 2^53: up to it every natural number is a double. *)
Definition exact_bound : N := 9007199254740992.

(** The number of JavaScript for the natural number [n]: [n] itself up to
    2^53; beyond, the nearest natural number with 53 significant bits, the
    one with the even last bit of the two when [n] lies half way; Infinity
    when that is 2^1024 or more. *)
Definition to_number (n : N) : jsnum :=
  if (n <=? exact_bound)%N then Num n
  else
    let e := (N.log2 n - 52)%N in
    let q := N.shiftr n e in
    let r := (n - N.shiftl q e)%N in
    let half := N.shiftl 1 (e - 1) in
    let q' := if (half <? r)%N || ((half =? r)%N && N.odd q)
              then (q + 1)%N else q in
    let v := N.shiftl q' e in
    if (N.log2 v <? 1024)%N then Num v else Infinity.

(** The value of the longest prefix of decimal digits of [s]. *)
Fixpoint digits_value (acc : N) (s : str) : N :=
  match s with
  | c :: s' =>
      if is_digit c then digits_value (10 * acc + (c - 48))%N s'
      else acc
  | [] => acc
  end.

(** [parseInt(s, 10)] on a string that starts with its digits: the number
    for the value of the longest prefix of digits, NaN when that prefix is
    empty. *)
Definition parseInt10 (s : str) : jsnum :=
  match s with
  | c :: _ => if is_digit c then to_number (digits_value 0 s) else NaN
  | [] => NaN
  end.

End JsString.

(** ** JavaScript regular expressions

    The abstract syntax covers pattern characters, [.], character classes,
    sequence, alternation, the quantifiers [*], [+], [?] (greedy and lazy),
    capturing and non-capturing groups, lookahead, and the assertions [^]
    and [$] (without the multiline flag): what the expressions of the
    program use, and what a glob pattern most often turns into. *)

Module Regex.
Import JsString.

Inductive citem : Type :=
| CChar (c : char)
| CRange (lo hi : char)
| CDigit | CNotDigit
| CSpace | CNotSpace
| CWord | CNotWord.

Inductive regex : Type :=
| REmpty
| RChar (c : char)
| RDot
| RClass (negated : bool) (items : list citem)
| RSeq (r1 r2 : regex)
| RAlt (r1 r2 : regex)
| RQuant (min : nat) (max : option nat) (greedy : bool) (r : regex)
| RGroup (idx : nat) (r : regex)
| RLook (positive : bool) (r : regex)
| RBol
| REol.

(** *** Matching *)

(** A match state: the input still to be read, the index reached, and the
    captures recorded so far, as (group, (start, end)) pairs, newest first. *)
Record mstate : Type := MState {
  rest : str;
  pos : nat;
  caps : list (nat * (nat * nat))
}.

Definition cont : Type := mstate -> option mstate.
Definition matcher : Type := mstate -> cont -> option mstate.

Fixpoint cap_get (n : nat) (cs : list (nat * (nat * nat))) : option (nat * nat) :=
  match cs with
  | [] => None
  | (k, v) :: cs' => if k =? n then Some v else cap_get n cs'
  end.

Definition cap_set (n : nat) (v : nat * nat) (x : mstate) : mstate :=
  MState (rest x) (pos x) ((n, v) :: caps x).

Fixpoint mem (n : nat) (l : list nat) : bool :=
  match l with
  | [] => false
  | k :: l' => (k =? n) || mem n l'
  end.

(** Captures of the groups [gs] become undefined again. *)
Definition cap_clear (gs : list nat) (x : mstate) : mstate :=
  MState (rest x) (pos x) (filter (fun kv => negb (mem (fst kv) gs)) (caps x)).

(** The capturing groups inside an expression. *)
Fixpoint groups_in (r : regex) : list nat :=
  match r with
  | RSeq r1 r2 | RAlt r1 r2 => groups_in r1 ++ groups_in r2
  | RQuant _ _ _ r1 | RLook _ r1 => groups_in r1
  | RGroup i r1 => i :: groups_in r1
  | _ => []
  end.

Definition item_has (it : citem) (c : char) : bool :=
  match it with
  | CChar a => (a =? c)%N
  | CRange lo hi => in_range lo hi c
  | CDigit => is_digit c
  | CNotDigit => negb (is_digit c)
  | CSpace => is_space c
  | CNotSpace => negb (is_space c)
  | CWord => is_word c
  | CNotWord => negb (is_word c)
  end.

Definition set_has (items : list citem) (c : char) : bool :=
  existsb (fun it => item_has it c) items.

(** Membership up to Canonicalize (the [i] flag): some member of the set
    has the same canonical form as [c]; the candidates are [c] itself, its
    upper-case and its lower-case form.  Canonicalize never sends a
    character outside ASCII to an ASCII one, so with ASCII case mapping the
    [i] flag is exact for expressions whose own characters are ASCII or
    class escapes, as those of the program are. *)
Definition set_has_ic (ic : bool) (items : list citem) (c : char) : bool :=
  if ic
  then set_has items c || set_has items (to_upper c) || set_has items (to_lower c)
  else set_has items c.

(** The characters an expression names are all ASCII: the expressions for
    which the [i] flag is modelled exactly. *)
Definition item_ascii (it : citem) : bool :=
  match it with
  | CChar c => (c <? 128)%N
  | CRange lo hi => (lo <? 128)%N && (hi <? 128)%N
  | _ => true
  end.

Fixpoint ascii_only (r : regex) : bool :=
  match r with
  | RChar c => (c <? 128)%N
  | RClass _ items => forallb item_ascii items
  | RSeq r1 r2 | RAlt r1 r2 => ascii_only r1 && ascii_only r2
  | RQuant _ _ _ r1 | RGroup _ r1 | RLook _ r1 => ascii_only r1
  | _ => true
  end.

Definition char_matcher (ok : char -> bool) : matcher :=
  fun x c =>
    match rest x with
    | [] => None
    | ch :: tl => if ok ch then c (MState tl (S (pos x)) (caps x)) else None
    end.

Definition orelse (a : option mstate) (b : option mstate) : option mstate :=
  match a with
  | Some z => Some z
  | None => b
  end.

(** RepeatMatcher of ECMAScript.  An iteration that is not required and
    consumes nothing is refused, so after the [min] required iterations each
    further one consumes input; [fuel] counts the calls and
    [min + length (rest x) + 1] of it is never used up. *)
Fixpoint repeat_matcher (m : matcher) (gs : list nat) (fuel : nat)
    (min : nat) (max : option nat) (greedy : bool) (x : mstate) (c : cont)
    {struct fuel} : option mstate :=
  match max with
  | Some 0 => c x
  | _ =>
      match fuel with
      | 0 => None
      | S fuel' =>
          let d : cont := fun y =>
            if (min =? 0) && (pos y =? pos x) then None
            else repeat_matcher m gs fuel' (Nat.pred min) (option_map Nat.pred max)
                   greedy y c in
          let xr := cap_clear gs x in
          if negb (min =? 0) then m xr d
          else if greedy then orelse (m xr d) (c x)
          else orelse (c x) (m xr d)
      end
  end.

Fixpoint rmatch (ic : bool) (r : regex) : matcher :=
  match r with
  | REmpty => fun x c => c x
  | RChar a =>
      char_matcher (fun ch =>
        if ic then (to_upper a =? to_upper ch)%N else (a =? ch)%N)
  | RDot => char_matcher (fun ch => negb (is_line_terminator ch))
  | RClass neg items => char_matcher (fun ch => xorb neg (set_has_ic ic items ch))
  | RSeq r1 r2 => fun x c => rmatch ic r1 x (fun y => rmatch ic r2 y c)
  | RAlt r1 r2 => fun x c => orelse (rmatch ic r1 x c) (rmatch ic r2 x c)
  | RQuant min max greedy r1 =>
      fun x c =>
        repeat_matcher (rmatch ic r1) (groups_in r1)
          (min + length (rest x) + 1) min max greedy x c
  | RGroup i r1 =>
      fun x c => rmatch ic r1 x (fun y => c (cap_set i (pos x, pos y) y))
  | RLook true r1 =>
      fun x c =>
        match rmatch ic r1 x (fun y => Some y) with
        | Some y => c (MState (rest x) (pos x) (caps y))
        | None => None
        end
  | RLook false r1 =>
      fun x c =>
        match rmatch ic r1 x (fun y => Some y) with
        | Some _ => None
        | None => c x
        end
  | RBol => fun x c => if pos x =? 0 then c x else None
  | REol => fun x c => match rest x with [] => c x | _ :: _ => None end
  end.

(** A successful match (the result array of [exec]): where it starts and
    ends, and the captures. *)
Record rmatch_result : Type := MResult {
  m_start : nat;
  m_end : nat;
  m_caps : list (nat * (nat * nat))
}.

Definition match_at (ic : bool) (r : regex) (s : str) (i : nat) : option rmatch_result :=
  match rmatch ic r (MState s i []) (fun y => Some y) with
  | Some y => Some (MResult i (pos y) (caps y))
  | None => None
  end.

(** RegExpBuiltinExec from index [i], where [s] is the input from [i] on:
    the first index at which the expression matches, up to and including the
    end of the input. *)
Fixpoint exec_from (ic : bool) (r : regex) (s : str) (i : nat) : option rmatch_result :=
  match match_at ic r s i with
  | Some res => Some res
  | None =>
      match s with
      | [] => None
      | _ :: s' => exec_from ic r s' (S i)
      end
  end.

Definition exec (ic : bool) (r : regex) (s : str) : option rmatch_result :=
  exec_from ic r s 0.

(** [r.test(s)] *)
Definition test (ic : bool) (r : regex) (s : str) : bool :=
  match exec ic r s with Some _ => true | None => false end.

(** Element [n] of the result array of [s.match(r)]: the text of group [n],
    [None] for a group that took no part in the match (undefined). *)
Definition group (s : str) (res : rmatch_result) (n : nat) : option str :=
  match cap_get n (m_caps res) with
  | Some (i, j) => Some (substring i j s)
  | None => None
  end.

(** [s.replace(r, repl)] for an expression with the [g] flag and a
    replacement text without [$]: every match, found left to right, is
    replaced; after an empty match the search resumes one character on.
    [skip] counts the characters of the last match still to be passed. *)
Fixpoint replace_walk (ic : bool) (r : regex) (repl : str) (s : str)
    (i skip : nat) : str :=
  match skip with
  | S k =>
      match s with
      | [] => []
      | _ :: s' => replace_walk ic r repl s' (S i) k
      end
  | 0 =>
      match match_at ic r s i with
      | Some res =>
          repl ++
          match s with
          | [] => []
          | ch :: s' =>
              if m_end res =? i then ch :: replace_walk ic r repl s' (S i) 0
              else replace_walk ic r repl s' (S i) (m_end res - i - 1)
          end
      | None =>
          match s with
          | [] => []
          | ch :: s' => ch :: replace_walk ic r repl s' (S i) 0
          end
      end
  end.

Definition replace_all (ic : bool) (r : regex) (repl : str) (s : str) : str :=
  replace_walk ic r repl s 0 0.

(** [s.replace(r, repl)] without the [g] flag: the first match only. *)
Definition replace_first (ic : bool) (r : regex) (repl : str) (s : str) : str :=
  match exec ic r s with
  | Some res => firstn (m_start res) s ++ repl ++ skipn (m_end res) s
  | None => s
  end.

(** Group [n] takes part in every successful match of the expression: it
    is set on the way, and no quantifier that comes later clears it. *)
Fixpoint always_sets (n : nat) (r : regex) : bool :=
  match r with
  | RSeq r1 r2 =>
      (always_sets n r1 && negb (mem n (groups_in r2))) || always_sets n r2
  | RAlt r1 r2 => always_sets n r1 && always_sets n r2
  | RGroup i r1 => (i =? n) || always_sets n r1
  | RLook true r1 => always_sets n r1
  | _ => false
  end.

(** The word a sequence of pattern characters spells. *)
Fixpoint word_of (r : regex) : option str :=
  match r with
  | RChar a => Some [a]
  | RSeq r1 (RChar a) =>
      match word_of r1 with
      | Some w => Some (w ++ [a])
      | None => None
      end
  | _ => None
  end.

(** The expression a sequence starts with. *)
Fixpoint lead (r : regex) : regex :=
  match r with
  | RSeq r1 _ => lead r1
  | _ => r
  end.

(** The text [tl] does not go on with a character that [ok] accepts. *)
Definition stops (ok : char -> bool) (tl : str) : Prop :=
  match tl with
  | [] => True
  | ch :: _ => ok ch = false
  end.

(** How the captures of [y], reached by matching [r] from [x], relate to
    those of [x]. *)
Definition through (r : regex) (x y : mstate) : Prop :=
  (forall n, always_sets n r = true -> cap_get n (caps y) <> None) /\
  (forall n, mem n (groups_in r) = false ->
             cap_get n (caps y) = cap_get n (caps x)).

(** The states a matcher may hand to its continuation when started in [x]:
    further along the same input. *)
Definition ahead (x y : mstate) : Prop :=
  length (rest y) <= length (rest x) /\
  pos y + length (rest y) = pos x + length (rest x).

(** A matcher only looks at its continuation on states ahead of its own. *)
Definition local (m : matcher) : Prop :=
  forall x c1 c2,
    (forall y, ahead x y -> c1 y = c2 y) -> m x c1 = m x c2.

(** *** Parsing: [new RegExp(source)]

    The parser reads the source text one character at a time and keeps a
    stack of the groups still open.  It reports a syntax error where
    ECMAScript (with the web-compatibility grammar, no [u] flag) does, and
    [PUnsupported] for syntax outside the modelled fragment: braces,
    back-references, [\b], escapes of letters and digits other than
    [d D s S w W n t r f v], and [(?] groups other than [(?:], [(?=], [(?!]. *)

Inductive presult (A : Type) : Type :=
| POk (a : A)
| PSyntaxError
| PUnsupported.
Arguments PSyntaxError {A}.
Arguments PUnsupported {A}.

(** What the last term of the current alternative is: an atom (which may be
    quantified), an assertion, a greedy quantified term (which [?] may still
    make lazy), or a lazy one. *)
Inductive tstat : Type := TAtom | TAssert | TGreedy | TLazy.

Inductive gkind : Type :=
| KCapture (i : nat)
| KNonCapture
| KLook (positive : bool).

(** Inside a character class: no atom pending, an atom that may still start
    a range, or an atom followed by [-]. *)
Inductive pend : Type := PNone | PAtom (a : citem) | PDash (a : citem).

Inductive pmode : Type :=
| MNormal
| MEscape
| MParen
| MParenQ
| MClassStart
| MClass (neg : bool) (items : list citem) (p : pend)
| MClassEsc (neg : bool) (items : list citem) (p : pend).

Definition terms : Type := list (regex * tstat).

Record pstate : Type := PState {
  cur_alts : list regex;
  cur_seq : terms;
  stack : list (gkind * list regex * terms);
  ngroups : nat;
  mode : pmode
}.

(** Terms and alternatives are kept newest first. *)
Fixpoint seq_of (ts : terms) : regex :=
  match ts with
  | [] => REmpty
  | [(r, _)] => r
  | (r, _) :: older => RSeq (seq_of older) r
  end.

Definition alt_of (alts : list regex) (ts : terms) : regex :=
  fold_left (fun acc a => RAlt a acc) alts (seq_of ts).

Definition wrap (k : gkind) (body : regex) : regex :=
  match k with
  | KCapture i => RGroup i body
  | KNonCapture => body
  | KLook b => RLook b body
  end.

(** [c] is the ASCII character written as the one-character string [s]. *)
Definition ch_is (c : char) (s : string) : bool :=
  match s with
  | String a EmptyString => (c =? chr a)%N
  | _ => false
  end.

Definition set_mode (st : pstate) (m : pmode) : pstate :=
  PState (cur_alts st) (cur_seq st) (stack st) (ngroups st) m.

Definition push_term (st : pstate) (r : regex) (t : tstat) : pstate :=
  PState (cur_alts st) ((r, t) :: cur_seq st) (stack st) (ngroups st) MNormal.

Definition open_group (st : pstate) (k : gkind) (n : nat) : pstate :=
  PState [] [] ((k, cur_alts st, cur_seq st) :: stack st) n MNormal.

Definition quantify (st : pstate) (min : nat) (max : option nat) : presult pstate :=
  match cur_seq st with
  | (r, TAtom) :: ts =>
      POk (PState (cur_alts st) ((RQuant min max true r, TGreedy) :: ts)
             (stack st) (ngroups st) MNormal)
  | _ => PSyntaxError
  end.

Definition question_mark (st : pstate) : presult pstate :=
  match cur_seq st with
  | (RQuant min max true r, TGreedy) :: ts =>
      POk (PState (cur_alts st) ((RQuant min max false r, TLazy) :: ts)
             (stack st) (ngroups st) MNormal)
  | _ => quantify st 0 (Some 1)
  end.

Definition step_normal (st : pstate) (c : char) : presult pstate :=
  if ch_is c "\" then POk (set_mode st MEscape)
  else if ch_is c "(" then POk (set_mode st MParen)
  else if ch_is c ")" then
    match stack st with
    | [] => PSyntaxError
    | (k, alts0, seq0) :: stk =>
        POk (PState alts0
               ((wrap k (alt_of (cur_alts st) (cur_seq st)), TAtom) :: seq0)
               stk (ngroups st) MNormal)
    end
  else if ch_is c "[" then POk (set_mode st MClassStart)
  else if ch_is c "|" then
    POk (PState (seq_of (cur_seq st) :: cur_alts st) [] (stack st) (ngroups st) MNormal)
  else if ch_is c "^" then POk (push_term st RBol TAssert)
  else if ch_is c "$" then POk (push_term st REol TAssert)
  else if ch_is c "." then POk (push_term st RDot TAtom)
  else if ch_is c "*" then quantify st 0 None
  else if ch_is c "+" then quantify st 1 None
  else if ch_is c "?" then question_mark st
  else if ch_is c "{" then PUnsupported
  else POk (push_term st (RChar c) TAtom).

(** The class item an escape stands for, inside or outside a class. *)
Definition escape_item (e : char) : presult citem :=
  if ch_is e "d" then POk CDigit
  else if ch_is e "D" then POk CNotDigit
  else if ch_is e "s" then POk CSpace
  else if ch_is e "S" then POk CNotSpace
  else if ch_is e "w" then POk CWord
  else if ch_is e "W" then POk CNotWord
  else if ch_is e "n" then POk (CChar 10%N)
  else if ch_is e "t" then POk (CChar 9%N)
  else if ch_is e "r" then POk (CChar 13%N)
  else if ch_is e "f" then POk (CChar 12%N)
  else if ch_is e "v" then POk (CChar 11%N)
  else if is_ascii_alnum e then PUnsupported
  else POk (CChar e).

Definition item_atom (it : citem) : regex :=
  match it with
  | CChar a => RChar a
  | _ => RClass false [it]
  end.

(** A class atom arrives while [p] is pending. *)
Definition class_atom (neg : bool) (items : list citem) (p : pend) (a : citem)
  : presult pmode :=
  match p with
  | PNone => POk (MClass neg items (PAtom a))
  | PAtom b => POk (MClass neg (b :: items) (PAtom a))
  | PDash b =>
      match b, a with
      | CChar lo, CChar hi =>
          if (lo <=? hi)%N then POk (MClass neg (CRange lo hi :: items) PNone)
          else PSyntaxError
      | _, _ => POk (MClass neg (a :: CChar (chr "-") :: b :: items) PNone)
      end
  end.

Definition class_close (neg : bool) (items : list citem) (p : pend) : regex :=
  RClass neg (rev match p with
                  | PNone => items
                  | PAtom b => b :: items
                  | PDash b => CChar (chr "-") :: b :: items
                  end).

Definition step_class (st : pstate) (neg : bool) (items : list citem) (p : pend)
    (c : char) : presult pstate :=
  if ch_is c "]" then POk (push_term st (class_close neg items p) TAtom)
  else if ch_is c "\" then POk (set_mode st (MClassEsc neg items p))
  else if ch_is c "-" then
    match p with
    | PAtom b => POk (set_mode st (MClass neg items (PDash b)))
    | _ =>
        match class_atom neg items p (CChar c) with
        | POk m => POk (set_mode st m)
        | PSyntaxError => PSyntaxError
        | PUnsupported => PUnsupported
        end
    end
  else
    match class_atom neg items p (CChar c) with
    | POk m => POk (set_mode st m)
    | PSyntaxError => PSyntaxError
    | PUnsupported => PUnsupported
    end.

Definition step (st : pstate) (c : char) : presult pstate :=
  match mode st with
  | MNormal => step_normal st c
  | MEscape =>
      match escape_item c with
      | POk it => POk (push_term st (item_atom it) TAtom)
      | PSyntaxError => PSyntaxError
      | PUnsupported => PUnsupported
      end
  | MParen =>
      if ch_is c "?" then POk (set_mode st MParenQ)
      else step_normal (open_group st (KCapture (S (ngroups st))) (S (ngroups st))) c
  | MParenQ =>
      if ch_is c ":" then POk (open_group st KNonCapture (ngroups st))
      else if ch_is c "=" then POk (open_group st (KLook true) (ngroups st))
      else if ch_is c "!" then POk (open_group st (KLook false) (ngroups st))
      else PUnsupported
  | MClassStart =>
      if ch_is c "^" then POk (set_mode st (MClass true [] PNone))
      else step_class st false [] PNone c
  | MClass neg items p => step_class st neg items p c
  | MClassEsc neg items p =>
      match escape_item c with
      | POk it =>
          match class_atom neg items p it with
          | POk m => POk (set_mode st m)
          | PSyntaxError => PSyntaxError
          | PUnsupported => PUnsupported
          end
      | PSyntaxError => PSyntaxError
      | PUnsupported => PUnsupported
      end
  end.

(** At the end of the source nothing may be left open. *)
Definition finish (st : pstate) : presult regex :=
  match mode st, stack st with
  | MNormal, [] => POk (alt_of (cur_alts st) (cur_seq st))
  | _, _ => PSyntaxError
  end.

Fixpoint parse_from (st : pstate) (src : str) : presult regex :=
  match src with
  | [] => finish st
  | c :: src' =>
      match step st c with
      | POk st' => parse_from st' src'
      | PSyntaxError => PSyntaxError
      | PUnsupported => PUnsupported
      end
  end.

Definition parse (src : str) : presult regex :=
  parse_from (PState [] [] [] 0 MNormal) src.

(** The parser is between two terms, with no group open. *)
Definition settled (st : pstate) : Prop := mode st = MNormal /\ stack st = [].

(** A regular-expression literal of the source text.  The literals of the
    program all parse (see [literals_parse] below). *)
Definition literal (src : string) : regex :=
  match parse (lit src) with
  | POk r => r
  | _ => RClass false []
  end.

End Regex.

(** ** git-utils.ts: the diff hunk parser *)

Module GitUtils.
Import JsString Regex.

(** [currentLineNumber++]: one more, as a number of JavaScript. *)
Definition incr (v : jsnum) : jsnum :=
  match v with
  | Num n => to_number (n + 1)
  | NaN => NaN
  | Infinity => Infinity
  end.

Inductive change_type : Type := addition | deletion.

Record GitChange : Type := mkGitChange {
  type : change_type;
  lineNumber : jsnum;
  content : str;
  context : list str
}.

(** [lines.slice(start, end)] for [0 <= start] and [0 <= end]. *)
Definition slice {A : Type} (start stop : nat) (l : list A) : list A :=
  firstn (stop - start) (skipn start l).

Definition is_header_line (line : str) : bool := startsWith (lit "@@") line.

Definition is_addition_line (line : str) : bool :=
  startsWith (lit "+") line && negb (startsWith (lit "+++") line).

Definition is_deletion_line (line : str) : bool :=
  startsWith (lit "-") line && negb (startsWith (lit "---") line).

Definition is_context_line (line : str) : bool := startsWith (lit " ") line.

(** [getContextLines(lines, currentIndex, contextSize = 3)].  Subtraction on
    [nat] stops at 0, as [Math.max(0, ...)] does. *)
Definition getContextLines (lines : list str) (currentIndex contextSize : nat)
  : list str :=
  let start := Nat.max 0 (currentIndex - contextSize) in
  let stop := Nat.min (length lines) (currentIndex + contextSize + 1) in
  map (substring_from 1) (filter is_context_line (slice start stop lines)).

Definition contextSize_default : nat := 3.

(** [/@@ -\d+,?\d* \+(\d+),?\d* @@/] *)
Definition hunk_header_re : regex := literal "@@ -\d+,?\d* \+(\d+),?\d* @@".

(** [parseInt(match[1], 10)] *)
Definition parseInt_group (line : str) (m : rmatch_result) : jsnum :=
  match group line m 1 with
  | Some ds => parseInt10 ds
  | None => NaN
  end.

(** The line counter after a line that starts with [@@]: set from the
    header when the expression matches, left alone otherwise. *)
Definition after_header (line : str) (currentLineNumber : jsnum) : jsnum :=
  match exec false hunk_header_re line with
  | Some m => parseInt_group line m
  | None => currentLineNumber
  end.

(** The loop of [parseDiffOutput]: [todo] is [lines] from index [i] on. *)
Fixpoint scan (lines : list str) (i : nat) (todo : list str)
    (currentLineNumber : jsnum) : list GitChange :=
  match todo with
  | [] => []
  | line :: todo' =>
      if is_header_line line then
        scan lines (S i) todo' (after_header line currentLineNumber)
      else if is_addition_line line then
        mkGitChange addition currentLineNumber (substring_from 1 line)
          (getContextLines lines i contextSize_default)
        :: scan lines (S i) todo' (incr currentLineNumber)
      else if is_deletion_line line then
        mkGitChange deletion currentLineNumber (substring_from 1 line)
          (getContextLines lines i contextSize_default)
        :: scan lines (S i) todo' currentLineNumber
      else if is_context_line line then
        scan lines (S i) todo' (incr currentLineNumber)
      else scan lines (S i) todo' currentLineNumber
  end.

Definition parseDiffLines (lines : list str) : list GitChange :=
  scan lines 0 lines (Num 0).

Definition parseDiffOutput (diffOutput : str) : list GitChange :=
  parseDiffLines (split_on newline diffOutput).

(** *** Vocabulary of the statements about the parser *)

(** The text of a line that starts with a space, without that space. *)
Definition unmarked (line : str) : list str :=
  match line with
  | c :: text => if (c =? chr " ")%N then [text] else []
  | [] => []
  end.

(** The context of the record emitted at index [i], in the words of the
    specification: of the lines at the indices [i - w] to [i + w] of the
    line array, as far as they exist, those that start with a space,
    without that space. *)
Definition context_reading (lines : list str) (i w : nat) : list str :=
  flat_map (fun j => match nth_error lines j with
                     | Some line => unmarked line
                     | None => []
                     end)
           (seq (i - w) (i + w + 1 - (i - w))).

(** The indices of the line array at which the loop emits a record: those
    of the lines that start with [+] or [-] but not with [+++] or [---]. *)
Definition emitting_indices (lines : list str) : list nat :=
  filter (fun j => is_addition_line (nth j lines []) ||
                   is_deletion_line (nth j lines []))
         (seq 0 (length lines)).

Definition content_and_context (c : GitChange) : str * list str :=
  (content c, context c).

(** Lines [i] and [j] lie in the same hunk: no hunk header comes after the
    earlier of the two, up to and including the later. *)
Definition same_hunk (lines : list str) (i j : nat) : bool :=
  forallb (fun k => negb (is_header_line (nth k lines [])))
    (seq (S (Nat.min i j)) (Nat.max i j - Nat.min i j)).

(** The context of the record emitted at index [i] only holds lines of the
    hunk of line [i]. *)
Definition context_within_hunk (lines : list str) (i : nat) (c : GitChange)
  : Prop :=
  forall text, In text (context c) ->
    exists j, same_hunk lines i j = true /\
              nth_error lines j = Some (chr " " :: text).

(** A hunk header as git writes it:
    [@@ -<old>[,<count>] +<new>[,<count>] @@<tail>]. *)
Definition range_text (start : str) (count : option str) : str :=
  start ++ match count with
           | Some k => lit "," ++ k
           | None => []
           end.

Definition hunk_header (old : str) (oldCount : option str) (new : str)
    (newCount : option str) (tail : str) : str :=
  lit "@@ -" ++ range_text old oldCount ++ lit " +" ++
  range_text new newCount ++ lit " @@" ++ tail.

Definition count_ok (count : option str) : bool :=
  match count with
  | Some k => all_digits k
  | None => true
  end.

(** A line on which the loop emits nothing and that is no hunk header:
    [diff --git ...], [index ...], [--- a/...], [+++ b/...], context lines,
    [\ No newline at end of file], the empty line. *)
Definition is_silent_line (line : str) : bool :=
  negb (is_header_line line) && negb (is_addition_line line) &&
  negb (is_deletion_line line).

(** A line holds no line feed. *)
Definition one_line (line : str) : bool :=
  forallb (fun c => negb (c =? newline)%N) line.

(** The lines that follow the last line feed of a text: one empty line when
    the text ends in a line feed. *)
Definition last_lines (trailing_newline : bool) : list str :=
  if trailing_newline then [[]] else [].

Definition kind_and_line (c : GitChange) : change_type * jsnum :=
  (type c, lineNumber c).

End GitUtils.

(** ** analyzer.ts: glob filter and response section extractor *)

Module Analyzer.
Import JsString Regex.

(** What a call does: it returns a value, or it throws (a SyntaxError from
    [new RegExp], a TypeError from a method call on undefined).
    [OutsideModel] marks a pattern whose syntax the regular-expression model
    does not cover; nothing is claimed about such a call. *)
Inductive outcome (A : Type) : Type :=
| Returns (a : A)
| Throws
| OutsideModel.
Arguments Throws {A}.
Arguments OutsideModel {A}.

Definition bind {A B : Type} (m : outcome A) (f : A -> outcome B) : outcome B :=
  match m with
  | Returns a => f a
  | Throws => Throws
  | OutsideModel => OutsideModel
  end.

Notation "x <- m ;; k" := (bind m (fun x => k))
  (at level 61, m at next level, right associativity).

(** [new RegExp(source)] *)
Definition new_RegExp (source : str) : outcome regex :=
  match parse source with
  | POk r => Returns r
  | PSyntaxError => Throws
  | PUnsupported => OutsideModel
  end.

(** The three [replace] calls of [matchesPattern], in the order of the code. *)
Definition glob_to_regex_source (pattern : str) : str :=
  replace_all false (literal "\?") (lit "[^/]")
    (replace_all false (literal "\*") (lit "[^/]*")
       (replace_all false (literal "\*\*") (lit ".*") pattern)).

Definition matchesPattern (filePath pattern : str) : outcome bool :=
  let regex := glob_to_regex_source pattern in
  r <- new_RegExp (lit "^" ++ regex ++ lit "$") ;;
  Returns (test false r filePath).

Record Config : Type := mkConfig {
  includePatterns : option (list str);
  excludePatterns : option (list str)
}.

(** A [for] loop over patterns that leaves at the first match. *)
Fixpoint first_match (filePath : str) (patterns : list str) : outcome bool :=
  match patterns with
  | [] => Returns false
  | pattern :: more =>
      hit <- matchesPattern filePath pattern ;;
      if hit then Returns true else first_match filePath more
  end.

Definition shouldAnalyzeFile (config : Config) (filePath : str) : outcome bool :=
  hit <- match excludePatterns config with
         | Some patterns => first_match filePath patterns
         | None => Returns false
         end ;;
  if hit then Returns false
  else
    match includePatterns config with
    | Some patterns => first_match filePath patterns
    | None => Returns true
    end.

(** The result of [extractSections]: every field may be absent. *)
Record Sections : Type := mkSections {
  s_summary : option str;
  s_purpose : option str;
  s_impact : option str;
  s_documentation : option str;
  s_keyChanges : option (list str);
  s_suggestions : option (list str)
}.

Definition summary_re : regex := literal
  "(?:Summary|SUMMARY)[:\-\s]*([\s\S]*?)(?=\n(?:Purpose|PURPOSE|Key|Impact|Documentation|Suggestions|$))".
Definition purpose_re : regex := literal
  "(?:Purpose|PURPOSE)[:\-\s]*([\s\S]*?)(?=\n(?:Key|Impact|Documentation|Suggestions|$))".
Definition impact_re : regex := literal
  "(?:Impact|IMPACT)[:\-\s]*([\s\S]*?)(?=\n(?:Documentation|Suggestions|$))".
Definition doc_re : regex := literal
  "(?:Documentation|DOCUMENTATION)[:\-\s]*([\s\S]*?)(?=\n(?:Suggestions|$))".
Definition keyChanges_re : regex := literal
  "(?:Key Changes|KEY CHANGES)[:\-\s]*([\s\S]*?)(?=\n(?:Impact|Documentation|Suggestions|$))".
Definition suggestions_re : regex := literal
  "(?:Suggestions|SUGGESTIONS)[:\-\s]*([\s\S]*?)$".
Definition bullet_re : regex := literal "^[\-\*\+\d]+\.?\s*".

Definition nonempty (line : str) : bool := 0 <? length line.

Definition extractListItems (text : str) : list str :=
  filter nonempty
    (map (fun line => trim (replace_first false bullet_re [] line))
       (filter nonempty (map trim (split_on newline text)))).

(** [response.match(re)] with the [i] flag, then [m[1]] handed to [f] when
    there is a match.  A method call on an undefined [m[1]] throws. *)
Definition section {A : Type} (re : regex) (f : str -> A) (response : str)
  : outcome (option A) :=
  match exec true re response with
  | Some m =>
      match group response m 1 with
      | Some text => Returns (Some (f text))
      | None => Throws
      end
  | None => Returns None
  end.

Definition extractSections (response : str) : outcome Sections :=
  summary <- section summary_re trim response ;;
  purpose <- section purpose_re trim response ;;
  impact <- section impact_re trim response ;;
  documentation <- section doc_re trim response ;;
  keyChanges <- section keyChanges_re extractListItems response ;;
  suggestions <- section suggestions_re extractListItems response ;;
  Returns (mkSections summary purpose impact documentation keyChanges suggestions).

Record AnalysisResult : Type := mkAnalysisResult {
  file : str;
  language : str;
  summary : str;
  purpose : str;
  keyChanges : list str;
  impact : str;
  documentation : str;
  suggestions : list str
}.

(** [a || b] on an optional string: undefined and the empty string are falsy. *)
Definition or_str (a : option str) (b : str) : str :=
  match a with
  | Some (c :: s) => c :: s
  | _ => b
  end.

(** [a || []] on an optional array: every array is truthy. *)
Definition or_list (a : option (list str)) : list str :=
  match a with
  | Some l => l
  | None => []
  end.

Definition parseAnalysisResponse (filePath language response : str)
  : outcome AnalysisResult :=
  sections <- extractSections response ;;
  Returns (mkAnalysisResult filePath language
             (or_str (s_summary sections) (lit "No summary provided"))
             (or_str (s_purpose sections) (lit "No purpose identified"))
             (or_list (s_keyChanges sections))
             (or_str (s_impact sections) (lit "Impact not specified"))
             (or_str (s_documentation sections) response)
             (or_list (s_suggestions sections))).

(** *** Vocabulary of the statements about the filter and the extractor *)

(** The characters a pattern may hold, next to the wildcards, for its
    translation to be a regular expression whatever their order: all but
    the backslash, parentheses, the opening bracket and brace, and [+]. *)
Definition glob_char (c : char) : bool :=
  negb (ch_is c "\" || ch_is c "(" || ch_is c ")" || ch_is c "[" ||
        ch_is c "+" || ch_is c "{").

Definition glob_pattern (pattern : str) : bool := forallb glob_char pattern.

(** What the first [replace] computes: pairs of stars, left to right. *)
Fixpoint double_stars (s : str) : str :=
  match s with
  | a :: s' =>
      match s' with
      | b :: s'' =>
          if (chr "*" =? a)%N && (chr "*" =? b)%N then lit ".*" ++ double_stars s''
          else a :: double_stars s'
      | [] => [a]
      end
  | [] => []
  end.

(** What the second and third [replace] compute, character by character. *)
Definition wildcard (c : char) : str :=
  if ch_is c "*" then lit "[^/]*"
  else if ch_is c "?" then lit "[^/]"
  else [c].

(** The words of the filter rules: a pattern is valid for a path when its
    evaluation returns, and matches when it returns [true]. *)
Definition evaluates (filePath pattern : str) : Prop :=
  exists b, matchesPattern filePath pattern = Returns b.

Definition matches (filePath pattern : str) : Prop :=
  matchesPattern filePath pattern = Returns true.

Definition patterns_of (configured : option (list str)) : list str :=
  match configured with
  | Some patterns => patterns
  | None => []
  end.

Definition excluded (config : Config) (filePath : str) : Prop :=
  exists p, In p (patterns_of (excludePatterns config)) /\ matches filePath p.

(** The filter rule as the specification words it. *)
Definition filter_rule (config : Config) (filePath : str) : Prop :=
  (excluded config filePath ->
     shouldAnalyzeFile config filePath = Returns false) /\
  (~ excluded config filePath ->
     forall patterns, includePatterns config = Some patterns ->
       (forall p, In p patterns -> ~ matches filePath p) ->
       shouldAnalyzeFile config filePath = Returns false) /\
  (~ excluded config filePath ->
     includePatterns config = None ->
     shouldAnalyzeFile config filePath = Returns true).

(** The six headings; a text is headingless when none of them occurs in it,
    in any letter case. *)
Definition headings : list str :=
  [lit "Summary"; lit "Purpose"; lit "Impact"; lit "Documentation";
   lit "Key Changes"; lit "Suggestions"].

Definition headingless (response : str) : bool :=
  forallb (fun w => negb (occurs_ci w response)) headings.

Definition no_sections : Sections := mkSections None None None None None None.

(** The backend response of the end-to-end scenario (no line feed at the
    end). *)
Definition example_response : str :=
  lit ("Summary: fixes bug" ++ nl ++ "Purpose: stability" ++ nl ++
       "Key Changes:" ++ nl ++ "- fix A" ++ nl ++ "- fix B" ++ nl ++
       "Impact: low risk")%string.

End Analyzer.


(** ** Where a matcher may go *)

Module RegexTrace.
Import JsString Regex.

(** State [y] lies [k] characters further along the input than [x]. *)
Definition along (x y : mstate) : Prop :=
  exists k, rest y = skipn k (rest x) /\ pos y = pos x + k.

(** The matchers of a list of expressions, one after the other: what a
    sequence of terms runs. *)
Fixpoint run (ic : bool) (rs : list regex) (x : mstate) (c : cont)
  : option mstate :=
  match rs with
  | [] => c x
  | r :: rs' => rmatch ic r x (fun y => run ic rs' y c)
  end.

Definition is_some {A : Type} (o : option A) : bool :=
  match o with
  | Some _ => true
  | None => false
  end.

End RegexTrace.

(** ** git-utils.ts: vocabulary for the records and their numbering *)

Module DiffLines.
Import JsString Regex GitUtils.

(** A line for which the loop emits a record. *)
Definition is_change_line (line : str) : bool :=
  is_addition_line line || is_deletion_line line.

Definition kind_of (line : str) : change_type :=
  if is_addition_line line then addition else deletion.

(** A line of the new side of the diff: the loop advances its counter. *)
Definition is_new_side_line (line : str) : bool :=
  is_addition_line line || is_context_line line.

Definition new_side_lines (ls : list str) : N :=
  N.of_nat (length (filter is_new_side_line ls)).

(** The indices of a hunk body at which a record is emitted. *)
Definition change_indices (body : list str) : list nat :=
  filter (fun j => is_change_line (nth j body [])) (seq 0 (length body)).

Definition kind_and_content (c : GitChange) : change_type * str :=
  (type c, content c).

Definition kind_line_content (c : GitChange) : change_type * jsnum * str :=
  (type c, lineNumber c, content c).

(** The line counter holds a number, not NaN. *)
Definition is_number (v : jsnum) : bool :=
  match v with
  | Num _ => true
  | NaN => false
  | Infinity => true
  end.

(** A line that starts with the marker of a file header, [+++] or [---]. *)
Definition is_marker_line (line : str) : bool :=
  startsWith (lit "+++") line || startsWith (lit "---") line.

End DiffLines.

(** ** analyzer.ts: what the translated glob patterns mean

    A reference reading of the patterns, for comparison with
    [Analyzer.matchesPattern]: the pattern is cut into tokens the way the
    three [replace] calls see it, and the tokens are matched against the
    path directly, without regular expressions. *)

Module Glob.
Import JsString Regex Analyzer.

Definition slash : char := chr "/".

Inductive gtoken : Type :=
| GLit (c : char)      (* the character itself *)
| GAny                 (* [.]: one character, no line terminator *)
| GOne                 (* [[^/]]: one character, no separator *)
| GMany.               (* [[^/]*]: any number of characters, no separator *)

(** After the first [replace], [**] reads [.*]; the second turns every [*]
    into [[^/]*], also the one of [.*]; the third turns [?] into [[^/]];
    a dot stays the dot of the regular expression. *)
Definition token_of (c : char) : gtoken :=
  if ch_is c "*" then GMany
  else if ch_is c "?" then GOne
  else if ch_is c "." then GAny
  else GLit c.

Definition glob_tokens (pattern : str) : list gtoken :=
  map token_of (double_stars pattern).

Definition not_slash (c : char) : bool := negb (slash =? c)%N.

(** [g] holds after a run of characters without separator. *)
Fixpoint many (g : str -> bool) (path : str) : bool :=
  g path ||
  match path with
  | a :: p => not_slash a && many g p
  | [] => false
  end.

Fixpoint glob_match (ts : list gtoken) (path : str) {struct ts} : bool :=
  match ts with
  | [] => match path with [] => true | _ :: _ => false end
  | GLit c :: ts' =>
      match path with
      | a :: p => (c =? a)%N && glob_match ts' p
      | [] => false
      end
  | GAny :: ts' =>
      match path with
      | a :: p => negb (is_line_terminator a) && glob_match ts' p
      | [] => false
      end
  | GOne :: ts' =>
      match path with
      | a :: p => not_slash a && glob_match ts' p
      | [] => false
      end
  | GMany :: ts' => many (glob_match ts') path
  end.

(** The term of the regular expression that a token is parsed into. *)
Definition no_slash_class : regex := RClass true [CChar slash].

Definition tok_regex (t : gtoken) : regex :=
  match t with
  | GLit c => RChar c
  | GAny => RDot
  | GOne => no_slash_class
  | GMany => RQuant 0 None true no_slash_class
  end.

Definition gterm (t : gtoken) : regex * tstat :=
  (tok_regex t, match t with GMany => TGreedy | _ => TAtom end).

(** The characters of an everyday pattern: anything but the characters
    that change the structure of a regular expression (the wildcards [*],
    [?] and the dot are allowed, and are read as above). *)
Definition simple_char (c : char) : bool :=
  negb (ch_is c "\" || ch_is c "(" || ch_is c ")" || ch_is c "[" ||
        ch_is c "+" || ch_is c "{" || ch_is c "|" || ch_is c "^" ||
        ch_is c "$").

Definition simple_pattern (pattern : str) : bool := forallb simple_char pattern.

(** A pattern without wildcard and without dot. *)
Definition literal_char (c : char) : bool :=
  simple_char c && negb (ch_is c "*" || ch_is c "?" || ch_is c ".").

Definition literal_pattern (pattern : str) : bool := forallb literal_char pattern.

Fixpoint str_eqb (a b : str) : bool :=
  match a, b with
  | [], [] => true
  | x :: a', y :: b' => (x =? y)%N && str_eqb a' b'
  | _, _ => false
  end.

(** The number of separators of a path. *)
Definition depth (path : str) : nat :=
  length (filter (fun c => (slash =? c)%N) path).


End Glob.

(** ** config.ts: the default patterns *)

Module ConfigDefaults.
Import JsString Analyzer.

(** [DEFAULT_CONFIG], as far as the file filter reads it. *)
Definition DEFAULT_CONFIG : Config :=
  mkConfig
    (Some [lit "**/*.js"; lit "**/*.ts"; lit "**/*.tsx"; lit "**/*.jsx";
           lit "**/*.py"; lit "**/*.java"; lit "**/*.cpp"; lit "**/*.c";
           lit "**/*.h"])
    (Some [lit "node_modules/**"; lit "dist/**"; lit "build/**";
           lit ".git/**"; lit "**/*.test.*"; lit "**/*.spec.*"]).

End ConfigDefaults.

(** ** analyzer.ts: vocabulary for the section extractor *)

Module Sectioning.
Import JsString Regex RegexTrace GitUtils Analyzer.

(** What [extractListItems] promises of an item. *)
Definition is_list_item (item : str) : Prop :=
  nonempty item = true /\ trim item = item /\ one_line item = true.

(** *** A reading of the section expressions without regular expressions

    Each of the expressions of [extractSections] reads: the heading word (in
    either of two spellings, letter case aside), a run of separators
    [[:\-\s]*], the text of the section, as short as possible, and then
    either a line feed followed by one of the next headings or by the end of
    the response, or (Suggestions) the end of the response. *)

Definition is_sep (c : char) : bool :=
  ch_is c ":" || ch_is c "-" || is_space c.

Fixpoint drop_seps (s : str) : str :=
  match s with
  | c :: tl => if is_sep c then drop_seps tl else s
  | [] => []
  end.

Definition is_empty (s : str) : bool :=
  match s with
  | [] => true
  | _ :: _ => false
  end.

(** The text goes on with a line feed and then one of the words [next], or
    nothing more: where the lookahead of a section expression holds. *)
Definition boundary (next : list str) (s : str) : bool :=
  match s with
  | a :: tl =>
      (newline =? a)%N &&
      (existsb (fun w => starts_ci w tl) next || is_empty tl)
  | [] => false
  end.

(** The text up to the first place where [stop] holds, if there is one. *)
Fixpoint text_until (stop : str -> bool) (s : str) : option str :=
  if stop s then Some []
  else match s with
       | [] => None
       | a :: tl => option_map (cons a) (text_until stop tl)
       end.

(** The index at which [w] first occurs in [s], letter case aside. *)
Fixpoint find_ci (w s : str) : option nat :=
  if starts_ci w s then Some 0
  else match s with
       | [] => None
       | _ :: tl => option_map S (find_ci w tl)
       end.

(** The text of a section, given what follows its heading word and where
    the section may stop: the text between the separators and the first
    stop after them; the empty text when the only stops lie among the
    separators; nothing when there is no stop at all. *)
Definition reading_after (stop : str -> bool) (after : str) : option str :=
  match text_until stop (drop_seps after) with
  | Some text => Some text
  | None =>
      match text_until stop after with
      | Some _ => Some []
      | None => None
      end
  end.

(** The section that starts at the first occurrence of the word [w]. *)
Definition section_reading (w : str) (next : list str) (response : str)
  : option str :=
  match find_ci w response with
  | Some n => reading_after (boundary next) (skipn (n + length w) response)
  | None => None
  end.

(** The section that runs to the end of the response. *)
Definition rest_reading (w : str) (response : str) : option str :=
  match find_ci w response with
  | Some n => Some (drop_seps (skipn (n + length w) response))
  | None => None
  end.

(** The shape of the section expressions. *)
Definition word_regex (w : str) : regex :=
  match w with
  | [] => REmpty
  | c :: tl => fold_left (fun acc a => RSeq acc (RChar a)) tl (RChar c)
  end.

Definition next_alts (next : list str) : regex :=
  fold_right (fun w acc => RAlt (word_regex w) acc) REol next.

Definition sep_run : regex :=
  RQuant 0 None true (RClass false [CChar (chr ":"); CChar (chr "-"); CSpace]).

Definition any_text : regex :=
  RGroup 1 (RQuant 0 None false (RClass false [CSpace; CNotSpace])).

Definition heading_regex (w1 w2 : str) : regex :=
  RSeq (RSeq (RAlt (word_regex w1) (word_regex w2)) sep_run) any_text.

Definition section_regex (w1 w2 : str) (next : list str) : regex :=
  RSeq (heading_regex w1 w2)
    (RLook true (RSeq (RChar newline) (next_alts next))).

Definition rest_regex (w1 w2 : str) : regex :=
  RSeq (heading_regex w1 w2) REol.

(** The words that end each section, as the lookaheads list them. *)
Definition after_summary : list str :=
  [lit "Purpose"; lit "PURPOSE"; lit "Key"; lit "Impact";
   lit "Documentation"; lit "Suggestions"].
Definition after_purpose : list str :=
  [lit "Key"; lit "Impact"; lit "Documentation"; lit "Suggestions"].
Definition after_impact : list str := [lit "Documentation"; lit "Suggestions"].
Definition after_documentation : list str := [lit "Suggestions"].
Definition after_keyChanges : list str :=
  [lit "Impact"; lit "Documentation"; lit "Suggestions"].

(** [extractSections], read without regular expressions. *)
Definition sections_reading (response : str) : Sections :=
  mkSections
    (option_map trim (section_reading (lit "Summary") after_summary response))
    (option_map trim (section_reading (lit "Purpose") after_purpose response))
    (option_map trim (section_reading (lit "Impact") after_impact response))
    (option_map trim
       (section_reading (lit "Documentation") after_documentation response))
    (option_map extractListItems
       (section_reading (lit "Key Changes") after_keyChanges response))
    (option_map extractListItems (rest_reading (lit "Suggestions") response)).

(** A text that starts with a character other than a separator. *)
Definition starts_with_text (text : str) : bool :=
  match text with
  | c :: _ => negb (is_sep c)
  | [] => false
  end.

(** Two spellings of one word, letter case aside. *)
Definition same_word (a b : str) : bool :=
  Glob.str_eqb (map to_upper a) (map to_upper b).

(** A line of a list: a mark made of [-], [*], [+] and digits, an optional
    dot, a gap of white space, and the text of the item. *)
Record Bullet : Type := mkBullet {
  mark : str;
  dotted : bool;
  gap : str;
  item : str
}.

Definition bullet_line (b : Bullet) : str :=
  mark b ++ (if dotted b then lit "." else []) ++ gap b ++ item b.

Definition is_mark_char (c : char) : bool :=
  ch_is c "-" || ch_is c "*" || ch_is c "+" || is_digit c.

Definition is_gap_char (c : char) : bool :=
  is_space c && negb (c =? newline)%N.

(** The item starts with a character that is neither part of a mark, nor a
    dot, nor white space; it does not end in white space and holds no line
    feed. *)
Definition is_item_text (text : str) : bool :=
  match text with
  | c :: _ => negb (is_mark_char c) && negb (ch_is c ".") && negb (is_space c)
  | [] => false
  end &&
  match rev text with
  | c :: _ => negb (is_space c)
  | [] => false
  end &&
  one_line text.

Definition is_bullet (b : Bullet) : bool :=
  nonempty (mark b) && forallb is_mark_char (mark b) &&
  forallb is_gap_char (gap b) && is_item_text (item b).

End Sectioning.

(** ** config.ts: the configuration file *)

Module ConfigManager.
Import JsString.

(** JSON values, as [readJson] gives them and [writeJson] takes them.
    Numbers are written by their decimal text. *)
#[local] Set Warnings "-register-all".

Inductive json : Type :=
| JNull
| JBool (b : bool)
| JNum (text : str)
| JStr (s : str)
| JArr (items : list json)
| JObj (fields : list (str * json)).

(** A JavaScript object that holds JSON values, as the map from its own
    keys to their values (the order of the keys plays no role here). *)
Definition object : Type := str -> option json.

Definition empty : object := fun _ => None.

(** [{ ...a, ...b }]: the keys of [b] override those of [a]. *)
Definition spread (a b : object) : object :=
  fun k => match b k with
           | Some v => Some v
           | None => a k
           end.

(** An object literal, given by its fields in the order of the source. *)
Fixpoint literal (fields : list (str * json)) : object :=
  match fields with
  | [] => empty
  | (k, v) :: more =>
      fun key => if Glob.str_eqb key k then Some v else literal more key
  end.

Definition strings (l : list string) : json := JArr (map (fun s => JStr (lit s)) l).

Definition DEFAULT_CONFIG : object :=
  literal
    [(lit "aiProvider", JStr (lit "openai"));
     (lit "model", JStr (lit "gpt-4"));
     (lit "maxTokens", JNum (lit "2000"));
     (lit "temperature", JNum (lit "0.3"));
     (lit "autoCommitHook", JBool false);
     (lit "includePatterns",
      strings ["**/*.js"; "**/*.ts"; "**/*.tsx"; "**/*.jsx"; "**/*.py";
               "**/*.java"; "**/*.cpp"; "**/*.c"; "**/*.h"]%string);
     (lit "excludePatterns",
      strings ["node_modules/**"; "dist/**"; "build/**"; ".git/**";
               "**/*.test.*"; "**/*.spec.*"]%string);
     (lit "outputFormat", JStr (lit "both"));
     (lit "updateReadme", JBool true);
     (lit "readmePath", JStr (lit "README.md"));
     (lit "languages",
      strings ["javascript"; "typescript"; "python"; "java"; "cpp"; "c"]%string);
     (lit "customPrompts",
      JObj
        [(lit "codeAnalysis",
          JStr (lit ("Analyze this code change and provide:" ++ nl ++
                     "1. A clear summary of what the code does" ++ nl ++
                     "2. The purpose and business value" ++ nl ++
                     "3. Key technical changes made" ++ nl ++
                     "4. Potential impact on the system" ++ nl ++
                     "5. Any concerns or suggestions for improvement" ++ nl ++
                     nl ++
                     "Be concise but comprehensive. Focus on helping other developers understand the change quickly.")%string));
         (lit "documentation",
          JStr (lit ("Generate clear, helpful documentation for this code that includes:" ++ nl ++
                     "1. What this code does (functionality)" ++ nl ++
                     "2. Why it exists (purpose/business need)" ++ nl ++
                     "3. How to use it (if applicable)" ++ nl ++
                     "4. Important implementation details" ++ nl ++
                     "5. Any dependencies or prerequisites" ++ nl ++
                     nl ++
                     "Write for developers who haven't seen this code before.")%string));
         (lit "summary",
          JStr (lit "Provide a brief, one-paragraph summary of this code change that would be useful in a commit message or pull request description."))])].

(** The configuration files of the projects: for each path, the object the
    file holds, when the file exists and holds one. *)
Definition disk : Type := str -> option object.

Definition writeJson (d : disk) (path : str) (o : object) : disk :=
  fun p => if Glob.str_eqb p path then Some o else d p.

(** A [ConfigManager]: the path of its file and the configuration it
    holds. *)
Record manager : Type := mkManager {
  configPath : str;
  config : object
}.

(** [path.join(projectRoot, ".aicontext.json")] for a project root without
    a slash at its end. *)
Definition config_path (projectRoot : str) : str :=
  projectRoot ++ lit "/.aicontext.json".

(** [new ConfigManager(projectRoot)]: the manager starts from a copy of
    the defaults; the file is not read. *)
Definition new_ConfigManager (projectRoot : str) : manager :=
  mkManager (config_path projectRoot) (spread empty DEFAULT_CONFIG).

(** [load()]: the defaults, overridden by the object of the file when
    there is one. *)
Definition load (d : disk) (m : manager) : manager * object :=
  match d (configPath m) with
  | Some userConfig =>
      let c := spread DEFAULT_CONFIG userConfig in
      (mkManager (configPath m) c, c)
  | None => (m, config m)
  end.

(** [save(config)]: the configuration held, overridden by the argument, is
    kept and written to the file. *)
Definition save (d : disk) (m : manager) (updates : object) : disk * manager :=
  let c := spread (config m) updates in
  (writeJson d (configPath m) c, mkManager (configPath m) c).

End ConfigManager.

(** ** cli.ts: the analysis section of the README *)

Module Cli.
Import JsString.

(** [s.indexOf(needle, from)] for a non-empty [needle] and [0 <= from]:
    the first index from [from] on at which [needle] starts, [None] for
    -1.  [s] is the text from index [i] on. *)
Fixpoint indexOf_from (needle s : str) (i : nat) : option nat :=
  if startsWith needle s then Some i
  else match s with
       | [] => None
       | _ :: tl => indexOf_from needle tl (S i)
       end.

Definition indexOf (needle s : str) (from : nat) : option nat :=
  indexOf_from needle (skipn from s) from.

Definition sectionMarker : str := lit "<!-- AI Code Context Analysis -->".

(** [`${sectionMarker}\n\n${report}\n\n${sectionMarker}`] *)
Definition section_block (report : str) : str :=
  sectionMarker ++ [newline; newline] ++ report ++ [newline; newline] ++
  sectionMarker.

(** [`\n\n${sectionMarker}\n\n${report}\n\n${sectionMarker}`], appended when
    the README holds no complete section yet. *)
Definition appended (content report : str) : str :=
  content ++ [newline; newline] ++ section_block report.

(** [newContent] of [updateReadme]. *)
Definition newContent (content report : str) : str :=
  match indexOf sectionMarker content 0 with
  | Some startIndex =>
      match indexOf sectionMarker content (startIndex + 1) with
      | Some endIndex =>
          substring 0 startIndex content ++ section_block report ++
          substring_from (endIndex + length sectionMarker) content
      | None => appended content report
      end
  | None => appended content report
  end.

(** The files of the working directory: the text of each file that
    exists. *)
Definition files : Type := str -> option str.

Definition writeFile (fs : files) (path content : str) : files :=
  fun p => if Glob.str_eqb p path then Some content else fs p.

(** [config.readmePath || 'README.md'] *)
Definition readme_of (readmePath : option str) : str :=
  Analyzer.or_str readmePath (lit "README.md").

(** [updateReadme(report, config)]: the files after the call. *)
Definition updateReadme (fs : files) (report : str) (readmePath : option str)
  : files :=
  let path := readme_of readmePath in
  match fs path with
  | None => fs
  | Some content => writeFile fs path (newContent content report)
  end.

(** [needle] occurs somewhere in [s]: [s.includes(needle)]. *)
Fixpoint occurs (needle s : str) : bool :=
  startsWith needle s ||
  match s with
  | [] => false
  | _ :: tl => occurs needle tl
  end.

(** [s.split(sep)] for a non-empty [sep]: the text is cut at every
    occurrence of [sep], found left to right without overlap.  [skip]
    counts the characters of the separator still to be passed. *)
Fixpoint split_walk (sep s : str) (skip : nat) : list str :=
  match s with
  | [] => [[]]
  | c :: tl =>
      match skip with
      | S k => split_walk sep tl k
      | 0 =>
          if startsWith sep s then [] :: split_walk sep tl (length sep - 1)
          else match split_walk sep tl 0 with
               | l :: ls => (c :: l) :: ls
               | [] => [[c]]
               end
      end
  end.

Definition split_str (sep s : str) : list str := split_walk sep s 0.

(** The commit range that [analyzeCode] hands on for [--commit <range>],
    and that [getDiffBetweenCommits] passes to git as
    [`${fromCommit}..${toCommit}`]: the first two parts of the argument
    when it holds [..], the commit and its parent otherwise.  A missing
    second part would be the default [HEAD]. *)
Definition commit_parts (commit : str) : list str :=
  if occurs (lit "..") commit then split_str (lit "..") commit
  else [commit ++ lit "~1"; commit].

Definition diff_range (commit : str) : str :=
  match commit_parts commit with
  | from :: to :: _ => from ++ lit ".." ++ to
  | [from] => from ++ lit ".." ++ lit "HEAD"
  | [] => lit "undefined..HEAD"
  end.

(** [const [key, value] = options.set.split('='); if (!key || !value) ...]:
    the pair that [config --set] works with, when it accepts its
    argument. *)
Definition set_pair (arg : str) : option (str * str) :=
  match split_on (chr "=") arg with
  | key :: value :: _ =>
      if Analyzer.nonempty key && Analyzer.nonempty value then Some (key, value)
      else None
  | _ => None
  end.

(** [updates[key] = value] on a fresh object: assigning a string to
    [__proto__] leaves the object without own keys. *)
Definition single (key value : str) : ConfigManager.object :=
  if Glob.str_eqb key (lit "__proto__") then ConfigManager.empty
  else ConfigManager.literal [(key, ConfigManager.JStr value)].

(** [manageConfig({ set: arg })], run in the project [projectRoot]: the
    configuration files after the command. *)
Definition manageConfig_set (d : ConfigManager.disk) (projectRoot arg : str)
  : ConfigManager.disk :=
  let configManager := ConfigManager.new_ConfigManager projectRoot in
  match set_pair arg with
  | Some (key, value) =>
      fst (ConfigManager.save d configManager (single key value))
  | None => d
  end.

End Cli.

(** ** analyzer.ts: the language of a file *)

Module Language.
Import JsString.

Definition CHAR_DOT : char := chr ".".
Definition CHAR_FORWARD_SLASH : char := chr "/".

(** [preDotState] of [path.extname]: 0, 1 or -1. *)
Inductive pre_dot : Type :=
| nothing_seen   (* 0: no character in front of the dot yet *)
| dots_seen      (* 1: a dot was the last character seen in front of it *)
| char_seen.     (* -1: another character was the last one seen *)

(** The variables of the loop of [path.extname]; [None] stands for -1. *)
Record scan_state : Type := mkScan {
  startDot : option nat;
  startPart : nat;
  endIdx : option nat;
  matchedSlash : bool;
  preDotState : pre_dot
}.

(** The loop of [path.extname] (POSIX), from the last character to the
    first: [rpath] holds the characters at the indices [i], [i - 1], ...,
    0, in this order.  Reaching a separator after the last path component
    ends the loop. *)
Fixpoint scan_back (rpath : str) (i : nat) (st : scan_state) : scan_state :=
  match rpath with
  | [] => st
  | code :: more =>
      if (code =? CHAR_FORWARD_SLASH)%N then
        if negb (matchedSlash st)
        then mkScan (startDot st) (i + 1) (endIdx st) (matchedSlash st)
               (preDotState st)
        else scan_back more (i - 1) st
      else
        let st1 :=
          match endIdx st with
          | None => mkScan (startDot st) (startPart st) (Some (i + 1)) false
                      (preDotState st)
          | Some _ => st
          end in
        let st2 :=
          if (code =? CHAR_DOT)%N then
            match startDot st1 with
            | None => mkScan (Some i) (startPart st1) (endIdx st1)
                        (matchedSlash st1) (preDotState st1)
            | Some _ => mkScan (startDot st1) (startPart st1) (endIdx st1)
                          (matchedSlash st1) dots_seen
            end
          else
            match startDot st1 with
            | Some _ => mkScan (startDot st1) (startPart st1) (endIdx st1)
                          (matchedSlash st1) char_seen
            | None => st1
            end in
        scan_back more (i - 1) st2
  end.

(** [path.extname(path)] of Node.js, POSIX flavour: the text from the last
    dot of the last path component on, empty when that component holds no
    dot, starts with its only dot, or is [..]. *)
Definition extname (path : str) : str :=
  let st := scan_back (rev path) (length path - 1)
              (mkScan None 0 None true nothing_seen) in
  match startDot st, endIdx st with
  | Some sd, Some e =>
      match preDotState st with
      | nothing_seen => []
      | dots_seen =>
          if (sd =? e - 1) && (sd =? startPart st + 1) then []
          else substring sd e path
      | char_seen => substring sd e path
      end
  | _, _ => []
  end.

(** [toLowerCase] on one code unit, as far as a comparison with ASCII text
    can tell: the ASCII capital letters, and the Kelvin sign U+212A, whose
    lower case is [k]; the lower case of every other character holds a
    character outside ASCII. *)
Definition lower_unit (c : char) : char :=
  if (c =? 8490)%N then chr "k" else to_lower c.

Definition toLowerCase (s : str) : str := map lower_unit s.

Definition languageMap : list (str * str) :=
  [(lit ".js", lit "javascript"); (lit ".jsx", lit "javascript");
   (lit ".ts", lit "typescript"); (lit ".tsx", lit "typescript");
   (lit ".py", lit "python"); (lit ".java", lit "java");
   (lit ".cpp", lit "cpp"); (lit ".cxx", lit "cpp"); (lit ".cc", lit "cpp");
   (lit ".c", lit "c"); (lit ".h", lit "c"); (lit ".hpp", lit "cpp");
   (lit ".cs", lit "csharp"); (lit ".go", lit "go"); (lit ".rs", lit "rust");
   (lit ".php", lit "php"); (lit ".rb", lit "ruby"); (lit ".swift", lit "swift");
   (lit ".kt", lit "kotlin"); (lit ".scala", lit "scala")].

(** [map[key]] for a key that no object inherits: the value of the own
    key, if there is one. *)
Fixpoint lookup (key : str) (map : list (str * str)) : option str :=
  match map with
  | [] => None
  | (k, v) :: more => if Glob.str_eqb key k then Some v else lookup key more
  end.

(** [languageMap[ext] || 'unknown'] *)
Definition language_of (ext : str) : str :=
  Analyzer.or_str (lookup ext languageMap) (lit "unknown").

Definition detectLanguage (filePath : str) : str :=
  let ext := toLowerCase (extname filePath) in
  language_of ext.

(** *** Vocabulary *)

(** A piece of a file name: no dot and no separator in it. *)
Definition is_name_char (c : char) : bool :=
  negb (c =? CHAR_DOT)%N && negb (c =? CHAR_FORWARD_SLASH)%N.

Definition plain_name (s : str) : bool :=
  Analyzer.nonempty s && forallb is_name_char s.

(** The text does not end in a separator (and is not empty): a file name
    goes on behind it. *)
Definition ends_in_name (s : str) : bool :=
  match rev s with
  | c :: _ => negb (c =? CHAR_FORWARD_SLASH)%N
  | [] => false
  end.

(** The text is a directory prefix: empty, or ending in a separator. *)
Definition is_dir_prefix (s : str) : bool :=
  match rev s with
  | c :: _ => (c =? CHAR_FORWARD_SLASH)%N
  | [] => true
  end.

End Language.

(** ** analyzer.ts: from the diffs to the analysis records *)

From Stdlib Require DecimalString.

Module Pipeline.
Import JsString GitUtils Analyzer Language.

(** [`${n}`] for a natural number up to 2^53: its decimal digits.  (Beyond,
    the template literal writes the shortest digits that give the number
    back, followed by zeros or by an exponent; no statement below depends
    on the digits of such a number.) *)
Definition decimal (n : N) : str :=
  lit (DecimalString.NilZero.string_of_uint (N.to_uint n)).

(** [`${v}`] for a line number. *)
Definition show_number (v : jsnum) : str :=
  match v with
  | Num n => decimal n
  | NaN => lit "NaN"
  | Infinity => lit "Infinity"
  end.

Definition show_type (t : change_type) : str :=
  match t with
  | addition => lit "addition"
  | deletion => lit "deletion"
  end.

Record GitDiffResult : Type := mkGitDiffResult {
  d_file : str;
  d_additions : N;
  d_deletions : N;
  d_changes : list GitChange;
  d_content : option str
}.

Record ProjectContext : Type := mkProjectContext {
  p_name : str;
  p_type : str;
  p_framework : option str;
  p_languages : list str;
  p_mainPurpose : str
}.

(** The lines that [formatDiffForAnalysis] writes for one change. *)
Definition format_change (change : GitChange) : str :=
  show_type (type change) ++ lit " at line " ++
  show_number (lineNumber change) ++ lit ": " ++ content change ++ [newline] ++
  match context change with
  | [] => []
  | _ :: _ => lit "Context: " ++ join (lit " ") (context change) ++ [newline]
  end.

Definition formatDiffForAnalysis (diff : GitDiffResult) : str :=
  lit "File: " ++ d_file diff ++ [newline] ++
  lit "Changes: +" ++ decimal (d_additions diff) ++ lit " -" ++
  decimal (d_deletions diff) ++ [newline; newline] ++
  match d_content diff with
  | Some (c :: text) =>
      lit "Full file content:" ++ [newline] ++ (c :: text) ++ [newline; newline]
  | _ => []
  end ++
  lit "Specific changes:" ++ [newline] ++
  flat_map format_change (d_changes diff).

Definition buildDiffAnalysisPrompt (projectContext : ProjectContext)
    (language : str) : str :=
  lit "You are analyzing code changes in a " ++ p_type projectContext ++
  lit " project using " ++ language ++ lit "." ++ [newline; newline] ++
  lit "Project Context:" ++ [newline] ++
  lit "- Name: " ++ p_name projectContext ++ [newline] ++
  lit "- Type: " ++ p_type projectContext ++ [newline] ++
  lit "- Framework: " ++ or_str (p_framework projectContext) (lit "Unknown") ++
  [newline] ++
  lit "- Main Purpose: " ++ p_mainPurpose projectContext ++ [newline; newline] ++
  lit "Analyze the following code changes and provide:" ++ [newline] ++
  lit "1. Summary: A brief overview of what changed" ++ [newline] ++
  lit "2. Purpose: Why this change was likely made" ++ [newline] ++
  lit "3. Key Changes: List the most important modifications" ++ [newline] ++
  lit "4. Impact: How this affects the system/application" ++ [newline] ++
  lit "5. Documentation: Clear explanation for other developers" ++ [newline] ++
  lit "6. Suggestions: Any improvements or concerns" ++ [newline; newline] ++
  lit "Focus on helping developers understand the change quickly and effectively.".

(** A request to the AI provider: the prompt and the content. *)
Definition request : Type := (str * str)%type.

(** [aiProvider.analyzeCode(prompt, content)]: the content of the response,
    or an exception; the answer may depend on the requests made before. *)
Definition provider : Type := list request -> str -> str -> outcome str.

(** The loop of [analyzeDiffs]: the requests made so far and the records
    pushed so far go in; the requests made by the end of the call, and its
    result, come out.  For a pattern outside the model of regular
    expressions the result is [OutsideModel], whatever the code goes on to
    do: the statements about the loop assume or conclude that this does not
    occur. *)
Fixpoint analyze_loop (analyzeCode : provider) (config : Config)
    (projectContext : ProjectContext) (diffs : list GitDiffResult)
    (sent : list request) (results : list AnalysisResult)
  : list request * outcome (list AnalysisResult) :=
  match diffs with
  | [] => (sent, Returns results)
  | diff :: more =>
      match shouldAnalyzeFile config (d_file diff) with
      | Returns true =>
          let language := detectLanguage (d_file diff) in
          let diffContent := formatDiffForAnalysis diff in
          let prompt := buildDiffAnalysisPrompt projectContext language in
          match analyzeCode sent prompt diffContent with
          | Returns response =>
              match parseAnalysisResponse (d_file diff) language response with
              | Returns result =>
                  analyze_loop analyzeCode config projectContext more
                    (sent ++ [(prompt, diffContent)]) (results ++ [result])
              | Throws => (sent ++ [(prompt, diffContent)], Throws)
              | OutsideModel => (sent ++ [(prompt, diffContent)], OutsideModel)
              end
          | Throws => (sent ++ [(prompt, diffContent)], Throws)
          | OutsideModel => (sent ++ [(prompt, diffContent)], OutsideModel)
          end
      | Returns false =>
          analyze_loop analyzeCode config projectContext more sent results
      | Throws => (sent, Throws)
      | OutsideModel => (sent, OutsideModel)
      end
  end.

(** [analyzeDiffs(diffs)], given the project context that
    [getProjectContext] returned. *)
Definition analyzeDiffs (analyzeCode : provider) (config : Config)
    (projectContext : ProjectContext) (diffs : list GitDiffResult)
  : list request * outcome (list AnalysisResult) :=
  analyze_loop analyzeCode config projectContext diffs [] [].

(** *** Vocabulary *)

(** The filter accepts the file of the diff. *)
Definition accepted (config : Config) (diff : GitDiffResult) : bool :=
  match shouldAnalyzeFile config (d_file diff) with
  | Returns true => true
  | _ => false
  end.

(** The filter, run on the file of the diff, lies within the model of
    regular expressions: it returns or throws. *)
Definition modelled (config : Config) (diff : GitDiffResult) : Prop :=
  shouldAnalyzeFile config (d_file diff) <> OutsideModel.

(** The request that [analyzeDiffs] makes for a diff. *)
Definition request_for (projectContext : ProjectContext) (diff : GitDiffResult)
  : request :=
  (buildDiffAnalysisPrompt projectContext (detectLanguage (d_file diff)),
   formatDiffForAnalysis diff).

(** *** A small run *)

Definition sample_context : ProjectContext :=
  mkProjectContext (lit "demo") (lit "Node.js Server") (Some (lit "Express"))
    [lit "typescript"] (lit "Software development project").

Definition sample_diff (path : string) : GitDiffResult :=
  mkGitDiffResult (lit path) 1 0
    [mkGitChange addition (Num 1) (lit "let x = 1;") []] None.

Definition sample_diffs : list GitDiffResult :=
  [sample_diff "src/cli.ts"; sample_diff "README.md"; sample_diff "src/a.py"].

(** A provider that always answers, and one that fails from its second
    request on. *)
Definition steady_provider : provider :=
  fun _ _ _ => Returns (lit "Summary: one line added").

Definition failing_provider : provider :=
  fun sent _ _ =>
    match sent with
    | [] => Returns (lit "Summary: one line added")
    | _ :: _ => Throws
    end.

Definition returned (run : list request * outcome (list AnalysisResult))
  : list AnalysisResult :=
  match snd run with
  | Returns results => results
  | _ => []
  end.

End Pipeline.

(** ** analyzer.ts: responses in the numbered form that the prompt asks for *)

Module ResponseFormat.
Import JsString Regex GitUtils.

(** The characters of a numbering such as [1. ] in front of a heading. *)
Definition is_lead_char (c : char) : bool :=
  is_digit c || ch_is c "." || ch_is c " ".

(** A line that starts with a digit, such as [2. Purpose: ...]. *)
Definition numbered_line (l : str) : bool :=
  one_line l &&
  match l with
  | c :: _ => is_digit c
  | [] => false
  end.

End ResponseFormat.

Unset Implicit Arguments.

(** * Properties of the regular-expression model *)

Module RegexFacts.
Import JsString Regex.

Lemma ahead_refl (x : mstate) : ahead x x.
Proof. split; lia. Qed.

Lemma ahead_trans (x y z : mstate) : ahead x y -> ahead y z -> ahead x z.
Proof. unfold ahead. intros [H1 H2] [H3 H4]. split; lia. Qed.

Lemma char_matcher_local (ok : char -> bool) : local (char_matcher ok).
Proof.
  intros x c1 c2 H. unfold char_matcher.
  destruct (rest x) as [|ch tl] eqn:E; [reflexivity|].
  destruct (ok ch); [|reflexivity].
  apply H. unfold ahead. simpl. rewrite E. simpl. split; lia.
Qed.

(** The repetition respects the continuation as long as its body does. *)
Lemma repeat_matcher_local (m : matcher) (gs : list nat) :
  local m ->
  forall fuel min max greedy, local (fun x c => repeat_matcher m gs fuel min max greedy x c).
Proof.
  intros Hm fuel. induction fuel as [|fuel IH]; intros min max greedy x c1 c2 H.
  - simpl. destruct max as [[|k]|]; try reflexivity. apply H, ahead_refl.
  - simpl.
    assert (Hx : c1 x = c2 x) by apply H, ahead_refl.
    assert (Hd : m (cap_clear gs x)
              (fun y => if (min =? 0) && (pos y =? pos x) then None
                        else repeat_matcher m gs fuel (Nat.pred min)
                               (option_map Nat.pred max) greedy y c1)
            = m (cap_clear gs x)
              (fun y => if (min =? 0) && (pos y =? pos x) then None
                        else repeat_matcher m gs fuel (Nat.pred min)
                               (option_map Nat.pred max) greedy y c2)).
    { apply Hm. intros y Hy.
      destruct ((min =? 0) && (pos y =? pos x)); [reflexivity|].
      apply (IH (Nat.pred min) (option_map Nat.pred max) greedy y c1 c2).
      intros z Hz. apply H. apply ahead_trans with y; assumption. }
    destruct max as [[|k]|]; try assumption;
      rewrite Hd, Hx; reflexivity.
Qed.

Lemma rmatch_local (ic : bool) (r : regex) : local (rmatch ic r).
Proof.
  induction r as [| a | | neg items | r1 IH1 r2 IH2 | r1 IH1 r2 IH2
                 | min max greedy r1 IH1 | i r1 IH1 | b r1 IH1 | |];
    simpl; try apply char_matcher_local.
  - intros x c1 c2 H. apply H, ahead_refl.
  - intros x c1 c2 H. apply IH1. intros y Hy. apply IH2.
    intros z Hz. apply H. apply ahead_trans with y; assumption.
  - intros x c1 c2 H. rewrite (IH1 x c1 c2 H), (IH2 x c1 c2 H). reflexivity.
  - intros x c1 c2 H.
    exact (@repeat_matcher_local (rmatch ic r1) (groups_in r1) IH1 _ min max greedy x c1 c2 H).
  - intros x c1 c2 H. apply IH1. intros y Hy. apply H. exact Hy.
  - intros x c1 c2 H. destruct b.
    + destruct (rmatch ic r1 x (fun y => Some y)); [|reflexivity].
      apply H. split; simpl; lia.
    + destruct (rmatch ic r1 x (fun y => Some y)); [reflexivity|].
      apply H, ahead_refl.
  - intros x c1 c2 H. destruct (pos x =? 0); [apply H, ahead_refl|reflexivity].
  - intros x c1 c2 H. destruct (rest x); [apply H, ahead_refl|reflexivity].
Qed.

(** The fuel of a repetition is never used up: from
    [min + length (rest x) + 1] on, more fuel changes nothing. *)
Lemma repeat_matcher_fuel (m : matcher) (gs : list nat) :
  local m ->
  forall fuel1 fuel2 min max greedy x c,
    min + length (rest x) + 1 <= fuel1 ->
    min + length (rest x) + 1 <= fuel2 ->
    repeat_matcher m gs fuel1 min max greedy x c
    = repeat_matcher m gs fuel2 min max greedy x c.
Proof.
  intros Hm fuel1. induction fuel1 as [|fuel1 IH];
    intros fuel2 min max greedy x c H1 H2; [lia|].
  destruct fuel2 as [|fuel2]; [lia|]. simpl.
  assert (Hd : m (cap_clear gs x)
            (fun y => if (min =? 0) && (pos y =? pos x) then None
                      else repeat_matcher m gs fuel1 (Nat.pred min)
                             (option_map Nat.pred max) greedy y c)
          = m (cap_clear gs x)
            (fun y => if (min =? 0) && (pos y =? pos x) then None
                      else repeat_matcher m gs fuel2 (Nat.pred min)
                             (option_map Nat.pred max) greedy y c)).
  { apply Hm. intros y Hy.
    destruct (min =? 0) eqn:Emin; simpl.
    - destruct (pos y =? pos x) eqn:Epos; [reflexivity|].
      apply Nat.eqb_eq in Emin. apply Nat.eqb_neq in Epos.
      destruct Hy as [Hy1 Hy2]. simpl in Hy1, Hy2.
      apply IH; simpl; lia.
    - apply Nat.eqb_neq in Emin. destruct Hy as [Hy1 Hy2]. simpl in Hy1, Hy2.
      apply IH; simpl; lia. }
  destruct max as [[|k]|]; try reflexivity; rewrite Hd; reflexivity.
Qed.

Lemma rmatch_quant_fuel (ic : bool) (min : nat) (max : option nat)
    (greedy : bool) (r : regex) (x : mstate) (c : cont) (fuel : nat) :
  min + length (rest x) + 1 <= fuel ->
  rmatch ic (RQuant min max greedy r) x c
  = repeat_matcher (rmatch ic r) (groups_in r) fuel min max greedy x c.
Proof.
  intro H. simpl. apply repeat_matcher_fuel; [apply rmatch_local|lia|exact H].
Qed.

(** *** Captures *)

Lemma mem_app (n : nat) (a b : list nat) : mem n (a ++ b) = mem n a || mem n b.
Proof.
  induction a as [|k a IH]; simpl; [reflexivity|].
  rewrite IH. apply orb_assoc.
Qed.

Lemma cap_get_clear (n : nat) (gs : list nat) (x : mstate) :
  mem n gs = false ->
  cap_get n (caps (cap_clear gs x)) = cap_get n (caps x).
Proof.
  intro H. unfold cap_clear. simpl.
  induction (caps x) as [|[k v] cs IH]; simpl; [reflexivity|].
  destruct (mem k gs) eqn:Ek; simpl.
  - destruct (k =? n) eqn:E; [|exact IH].
    apply Nat.eqb_eq in E. subst k. congruence.
  - rewrite IH. reflexivity.
Qed.

Lemma through_refl (r : regex) (x : mstate) :
  (forall n, always_sets n r = false) -> through r x x.
Proof.
  intro H. split; [|reflexivity]. intros n Hn. rewrite H in Hn. discriminate.
Qed.

Lemma char_matcher_through (ok : char -> bool) (x : mstate) (c : cont) (z : mstate) :
  char_matcher ok x c = Some z ->
  exists y, c y = Some z /\ caps y = caps x.
Proof.
  unfold char_matcher. destruct (rest x) as [|ch tl]; [discriminate|].
  destruct (ok ch); [|discriminate].
  intro H. eexists. split; [exact H|reflexivity].
Qed.

(** A repetition leaves the groups outside its body alone. *)
Lemma repeat_matcher_through (m : matcher) (gs : list nat) :
  (forall x c z, m x c = Some z ->
     exists y, c y = Some z /\
       forall n, mem n gs = false -> cap_get n (caps y) = cap_get n (caps x)) ->
  forall fuel min max greedy x c z,
    repeat_matcher m gs fuel min max greedy x c = Some z ->
    exists y, c y = Some z /\
      forall n, mem n gs = false -> cap_get n (caps y) = cap_get n (caps x).
Proof.
  intros Hm fuel. induction fuel as [|fuel IH]; intros min max greedy x c z H.
  - simpl in H. destruct max as [[|k]|]; try discriminate.
    exists x. split; [exact H|reflexivity].
  - simpl in H.
    assert (Hstop : c x = Some z ->
              exists y, c y = Some z /\
                forall n, mem n gs = false -> cap_get n (caps y) = cap_get n (caps x)).
    { intro Hc. exists x. split; [exact Hc|reflexivity]. }
    assert (Hgo : m (cap_clear gs x)
              (fun y => if (min =? 0) && (pos y =? pos x) then None
                        else repeat_matcher m gs fuel (Nat.pred min)
                               (option_map Nat.pred max) greedy y c) = Some z ->
              exists y, c y = Some z /\
                forall n, mem n gs = false -> cap_get n (caps y) = cap_get n (caps x)).
    { intro Hd. apply Hm in Hd. destruct Hd as [y [Hy Hcap]].
      destruct ((min =? 0) && (pos y =? pos x)); [discriminate|].
      apply IH in Hy. destruct Hy as [y' [Hy' Hcap']].
      exists y'. split; [exact Hy'|].
      intros n Hn. rewrite (Hcap' n Hn), (Hcap n Hn).
      apply cap_get_clear. exact Hn. }
    destruct max as [[|k]|].
    + apply Hstop. exact H.
    + destruct (negb (min =? 0)); [apply Hgo; exact H|].
      destruct greedy; unfold orelse in H.
      * destruct (m (cap_clear gs x) _) eqn:E; [apply Hgo; congruence|apply Hstop; exact H].
      * destruct (c x) eqn:E; [apply Hstop; congruence|apply Hgo; exact H].
    + destruct (negb (min =? 0)); [apply Hgo; exact H|].
      destruct greedy; unfold orelse in H.
      * destruct (m (cap_clear gs x) _) eqn:E; [apply Hgo; congruence|apply Hstop; exact H].
      * destruct (c x) eqn:E; [apply Hstop; congruence|apply Hgo; exact H].
Qed.

(** Every result of a matcher is a result of its continuation, called on a
    state whose captures went [through] the expression. *)
Lemma rmatch_through (ic : bool) (r : regex) :
  forall x c z, rmatch ic r x c = Some z ->
    exists y, c y = Some z /\ through r x y.
Proof.
  induction r as [| a | | neg items | r1 IH1 r2 IH2 | r1 IH1 r2 IH2
                 | min max greedy r1 IH1 | i r1 IH1 | b r1 IH1 | |];
    intros x c z H; simpl in H.
  - exists x. split; [exact H|]. apply through_refl. reflexivity.
  - apply char_matcher_through in H. destruct H as [y [Hy Hc]].
    exists y. split; [exact Hy|]. split; [discriminate|]. intros; rewrite Hc; reflexivity.
  - apply char_matcher_through in H. destruct H as [y [Hy Hc]].
    exists y. split; [exact Hy|]. split; [discriminate|]. intros; rewrite Hc; reflexivity.
  - apply char_matcher_through in H. destruct H as [y [Hy Hc]].
    exists y. split; [exact Hy|]. split; [discriminate|]. intros; rewrite Hc; reflexivity.
  - apply IH1 in H. destruct H as [y1 [H [S1 P1]]].
    apply IH2 in H. destruct H as [y2 [H [S2 P2]]].
    exists y2. split; [exact H|]. split.
    + intros n Hn. simpl in Hn. apply orb_true_iff in Hn. destruct Hn as [Hn|Hn].
      * apply andb_true_iff in Hn. destruct Hn as [Hn1 Hn2].
        apply negb_true_iff in Hn2. rewrite (P2 n Hn2). apply S1. exact Hn1.
      * apply S2. exact Hn.
    + intros n Hn. simpl in Hn. rewrite mem_app in Hn.
      apply orb_false_iff in Hn. destruct Hn as [Hn1 Hn2].
      rewrite (P2 n Hn2). apply P1. exact Hn1.
  - assert (Hside : forall n, mem n (groups_in (RAlt r1 r2)) = false ->
              mem n (groups_in r1) = false /\ mem n (groups_in r2) = false).
    { intros n Hn. simpl in Hn. rewrite mem_app in Hn.
      apply orb_false_iff in Hn. exact Hn. }
    unfold orelse in H. destruct (rmatch ic r1 x c) eqn:E.
    + inversion H; subst. apply IH1 in E. destruct E as [y [Hy [S1 P1]]].
      exists y. split; [exact Hy|]. split.
      * intros n Hn. simpl in Hn. apply andb_true_iff in Hn. apply S1, Hn.
      * intros n Hn. apply P1. apply Hside. exact Hn.
    + apply IH2 in H. destruct H as [y [Hy [S2 P2]]].
      exists y. split; [exact Hy|]. split.
      * intros n Hn. simpl in Hn. apply andb_true_iff in Hn. apply S2, Hn.
      * intros n Hn. apply P2. apply Hside. exact Hn.
  - apply repeat_matcher_through in H.
    + destruct H as [y [Hy P]]. exists y. split; [exact Hy|].
      split; [discriminate|exact P].
    + intros x' c' z' H'. apply IH1 in H'. destruct H' as [y [Hy [_ P]]].
      exists y. split; [exact Hy|exact P].
  - apply IH1 in H. destruct H as [y [Hy [S1 P1]]].
    exists (cap_set i (pos x, pos y) y). split; [exact Hy|]. split.
    + intros n Hn. simpl in Hn. simpl. destruct (i =? n); [discriminate|].
      apply S1. exact Hn.
    + intros n Hn. simpl in Hn. apply orb_false_iff in Hn. destruct Hn as [Hn1 Hn2].
      simpl. rewrite Hn1. apply P1. exact Hn2.
  - destruct b.
    + destruct (rmatch ic r1 x (fun y => Some y)) as [y1|] eqn:E; [|discriminate].
      apply IH1 in E. destruct E as [y [Hy [S1 P1]]]. inversion Hy; subst y1.
      eexists. split; [exact H|]. split; simpl; assumption.
    + destruct (rmatch ic r1 x (fun y => Some y)); [discriminate|].
      exists x. split; [exact H|]. apply through_refl. reflexivity.
  - destruct (pos x =? 0); [|discriminate].
    exists x. split; [exact H|]. apply through_refl. reflexivity.
  - destruct (rest x); [|discriminate].
    exists x. split; [exact H|]. apply through_refl. reflexivity.
Qed.

(** A group that [always_sets] is defined in the result of [exec]. *)
Lemma exec_from_group (ic : bool) (r : regex) (n : nat) :
  always_sets n r = true ->
  forall s i res, exec_from ic r s i = Some res ->
    exists v, cap_get n (m_caps res) = Some v.
Proof.
  intros Hn s. induction s as [|ch s IH]; intros i res H; simpl in H.
  - unfold match_at in H.
    destruct (rmatch ic r (MState [] i []) (fun y => Some y)) as [y|] eqn:E;
      [|discriminate].
    inversion H; subst res. simpl.
    apply rmatch_through in E. destruct E as [y' [Hy [S1 _]]].
    inversion Hy; subst y'.
    destruct (cap_get n (caps y)) eqn:G; [eauto|]. exfalso. exact (S1 n Hn G).
  - unfold match_at in H.
    destruct (rmatch ic r (MState (ch :: s) i []) (fun y => Some y)) as [y|] eqn:E.
    + inversion H; subst res. simpl.
      apply rmatch_through in E. destruct E as [y' [Hy [S1 _]]].
      inversion Hy; subst y'.
      destruct (cap_get n (caps y)) eqn:G; [eauto|]. exfalso. exact (S1 n Hn G).
    + apply IH in H. exact H.
Qed.

Lemma exec_group (ic : bool) (r : regex) (n : nat) (s : str) (res : rmatch_result) :
  always_sets n r = true ->
  exec ic r s = Some res ->
  exists text, group s res n = Some text.
Proof.
  intros Hn H. unfold exec in H.
  destruct (exec_from_group ic r n Hn s 0 res H) as [[i j] Hv].
  unfold group. rewrite Hv. eauto.
Qed.

(** *** Expressions that start with a word *)

Lemma starts_ci_app (w : str) (a : char) :
  forall s, starts_ci (w ++ [a]) s
            = starts_ci w s &&
              match skipn (length w) s with
              | b :: _ => (to_upper a =? to_upper b)%N
              | [] => false
              end.
Proof.
  induction w as [|x w IH]; intro s.
  - destruct s as [|b s]; [reflexivity|]. simpl. rewrite andb_true_r. reflexivity.
  - destruct s as [|b s]; [reflexivity|]. simpl. rewrite IH. apply andb_assoc.
Qed.

(** A word matches when the text starts with it, and hands over the state
    after it. *)
Lemma rmatch_word (r : regex) :
  forall w, word_of r = Some w ->
  forall x c,
    rmatch true r x c
    = if starts_ci w (rest x)
      then c (MState (skipn (length w) (rest x)) (pos x + length w) (caps x))
      else None.
Proof.
  induction r as [| a | | neg items | r1 IH1 r2 IH2 | r1 IH1 r2 IH2
                 | min max greedy r1 IH1 | i r1 IH1 | b r1 IH1 | |];
    intros w Hw x c; try discriminate.
  - inversion Hw; subst w. cbn [rmatch]. unfold char_matcher.
    destruct (rest x) as [|b tl]; [reflexivity|]. simpl. rewrite andb_true_r.
    replace (pos x + 1) with (S (pos x)) by lia. reflexivity.
  - destruct r2; try discriminate. simpl in Hw.
    destruct (word_of r1) as [w1|] eqn:E1; [|discriminate].
    inversion Hw; subst w. cbn [rmatch]. rewrite (IH1 w1 eq_refl).
    rewrite starts_ci_app. destruct (starts_ci w1 (rest x)); [|reflexivity].
    unfold char_matcher. cbn [rest pos caps andb].
    destruct (skipn (length w1) (rest x)) as [|b tl] eqn:Esk; [reflexivity|].
    destruct (to_upper c0 =? to_upper b)%N; [|reflexivity].
    rewrite length_app. cbn [length]. f_equal. f_equal.
    + replace (length w1 + 1) with (S (length w1)) by lia.
      clear -Esk. revert Esk. generalize (rest x). generalize (length w1).
      intro n. induction n as [|n IHn]; intros l Hl.
      * simpl in Hl. subst l. reflexivity.
      * destruct l as [|y l]; [discriminate|]. simpl in Hl. apply IHn in Hl.
        exact Hl.
    + lia.
Qed.

Lemma rmatch_lead_none (ic : bool) (r : regex) (x : mstate) :
  (forall c, rmatch ic (lead r) x c = None) ->
  forall c, rmatch ic r x c = None.
Proof.
  induction r as [| a | | neg items | r1 IH1 r2 IH2 | r1 IH1 r2 IH2
                 | min max greedy r1 IH1 | i r1 IH1 | b r1 IH1 | |];
    intros H c; try apply H.
  cbn [rmatch]. apply IH1. exact H.
Qed.

Lemma occurs_ci_starts (w s : str) :
  occurs_ci w s = false -> starts_ci w s = false.
Proof.
  destruct s; simpl; intro H; apply orb_false_iff in H; apply H.
Qed.

(** An expression that starts with one of two spellings of a word finds
    nothing in a text without the word. *)
Lemma exec_from_no_heading (re w1r w2r : regex) (w w2 : str) :
  lead re = RAlt w1r w2r ->
  word_of w1r = Some w -> word_of w2r = Some w2 ->
  (forall s, starts_ci w2 s = starts_ci w s) ->
  forall s i, occurs_ci w s = false -> exec_from true re s i = None.
Proof.
  intros Hlead H1 H2 Hsame s.
  assert (Hat : forall s i, starts_ci w s = false -> match_at true re s i = None).
  { intros s0 i Hs. unfold match_at. rewrite rmatch_lead_none; [reflexivity|].
    intro c. rewrite Hlead. cbn [rmatch].
    rewrite (rmatch_word w1r w H1), (rmatch_word w2r w2 H2). cbn [rest].
    rewrite Hsame, Hs. reflexivity. }
  induction s as [|b s IH]; intros i Hocc.
  - cbn [exec_from]. rewrite Hat; [reflexivity|]. apply occurs_ci_starts. exact Hocc.
  - cbn [exec_from]. rewrite Hat; [|apply occurs_ci_starts; exact Hocc].
    apply IH. simpl in Hocc. apply orb_false_iff in Hocc. apply Hocc.
Qed.

Lemma starts_ci_same (w1 w2 : str) :
  map to_upper w1 = map to_upper w2 ->
  forall s, starts_ci w1 s = starts_ci w2 s.
Proof.
  revert w2. induction w1 as [|a w1 IH]; intros [|b w2] H s; try discriminate.
  - reflexivity.
  - simpl in H. inversion H as [[Hab Hrest]].
    destruct s as [|x s]; [reflexivity|]. simpl. rewrite Hab, (IH w2 Hrest). reflexivity.
Qed.

(** *** Running the matcher on text of a known shape *)

Lemma cap_clear_nil (x : mstate) : cap_clear [] x = x.
Proof.
  destruct x as [r p cs]. unfold cap_clear. simpl. f_equal.
  induction cs as [|kv cs IH]; simpl; [reflexivity|]. rewrite IH. reflexivity.
Qed.

Lemma char_matcher_hit (ok : char -> bool) (a : char) (tl : str) (p : nat)
    (cs : list (nat * (nat * nat))) (c : cont) :
  ok a = true ->
  char_matcher ok (MState (a :: tl) p cs) c = c (MState tl (S p) cs).
Proof. intro H. unfold char_matcher. simpl. rewrite H. reflexivity. Qed.

Lemma char_matcher_miss (ok : char -> bool) (tl : str) (p : nat)
    (cs : list (nat * (nat * nat))) (c : cont) :
  match tl with [] => True | ch :: _ => ok ch = false end ->
  char_matcher ok (MState tl p cs) c = None.
Proof.
  intro H. unfold char_matcher. simpl. destruct tl as [|ch tl]; [reflexivity|].
  rewrite H. reflexivity.
Qed.

Lemma greedy_run (ok : char -> bool) (ds : str) :
  forallb ok ds = true ->
  forall tl, stops ok tl ->
  forall fuel min p cs c z,
    min <= length ds ->
    length ds + 1 <= fuel ->
    c (MState tl (p + length ds) cs) = Some z ->
    repeat_matcher (char_matcher ok) [] fuel min None true (MState (ds ++ tl) p cs) c
    = Some z.
Proof.
  induction ds as [|a ds IH]; intros Hok tl Hstop fuel min p cs c z Hmin Hfuel Hc.
  - simpl in Hmin. assert (min = 0) by lia. subst min.
    destruct fuel as [|fuel]; [simpl in Hfuel; lia|].
    cbn [repeat_matcher app Nat.eqb negb]. rewrite cap_clear_nil.
    rewrite char_matcher_miss by exact Hstop.
    rewrite Nat.add_0_r in Hc. exact Hc.
  - simpl in Hok. apply andb_true_iff in Hok. destruct Hok as [Ha Hok].
    destruct fuel as [|fuel]; [simpl in Hfuel; lia|].
    simpl in Hfuel, Hmin.
    assert (Hrec : repeat_matcher (char_matcher ok) [] fuel (Nat.pred min) None true
                     (MState (ds ++ tl) (S p) cs) c = Some z).
    { apply IH; try assumption; try lia.
      replace (S p + length ds) with (p + S (length ds)) by lia. exact Hc. }
    cbn [repeat_matcher]. rewrite cap_clear_nil.
    change ((a :: ds) ++ tl) with (a :: ds ++ tl).
    rewrite char_matcher_hit by exact Ha. cbn [pos option_map].
    replace (S p =? p) with false by (symmetry; apply Nat.eqb_neq; lia).
    rewrite andb_false_r, Hrec.
    destruct (negb (min =? 0)); reflexivity.
Qed.

Lemma rmatch_seq (ic : bool) (r1 r2 : regex) (x : mstate) (c : cont) :
  rmatch ic (RSeq r1 r2) x c = rmatch ic r1 x (fun y => rmatch ic r2 y c).
Proof. reflexivity. Qed.

Lemma rmatch_group (ic : bool) (i : nat) (r : regex) (x : mstate) (c : cont) :
  rmatch ic (RGroup i r) x c
  = rmatch ic r x (fun y => c (cap_set i (pos x, pos y) y)).
Proof. reflexivity. Qed.

Lemma rmatch_char_hit (a : char) (tl : str) (p : nat)
    (cs : list (nat * (nat * nat))) (c : cont) :
  rmatch false (RChar a) (MState (a :: tl) p cs) c = c (MState tl (S p) cs).
Proof.
  cbn [rmatch]. apply char_matcher_hit. apply N.eqb_refl.
Qed.

Lemma rmatch_digits (min : nat) (ds tl : str) (p : nat)
    (cs : list (nat * (nat * nat))) (c : cont) (z : mstate) :
  all_digits ds = true ->
  stops is_digit tl ->
  min <= length ds ->
  c (MState tl (p + length ds) cs) = Some z ->
  rmatch false (RQuant min None true (RClass false [CDigit])) (MState (ds ++ tl) p cs) c
  = Some z.
Proof.
  intros Hds Hstop Hmin Hc. cbn [rmatch groups_in rest].
  apply greedy_run; try assumption.
  - unfold all_digits in Hds. rewrite forallb_forall in *. intros ch Hch.
    unfold set_has_ic, set_has. simpl. rewrite orb_false_r. apply Hds. exact Hch.
  - destruct tl as [|ch tl]; simpl in *; [exact I|].
    unfold set_has_ic, set_has. simpl. rewrite orb_false_r. exact Hstop.
  - rewrite length_app. lia.
Qed.

Lemma repeat_matcher_done (m : matcher) (gs : list nat) (fuel min : nat)
    (greedy : bool) (x : mstate) (c : cont) :
  repeat_matcher m gs fuel min (Some 0) greedy x c = c x.
Proof. destruct fuel; reflexivity. Qed.

Lemma rmatch_opt_hit (a : char) (tl : str) (p : nat)
    (cs : list (nat * (nat * nat))) (c : cont) (z : mstate) :
  c (MState tl (S p) cs) = Some z ->
  rmatch false (RQuant 0 (Some 1) true (RChar a)) (MState (a :: tl) p cs) c = Some z.
Proof.
  intro Hc. cbn [rmatch groups_in rest]. rewrite Nat.add_1_r.
  cbn [repeat_matcher Nat.eqb negb Nat.add]. rewrite cap_clear_nil.
  rewrite char_matcher_hit by apply N.eqb_refl. cbn [pos].
  replace (S p =? p) with false by (symmetry; apply Nat.eqb_neq; lia).
  cbn [andb option_map Nat.pred]. 
  rewrite repeat_matcher_done, Hc. reflexivity.
Qed.

Lemma rmatch_opt_miss (a : char) (tl : str) (p : nat)
    (cs : list (nat * (nat * nat))) (c : cont) :
  stops (N.eqb a) tl ->
  rmatch false (RQuant 0 (Some 1) true (RChar a)) (MState tl p cs) c
  = c (MState tl p cs).
Proof.
  intro Hstop. cbn [rmatch groups_in rest]. rewrite Nat.add_1_r.
  cbn [repeat_matcher Nat.eqb negb Nat.add]. rewrite cap_clear_nil.
  rewrite char_matcher_miss by exact Hstop. reflexivity.
Qed.

Lemma substring_middle (a b c : str) :
  substring (length a) (length a + length b) (a ++ b ++ c) = b.
Proof.
  unfold substring. replace (length a + length b - length a) with (length b) by lia.
  rewrite skipn_app, skipn_all, Nat.sub_diag. simpl.
  rewrite firstn_app, firstn_all, Nat.sub_diag. simpl. apply app_nil_r.
Qed.

Lemma exec_from_hit (ic : bool) (r : regex) (s : str) (i : nat)
    (res : rmatch_result) :
  match_at ic r s i = Some res -> exec_from ic r s i = Some res.
Proof. intro H. destruct s; simpl; rewrite H; reflexivity. Qed.

End RegexFacts.

(** * The glob filter *)

Module FilterFacts.
Import JsString Regex Analyzer.

(** The regular-expression literals of the program are inside the modelled
    syntax: [literal] never falls back. *)
Lemma literals_parse :
  Forall (fun src => exists r, parse (lit src) = POk r)
    ([ "\*\*"; "\*"; "\?";
      "@@ -\d+,?\d* \+(\d+),?\d* @@";
      "(?:Summary|SUMMARY)[:\-\s]*([\s\S]*?)(?=\n(?:Purpose|PURPOSE|Key|Impact|Documentation|Suggestions|$))";
      "(?:Purpose|PURPOSE)[:\-\s]*([\s\S]*?)(?=\n(?:Key|Impact|Documentation|Suggestions|$))";
      "(?:Impact|IMPACT)[:\-\s]*([\s\S]*?)(?=\n(?:Documentation|Suggestions|$))";
      "(?:Documentation|DOCUMENTATION)[:\-\s]*([\s\S]*?)(?=\n(?:Suggestions|$))";
      "(?:Key Changes|KEY CHANGES)[:\-\s]*([\s\S]*?)(?=\n(?:Impact|Documentation|Suggestions|$))";
      "(?:Suggestions|SUGGESTIONS)[:\-\s]*([\s\S]*?)$";
      "^[\-\*\+\d]+\.?\s*" ])%string.
Proof.
  repeat constructor; eexists; vm_compute; reflexivity.
Qed.

(** *** What the translation computes *)

Lemma literal_double_star : literal "\*\*" = RSeq (RChar (chr "*")) (RChar (chr "*")).
Proof. vm_compute. reflexivity. Qed.
Lemma literal_star : literal "\*" = RChar (chr "*").
Proof. vm_compute. reflexivity. Qed.
Lemma literal_question : literal "\?" = RChar (chr "?").
Proof. vm_compute. reflexivity. Qed.

Lemma match_at_char (a : char) (s : str) (i : nat) :
  match_at false (RChar a) s i
  = match s with
    | ch :: _ => if N.eqb a ch then Some (MResult i (S i) []) else None
    | [] => None
    end.
Proof.
  unfold match_at. cbn [rmatch]. unfold char_matcher. cbn [rest pos caps].
  destruct s as [|ch s]; [reflexivity|]. destruct (N.eqb a ch); reflexivity.
Qed.

Lemma replace_walk_cons (ic : bool) (r : regex) (repl : str) (ch : char)
    (s : str) (i : nat) :
  replace_walk ic r repl (ch :: s) i 0
  = match match_at ic r (ch :: s) i with
    | Some res =>
        repl ++ (if m_end res =? i then ch :: replace_walk ic r repl s (S i) 0
                 else replace_walk ic r repl s (S i) (m_end res - i - 1))
    | None => ch :: replace_walk ic r repl s (S i) 0
    end.
Proof. reflexivity. Qed.

Lemma replace_walk_skip (ic : bool) (r : regex) (repl : str) (ch : char)
    (s : str) (i k : nat) :
  replace_walk ic r repl (ch :: s) i (S k) = replace_walk ic r repl s (S i) k.
Proof. reflexivity. Qed.

Lemma replace_walk_char (a : char) (repl s : str) :
  forall i, replace_walk false (RChar a) repl s i 0
            = flat_map (fun ch => if N.eqb a ch then repl else [ch]) s.
Proof.
  induction s as [|ch s IH]; intro i.
  - cbn [replace_walk flat_map]. rewrite match_at_char. reflexivity.
  - rewrite replace_walk_cons, match_at_char. cbn [flat_map].
    destruct (N.eqb a ch).
    + cbn [m_end]. replace (S i =? i) with false by (symmetry; apply Nat.eqb_neq; lia).
      replace (S i - i - 1) with 0 by lia. rewrite IH. reflexivity.
    + rewrite IH. reflexivity.
Qed.

Lemma match_at_two (a b : char) (s : str) (i : nat) :
  match_at false (RSeq (RChar a) (RChar b)) s i
  = match s with
    | c1 :: c2 :: _ =>
        if N.eqb a c1 && N.eqb b c2 then Some (MResult i (S (S i)) []) else None
    | _ => None
    end.
Proof.
  unfold match_at. cbn [rmatch]. unfold char_matcher. cbn [rest pos caps].
  destruct s as [|c1 s]; [reflexivity|].
  destruct (N.eqb a c1); cbn [rest pos caps andb];
    destruct s as [|c2 s]; try reflexivity.
  destruct (N.eqb b c2); reflexivity.
Qed.

Lemma replace_walk_double_star (s : str) :
  (forall i, replace_walk false (RSeq (RChar (chr "*")) (RChar (chr "*"))) (lit ".*") s i 0
             = double_stars s) /\
  (forall c i, replace_walk false (RSeq (RChar (chr "*")) (RChar (chr "*"))) (lit ".*") (c :: s) i 0
               = double_stars (c :: s)).
Proof.
  induction s as [|a s [IH1 IH2]].
  - split; intros.
    + cbn [replace_walk]. rewrite match_at_two. reflexivity.
    + cbn [replace_walk]. rewrite !match_at_two. reflexivity.
  - split; [exact (IH2 a)|]. intros c i.
    rewrite replace_walk_cons, match_at_two. cbn [double_stars].
    destruct (N.eqb (chr "*") c && N.eqb (chr "*") a).
    + cbn [m_end].
      replace (S (S i) =? i) with false by (symmetry; apply Nat.eqb_neq; lia).
      replace (S (S i) - i - 1) with 1 by lia.
      rewrite replace_walk_skip, IH1. reflexivity.
    + rewrite IH2. reflexivity.
Qed.

Lemma wildcard_two_passes (s : str) :
  flat_map (fun ch => if N.eqb (chr "?") ch then lit "[^/]" else [ch])
    (flat_map (fun ch => if N.eqb (chr "*") ch then lit "[^/]*" else [ch]) s)
  = flat_map wildcard s.
Proof.
  induction s as [|c s IH]; [reflexivity|].
  cbn [flat_map]. rewrite flat_map_app. f_equal; [|exact IH].
  unfold wildcard, ch_is. rewrite (N.eqb_sym c (chr "*")), (N.eqb_sym c (chr "?")).
  destruct (N.eqb (chr "*") c); [reflexivity|].
  cbn [flat_map]. rewrite app_nil_r. reflexivity.
Qed.

Lemma glob_to_regex_source_eq (pattern : str) :
  glob_to_regex_source pattern = flat_map wildcard (double_stars pattern).
Proof.
  unfold glob_to_regex_source, replace_all.
  rewrite literal_double_star, literal_star, literal_question.
  rewrite (proj1 (replace_walk_double_star pattern)).
  rewrite !replace_walk_char. apply wildcard_two_passes.
Qed.

Lemma glob_char_inv (c : char) :
  glob_char c = true ->
  ch_is c "\" = false /\ ch_is c "(" = false /\ ch_is c ")" = false /\
  ch_is c "[" = false /\ ch_is c "+" = false /\ ch_is c "{" = false.
Proof.
  unfold glob_char. intro H. apply negb_true_iff in H.
  repeat (apply orb_false_iff in H; destruct H as [H ?]). auto 10.
Qed.

Lemma parse_plain_char (c : char) (st : pstate) :
  glob_char c = true -> ch_is c "*" = false -> ch_is c "?" = false ->
  settled st ->
  exists st', settled st' /\
    forall tail, parse_from st (c :: tail) = parse_from st' tail.
Proof.
  intros Hc Hstar Hq [Hm Hs].
  destruct (glob_char_inv c Hc) as [H1 [H2 [H3 [H4 [H5 H6]]]]].
  destruct st as [alts ts stk n m]. simpl in Hm, Hs. subst m stk.
  cbn [parse_from step mode]. unfold step_normal.
  rewrite H1, H2, H3, H4, H5, H6, Hstar, Hq.
  destruct (ch_is c "|"); [eexists; split; [|intro; reflexivity]; split; reflexivity|].
  destruct (ch_is c "^"); [eexists; split; [|intro; reflexivity]; split; reflexivity|].
  destruct (ch_is c "$"); [eexists; split; [|intro; reflexivity]; split; reflexivity|].
  destruct (ch_is c "."); eexists; (split; [|intro; reflexivity]); split; reflexivity.
Qed.

Lemma parse_class_block (st : pstate) :
  settled st ->
  exists st', settled st' /\
    (forall tail, parse_from st (lit "[^/]" ++ tail) = parse_from st' tail) /\
    (forall tail, parse_from st (lit "[^/]*" ++ tail) = parse_from
       (PState (cur_alts st')
          (match cur_seq st' with
           | (r, _) :: ts => (RQuant 0 None true r, TGreedy) :: ts
           | [] => []
           end) [] (ngroups st') MNormal) tail).
Proof.
  intros [Hm Hs]. destruct st as [alts ts stk n m]. simpl in Hm, Hs. subst m stk.
  eexists. split; [|split].
  - shelve.
  - intro tail. cbn. reflexivity.
  - intro tail. cbn. reflexivity.
  Unshelve. split; reflexivity.
Qed.

Lemma parse_wildcards (s : str) :
  glob_pattern s = true ->
  forall st, settled st ->
  exists st', settled st' /\
    forall tail, parse_from st (flat_map wildcard s ++ tail) = parse_from st' tail.
Proof.
  unfold glob_pattern.
  induction s as [|c s IH]; intros Hs st Hst.
  - exists st. split; [exact Hst|]. intro tail. reflexivity.
  - simpl in Hs. apply andb_true_iff in Hs. destruct Hs as [Hc Hs].
    cbn [flat_map]. unfold wildcard at 1.
    destruct (ch_is c "*") eqn:Estar.
    + destruct (parse_class_block st Hst) as [st1 [Hst1 [_ Hrun]]].
      set (st2 := PState (cur_alts st1)
          (match cur_seq st1 with
           | (r, _) :: ts => (RQuant 0 None true r, TGreedy) :: ts
           | [] => []
           end) [] (ngroups st1) MNormal).
      destruct (IH Hs st2) as [st' [Hst' Hrest]]; [split; reflexivity|].
      exists st'. split; [exact Hst'|]. intro tail.
      rewrite <- app_assoc, Hrun. apply Hrest.
    + destruct (ch_is c "?") eqn:Eq.
      * destruct (parse_class_block st Hst) as [st1 [Hst1 [Hrun _]]].
        destruct (IH Hs st1 Hst1) as [st' [Hst' Hrest]].
        exists st'. split; [exact Hst'|]. intro tail.
        rewrite <- app_assoc, Hrun. apply Hrest.
      * destruct (parse_plain_char c st Hc Estar Eq Hst) as [st1 [Hst1 Hrun]].
        destruct (IH Hs st1 Hst1) as [st' [Hst' Hrest]].
        exists st'. split; [exact Hst'|]. intro tail.
        cbn [app]. rewrite Hrun. apply Hrest.
Qed.

Lemma double_stars_glob (s : str) :
  glob_pattern s = true -> glob_pattern (double_stars s) = true.
Proof.
  unfold glob_pattern.
  assert (H : (forallb glob_char s = true ->
               forallb glob_char (double_stars s) = true) /\
              (forall c, forallb glob_char (c :: s) = true ->
                         forallb glob_char (double_stars (c :: s)) = true)).
  { induction s as [|a s [IH1 IH2]].
    - split; intros; [reflexivity|assumption].
    - split; [exact (IH2 a)|]. intros c H.
      cbn [double_stars].
      destruct (N.eqb (chr "*") c && N.eqb (chr "*") a).
      + cbn [forallb] in H. apply andb_true_iff in H. destruct H as [_ H].
        apply andb_true_iff in H. destruct H as [_ H].
        rewrite forallb_app, (IH1 H). reflexivity.
      + cbn [forallb] in H. apply andb_true_iff in H. destruct H as [Hc H].
        cbn [forallb]. rewrite Hc. apply IH2. exact H. }
  exact (proj1 H).
Qed.

Lemma glob_pattern_parses (pattern : str) :
  glob_pattern pattern = true ->
  exists r, parse (lit "^" ++ glob_to_regex_source pattern ++ lit "$") = POk r.
Proof.
  intro H. rewrite glob_to_regex_source_eq.
  destruct (parse_wildcards (double_stars pattern) (double_stars_glob pattern H)
              (PState [] [(RBol, TAssert)] [] 0 MNormal))
    as [st' [[Hm Hs] Hrun]]; [split; reflexivity|].
  assert (Hhead : forall tl,
            parse_from (PState [] [] [] 0 MNormal) (lit "^" ++ tl)
            = parse_from (PState [] [(RBol, TAssert)] [] 0 MNormal) tl)
    by (intro tl; reflexivity).
  unfold parse. rewrite Hhead, Hrun.
  destruct st' as [alts ts stk n m]. simpl in Hm, Hs. subst m stk.
  eexists. cbn. reflexivity.
Qed.

(** C3 (amended): for every pattern made of wildcards and of characters
    other than the backslash, parentheses, the opening bracket, the opening
    brace and [+], evaluating the predicate on any path returns a boolean
    and never throws; a pattern whose translation is not a regular
    expression is not treated as matching nothing: constructing the RegExp
    throws, on every path. *)
Theorem glob_predicate_throws_or_returns :
  (forall pattern filePath,
     glob_pattern pattern = true ->
     exists b, matchesPattern filePath pattern = Returns b) /\
  (forall pattern,
     new_RegExp (lit "^" ++ glob_to_regex_source pattern ++ lit "$") = Throws ->
     forall filePath, matchesPattern filePath pattern = Throws).
Proof.
  split.
  - intros pattern filePath H. unfold matchesPattern, new_RegExp.
    destruct (glob_pattern_parses pattern H) as [r Hr]. rewrite Hr.
    simpl. eauto.
  - intros pattern H filePath. unfold matchesPattern. rewrite H. reflexivity.
Qed.

Lemma glob_predicate_throws_or_returns_witness :
  (exists b, matchesPattern (lit "src/a.ts") (lit "src/**/?.ts") = Returns b) /\
  matchesPattern (lit "src/a.ts") (lit "src/(lib") = Throws.
Proof.
  split.
  - apply (proj1 glob_predicate_throws_or_returns). vm_compute. reflexivity.
  - apply (proj2 glob_predicate_throws_or_returns). vm_compute. reflexivity.
Defined.

(** C3 (as stated) fails: patterns with an unbalanced parenthesis or
    bracket, or with a doubled [+], make the evaluation throw; they do not
    behave as a predicate that returns false. *)
Lemma malformed_pattern_throws :
  matchesPattern (lit "src/a.ts") (lit "src/(lib") = Throws /\
  matchesPattern (lit "src/a.ts") (lit "src/[a-") = Throws /\
  matchesPattern (lit "src/a.ts") (lit "lib)") = Throws /\
  matchesPattern (lit "src/c++/a.cpp") (lit "src/c++/*.cpp") = Throws.
Proof. repeat split; vm_compute; reflexivity. Qed.

(** The second [replace] also rewrites the star that the first one wrote. *)
Lemma double_star_source :
  glob_to_regex_source (lit "**/*.ts") = lit ".[^/]*/[^/]*.ts".
Proof. vm_compute. reflexivity. Qed.

(** C1 (the code at the example inputs): the predicate compiled from
    "**/*.ts" returns false on "src/deep/nested/file.ts", where a double star
    that crossed separators would return true; the other three examples
    come out as stated: "**/*.ts" rejects "src/file.tsx", "*.ts" rejects
    "src/file.ts" and accepts "file.ts". *)
Theorem glob_examples :
  matchesPattern (lit "src/deep/nested/file.ts") (lit "**/*.ts") = Returns false /\
  matchesPattern (lit "src/file.tsx") (lit "**/*.ts") = Returns false /\
  matchesPattern (lit "src/file.ts") (lit "*.ts") = Returns false /\
  matchesPattern (lit "file.ts") (lit "*.ts") = Returns true.
Proof. repeat split; vm_compute; reflexivity. Qed.

(** With the translation as written, "**/" matches exactly one directory
    level: a file at the top level or two levels down is not matched. *)
Lemma double_star_one_level :
  matchesPattern (lit "src/file.ts") (lit "**/*.ts") = Returns true /\
  matchesPattern (lit "file.ts") (lit "**/*.ts") = Returns false /\
  matchesPattern (lit "src/deep/file.ts") (lit "**/*.ts") = Returns false.
Proof. repeat split; vm_compute; reflexivity. Qed.

Lemma first_match_evaluates (filePath : str) (patterns : list str) :
  (forall p, In p patterns -> evaluates filePath p) ->
  first_match filePath patterns = Returns true /\
    (exists p, In p patterns /\ matches filePath p)
  \/ first_match filePath patterns = Returns false /\
    (forall p, In p patterns -> ~ matches filePath p).
Proof.
  induction patterns as [|q more IH]; intro Hev.
  - right. split; [reflexivity|]. intros p [].
  - simpl. destruct (Hev q (or_introl eq_refl)) as [b Hb]. rewrite Hb. simpl.
    destruct b.
    + left. split; [reflexivity|]. exists q. split; [left; reflexivity|exact Hb].
    + destruct IH as [[H1 [p [Hp Hm]]]|[H1 Hnone]].
      * intros p Hp. apply Hev. right. exact Hp.
      * left. split; [exact H1|]. exists p. split; [right; exact Hp|exact Hm].
      * right. split; [exact H1|]. intros p [Hp|Hp].
        -- subst p. unfold matches. rewrite Hb. discriminate.
        -- apply Hnone. exact Hp.
Qed.

(** C4 (amended): for every path and every rule set whose patterns are all
    valid (each evaluation returns), the decision follows the rule: a path
    matching an exclude pattern is rejected whatever the include list says;
    otherwise, with include patterns configured and none matching, it is
    rejected; with no include patterns configured, a path not excluded is
    accepted. *)
Theorem filter_rule_valid_patterns (config : Config) (filePath : str) :
  (forall p, In p (patterns_of (excludePatterns config)) -> evaluates filePath p) ->
  (forall p, In p (patterns_of (includePatterns config)) -> evaluates filePath p) ->
  filter_rule config filePath.
Proof.
  intros Hex Hin. unfold filter_rule, excluded, shouldAnalyzeFile.
  destruct config as [incl excl]. simpl in *.
  assert (Hloop : first_match filePath (patterns_of excl) = Returns true /\
                    (exists p, In p (patterns_of excl) /\ matches filePath p)
                  \/ first_match filePath (patterns_of excl) = Returns false /\
                    (forall p, In p (patterns_of excl) -> ~ matches filePath p))
    by (apply first_match_evaluates; exact Hex).
  assert (Hsame : match excl with
                  | Some patterns => first_match filePath patterns
                  | None => Returns false
                  end = first_match filePath (patterns_of excl))
    by (destruct excl; reflexivity).
  rewrite Hsame. clear Hsame.
  split; [|split].
  - intros [p [Hp Hm]]. destruct Hloop as [[H _]|[_ Hnone]].
    + rewrite H. reflexivity.
    + exfalso. exact (Hnone p Hp Hm).
  - intros Hnot patterns Hsome Hnone. subst incl. simpl in Hin.
    destruct Hloop as [[_ Hsome]|[H _]]; [contradiction|].
    rewrite H. simpl.
    destruct (first_match_evaluates filePath patterns Hin) as [[_ [p [Hp Hm]]]|[H2 _]].
    + exfalso. exact (Hnone p Hp Hm).
    + exact H2.
  - intros Hnot Hnone. subst incl.
    destruct Hloop as [[_ Hsome]|[H _]]; [contradiction|].
    rewrite H. reflexivity.
Qed.

Lemma filter_rule_valid_patterns_witness :
  filter_rule (mkConfig (Some [lit "**/*.ts"]) (Some [lit "**/*.test.*"]))
    (lit "src/a.test.ts").
Proof.
  apply filter_rule_valid_patterns; simpl.
  - intros p [Hp|[]]. subst p. exists true. vm_compute. reflexivity.
  - intros p [Hp|[]]. subst p. exists true. vm_compute. reflexivity.
Defined.

(** C4 (as stated) fails when an exclude pattern is not a valid regular
    expression after translation: the path "a" matches no exclude pattern of
    ["("] and no include patterns are configured, yet the call throws instead
    of accepting the path. *)
Lemma filter_rule_malformed_exclude :
  ~ filter_rule (mkConfig None (Some [lit "("])) (lit "a").
Proof.
  intros [_ [_ H]].
  assert (Hthrow : shouldAnalyzeFile (mkConfig None (Some [lit "("])) (lit "a") = Throws)
    by (vm_compute; reflexivity).
  rewrite Hthrow in H.
  assert (Hfalse : @Throws bool = Returns true); [|discriminate].
  apply H; [|reflexivity].
  intros [p [Hp Hm]]. simpl in Hp. destruct Hp as [Hp|[]]. subst p.
  unfold matches in Hm. vm_compute in Hm. discriminate.
Qed.




End FilterFacts.

(** * The response section extractor *)

Module SectionFacts.
Import JsString Regex Analyzer RegexFacts.

(** C2 (the code at the example input): summary, purpose and the key
    changes are extracted as stated and documentation and suggestions are
    absent, but impact is absent as well: the text does not end in a line
    feed, and the lookahead that ends the Impact section asks for a line
    feed before the end of the text. *)
Theorem extractSections_example :
  extractSections example_response
  = Returns (mkSections (Some (lit "fixes bug")) (Some (lit "stability"))
               None None
               (Some [lit "fix A"; lit "fix B"]) None).
Proof. vm_compute. reflexivity. Qed.

(** The same response followed by a line feed does give the impact. *)
Lemma extractSections_example_newline :
  extractSections (example_response ++ [newline])%list
  = Returns (mkSections (Some (lit "fixes bug")) (Some (lit "stability"))
               (Some (lit "low risk")) None
               (Some [lit "fix A"; lit "fix B"]) None).
Proof. vm_compute. reflexivity. Qed.

(** The analysis record of the example carries the impact placeholder. *)
Lemma parseAnalysisResponse_example :
  parseAnalysisResponse (lit "a.ts") (lit "typescript") example_response
  = Returns (mkAnalysisResult (lit "a.ts") (lit "typescript")
               (lit "fixes bug") (lit "stability")
               [lit "fix A"; lit "fix B"]
               (lit "Impact not specified")
               example_response []).
Proof. vm_compute. reflexivity. Qed.

Lemma section_returns {A : Type} (re : regex) (f : str -> A) (response : str) :
  always_sets 1 re = true ->
  exists found, section re f response = Returns found.
Proof.
  intro H. unfold section.
  destruct (exec true re response) as [m|] eqn:E; [|eauto].
  destruct (exec_group true re 1 response m H E) as [text Ht].
  rewrite Ht. eauto.
Qed.

(** The expressions matched with the [i] flag name ASCII characters only. *)
Lemma section_regexes_ascii :
  Forall (fun re => ascii_only re = true)
    [summary_re; purpose_re; impact_re; doc_re; keyChanges_re; suggestions_re].
Proof. repeat constructor; vm_compute; reflexivity. Qed.

(** Group 1 of the six expressions takes part in every match. *)
Lemma section_regexes_set_group_1 :
  Forall (fun re => always_sets 1 re = true)
    [summary_re; purpose_re; impact_re; doc_re; keyChanges_re; suggestions_re].
Proof. repeat constructor; vm_compute; reflexivity. Qed.

Lemma section_regex_group_1 (re : regex) :
  In re [summary_re; purpose_re; impact_re; doc_re; keyChanges_re; suggestions_re] ->
  always_sets 1 re = true.
Proof.
  intro H.
  exact (proj1 (Forall_forall _ _) section_regexes_set_group_1 re H).
Qed.

Ltac section_found v E :=
  match goal with
  | |- context [section ?re ?f ?response] =>
      destruct (section_returns re f response) as [v E];
      [apply section_regex_group_1; cbn [In]; tauto|];
      rewrite E; cbn [bind]
  end.

Lemma extractSections_returns (response : str) :
  exists sections, extractSections response = Returns sections.
Proof.
  unfold extractSections.
  section_found v1 E1. section_found v2 E2. section_found v3 E3.
  section_found v4 E4. section_found v5 E5. section_found v6 E6.
  eauto.
Qed.

Lemma section_no_heading {A : Type} (re w1r w2r : regex) (w w2 : str)
    (f : str -> A) (response : str) :
  lead re = RAlt w1r w2r ->
  word_of w1r = Some w -> word_of w2r = Some w2 ->
  map to_upper w2 = map to_upper w ->
  occurs_ci w response = false ->
  section re f response = Returns None.
Proof.
  intros Hlead H1 H2 Hup Hocc. unfold section, exec.
  rewrite (exec_from_no_heading re w1r w2r w w2 Hlead H1 H2
             (starts_ci_same w2 w Hup) response 0 Hocc).
  reflexivity.
Qed.

Lemma headingless_all_absent (response : str) :
  headingless response = true ->
  extractSections response = Returns no_sections.
Proof.
  unfold headingless, headings. cbn [forallb]. intro H.
  repeat (apply andb_true_iff in H; destruct H as [?H H]).
  repeat match goal with
         | H : negb _ = true |- _ => apply negb_true_iff in H
         end.
  unfold extractSections.
  erewrite (section_no_heading summary_re); [|vm_compute; reflexivity..|eassumption].
  erewrite (section_no_heading purpose_re); [|vm_compute; reflexivity..|eassumption].
  erewrite (section_no_heading impact_re); [|vm_compute; reflexivity..|eassumption].
  erewrite (section_no_heading doc_re); [|vm_compute; reflexivity..|eassumption].
  erewrite (section_no_heading keyChanges_re); [|vm_compute; reflexivity..|eassumption].
  erewrite (section_no_heading suggestions_re); [|vm_compute; reflexivity..|eassumption].
  reflexivity.
Qed.

(** C9: on every input the extraction returns a record (the functions of
    the model are total, and no step of it throws: group 1 takes part in
    every match of the six expressions, so the method calls on it are
    defined); in the worst case, a text in which none of the six headings
    occurs, every section of the record is absent. *)
Theorem extractSections_never_throws :
  (forall response, exists sections, extractSections response = Returns sections) /\
  (forall response, headingless response = true ->
                    extractSections response = Returns no_sections).
Proof.
  split; [exact extractSections_returns|exact headingless_all_absent].
Qed.

Lemma extractSections_never_throws_witness :
  extractSections (lit "it works now, trust me") = Returns no_sections.
Proof.
  apply (proj2 extractSections_never_throws). vm_compute. reflexivity.
Defined.

(** Truncated and duplicated headings are handled like any other text. *)
Lemma extractSections_odd_inputs :
  extractSections (lit ("Summary" ++ nl)) 
  = Returns (mkSections (Some (lit "")) None None None None None) /\
  extractSections (lit ("Summary: a" ++ nl ++ "Summary: b" ++ nl))
  = Returns (mkSections (Some (lit ("a" ++ nl ++ "Summary: b"))) None None None None None) /\
  extractSections (lit "Summ") = Returns no_sections.
Proof. repeat split; vm_compute; reflexivity. Qed.

Lemma parseAnalysisResponse_returns (filePath language response : str) :
  exists result, parseAnalysisResponse filePath language response = Returns result.
Proof.
  unfold parseAnalysisResponse.
  destruct (extractSections_returns response) as [sections E].
  rewrite E. simpl. eauto.
Qed.

(** C5 (amended): every response is parsed into an analysis record; when a
    section is not found in it, the summary, purpose and impact fields are
    the fixed texts "No summary provided", "No purpose identified" and
    "Impact not specified", and the documentation field is the raw response
    itself. *)
Theorem absent_sections_defaults (filePath language response : str) :
  exists sections result,
    extractSections response = Returns sections /\
    parseAnalysisResponse filePath language response = Returns result /\
    (s_summary sections = None -> summary result = lit "No summary provided") /\
    (s_purpose sections = None -> purpose result = lit "No purpose identified") /\
    (s_impact sections = None -> impact result = lit "Impact not specified") /\
    (s_documentation sections = None -> documentation result = response).
Proof.
  destruct (extractSections_returns response) as [sections E].
  exists sections. unfold parseAnalysisResponse. rewrite E. cbn [bind].
  eexists. split; [reflexivity|]. split; [reflexivity|]. cbn.
  repeat split; intro H; rewrite H; reflexivity.
Qed.

Lemma absent_sections_defaults_witness :
  exists result,
    parseAnalysisResponse (lit "a.ts") (lit "typescript") (lit "looks fine")
    = Returns result /\
    summary result = lit "No summary provided" /\
    purpose result = lit "No purpose identified" /\
    impact result = lit "Impact not specified" /\
    documentation result = lit "looks fine".
Proof.
  destruct (absent_sections_defaults (lit "a.ts") (lit "typescript") (lit "looks fine"))
    as [sections [result [E [Hr [H1 [H2 [H3 H4]]]]]]].
  assert (Hs : sections = no_sections).
  { assert (Hn : extractSections (lit "looks fine") = Returns no_sections)
      by (vm_compute; reflexivity).
    rewrite Hn in E. inversion E. reflexivity. }
  subst sections. exists result.
  split; [exact Hr|]. split; [apply H1; reflexivity|].
  split; [apply H2; reflexivity|]. split; [apply H3; reflexivity|].
  apply H4; reflexivity.
Defined.

(** C5 (as stated) fails for the documentation field: no fixed text is the
    documentation of every response without a Documentation section. *)
Lemma documentation_default_not_fixed :
  ~ exists placeholder : str,
      forall response sections result,
        extractSections response = Returns sections ->
        s_documentation sections = None ->
        parseAnalysisResponse (lit "a.ts") (lit "typescript") response
        = Returns result ->
        documentation result = placeholder.
Proof.
  intros [placeholder H].
  assert (H1 : lit "looks fine" = placeholder).
  { apply (H (lit "looks fine") no_sections
             (mkAnalysisResult (lit "a.ts") (lit "typescript")
                (lit "No summary provided") (lit "No purpose identified") []
                (lit "Impact not specified") (lit "looks fine") []));
      vm_compute; reflexivity. }
  assert (H2 : lit "needs work" = placeholder).
  { apply (H (lit "needs work") no_sections
             (mkAnalysisResult (lit "a.ts") (lit "typescript")
                (lit "No summary provided") (lit "No purpose identified") []
                (lit "Impact not specified") (lit "needs work") []));
      vm_compute; reflexivity. }
  rewrite <- H2 in H1. vm_compute in H1. discriminate.
Qed.

End SectionFacts.

(** * The diff hunk parser *)

Module DiffFacts.
Import JsString Regex GitUtils RegexFacts.

(** C6: the diff text of the end-to-end scenario gives exactly one change
    record, an addition at line 2 with text "line2" and context
    ["line1"; "line3"]. *)
Theorem parseDiffOutput_example :
  parseDiffOutput
    (lit ("@@ -1,2 +1,3 @@" ++ nl ++ " line1" ++ nl ++ "+line2" ++ nl ++
          " line3" ++ nl))
  = [mkGitChange addition (Num 2) (lit "line2") [lit "line1"; lit "line3"]].
Proof. vm_compute. reflexivity. Qed.

(** *** Where a record comes from *)

Lemma skipn_cons_nth {A : Type} (l : list A) :
  forall i x rest, skipn i l = x :: rest ->
    nth_error l i = Some x /\ skipn (S i) l = rest.
Proof.
  induction l as [|y l IH]; intros i x rest H.
  - destruct i; discriminate.
  - destruct i as [|i].
    + simpl in H. inversion H; subst. split; reflexivity.
    + simpl in H. apply IH in H. exact H.
Qed.

Lemma scan_cons (lines : list str) (i : nat) (line : str) (todo : list str)
    (currentLineNumber : jsnum) :
  scan lines i (line :: todo) currentLineNumber
  = if is_header_line line then
      scan lines (S i) todo (after_header line currentLineNumber)
    else if is_addition_line line then
      mkGitChange addition currentLineNumber (substring_from 1 line)
        (getContextLines lines i contextSize_default)
      :: scan lines (S i) todo (incr currentLineNumber)
    else if is_deletion_line line then
      mkGitChange deletion currentLineNumber (substring_from 1 line)
        (getContextLines lines i contextSize_default)
      :: scan lines (S i) todo currentLineNumber
    else if is_context_line line then
      scan lines (S i) todo (incr currentLineNumber)
    else scan lines (S i) todo currentLineNumber.
Proof. reflexivity. Qed.

(** Every record of the loop was emitted at some index of the line array,
    from an addition or deletion line, with the context of that index. *)
(** *** The context window *)

Lemma context_line_shape (line : str) :
  is_context_line line = true ->
  line = chr " " :: substring_from 1 line /\
  is_addition_line line = false /\ is_deletion_line line = false /\
  is_header_line line = false.
Proof.
  destruct line as [|c0 line]; [discriminate|].
  unfold is_context_line.
  change (startsWith (lit " ") (c0 :: line)) with (N.eqb (chr " ") c0 && true).
  rewrite andb_true_r. intro H.
  apply N.eqb_eq in H. subst c0. repeat split.
Qed.

Lemma header_line_shape (line : str) :
  is_header_line line = true ->
  is_addition_line line = false /\ is_deletion_line line = false /\
  is_context_line line = false.
Proof.
  destruct line as [|c0 line]; [discriminate|].
  unfold is_header_line.
  change (startsWith (lit "@@") (c0 :: line))
    with (N.eqb (chr "@") c0 && startsWith (lit "@") line).
  intro H. apply andb_true_iff in H. destruct H as [H _].
  apply N.eqb_eq in H. subst c0. repeat split.
Qed.

Lemma filter_map_comm {A B : Type} (f : B -> bool) (g : A -> B) (l : list A) :
  filter f (map g l) = map g (filter (fun a => f (g a)) l).
Proof.
  induction l as [|a l IH]; [reflexivity|].
  cbn [map filter]. destruct (f (g a)); cbn [map]; rewrite IH; reflexivity.
Qed.

Lemma emitting_indices_cons (line : str) (todo : list str) :
  emitting_indices (line :: todo)
  = (if is_addition_line line || is_deletion_line line then [0] else [])
    ++ map S (emitting_indices todo).
Proof.
  unfold emitting_indices. cbn [length seq filter nth].
  rewrite <- seq_shift, filter_map_comm. cbn [nth].
  destruct (is_addition_line line || is_deletion_line line); reflexivity.
Qed.

(** The records of the loop, by the indices of the lines that give them. *)
Lemma scan_positions (lines : list str) :
  forall todo i currentLineNumber,
    skipn i lines = todo ->
    map content_and_context (scan lines i todo currentLineNumber)
    = map (fun j => (substring_from 1 (nth (i + j) lines []),
                     getContextLines lines (i + j) contextSize_default))
          (emitting_indices todo).
Proof.
  induction todo as [|line todo IH]; intros i cur Hskip; [reflexivity|].
  apply skipn_cons_nth in Hskip. destruct Hskip as [Hnth Hskip].
  assert (Hline : nth i lines [] = line) by (apply nth_error_nth; exact Hnth).
  assert (Hrest : forall cur',
            map content_and_context (scan lines (S i) todo cur')
            = map (fun j => (substring_from 1 (nth (i + j) lines []),
                             getContextLines lines (i + j) contextSize_default))
                  (map S (emitting_indices todo))).
  { intro cur'. rewrite (IH (S i) cur' Hskip), map_map.
    apply map_ext. intro j. rewrite Nat.add_succ_r. reflexivity. }
  rewrite scan_cons, emitting_indices_cons, map_app.
  destruct (is_header_line line) eqn:Eh.
  { destruct (header_line_shape line Eh) as [Ea [Ed _]]. rewrite Ea, Ed.
    cbn [orb map app]. apply Hrest. }
  destruct (is_addition_line line) eqn:Ea.
  { cbn [orb map app content_and_context content context].
    unfold content_and_context at 1. cbn [content context].
    rewrite Nat.add_0_r, Hline, Hrest. reflexivity. }
  destruct (is_deletion_line line) eqn:Ed.
  { cbn [orb map app].
    unfold content_and_context at 1. cbn [content context].
    rewrite Nat.add_0_r, Hline, Hrest. reflexivity. }
  cbn [orb map app]. destruct (is_context_line line); apply Hrest.
Qed.

(** A slice, index by index. *)
Lemma firstn_skipn_by_index {A : Type} (l : list A) :
  forall n a,
    firstn n (skipn a l)
    = flat_map (fun j => match nth_error l j with
                         | Some x => [x]
                         | None => []
                         end) (seq a n).
Proof.
  induction n as [|n IH]; intro a; [reflexivity|].
  cbn [seq flat_map]. rewrite <- IH.
  destruct (skipn a l) as [|x rest] eqn:E.
  - assert (Hlen : length l <= a).
    { destruct (Nat.le_gt_cases (length l) a) as [H|H]; [exact H|].
      exfalso. apply (f_equal (@length A)) in E. rewrite length_skipn in E.
      cbn [length] in E. lia. }
    assert (Hnone : nth_error l a = None) by (apply nth_error_None; exact Hlen).
    rewrite Hnone. rewrite (skipn_all2 l) by lia. destruct n; reflexivity.
  - apply skipn_cons_nth in E. destruct E as [Hnth Hrest].
    rewrite Hnth, Hrest. reflexivity.
Qed.

Lemma slice_by_index {A : Type} (l : list A) (start stop : nat) :
  slice start (Nat.min (length l) stop) l
  = flat_map (fun j => match nth_error l j with
                       | Some x => [x]
                       | None => []
                       end) (seq start (stop - start)).
Proof.
  unfold slice. rewrite <- firstn_skipn_by_index.
  destruct (Nat.le_gt_cases stop (length l)) as [H|H].
  - rewrite Nat.min_r by exact H. reflexivity.
  - rewrite Nat.min_l by lia.
    rewrite !firstn_all2; [reflexivity| |]; rewrite length_skipn; lia.
Qed.

Lemma context_of_line (line : str) :
  map (substring_from 1) (filter is_context_line [line]) = unmarked line.
Proof.
  destruct line as [|c text]; [reflexivity|].
  cbn [filter]. unfold is_context_line, unmarked.
  change (startsWith (lit " ") (c :: text)) with (N.eqb (chr " ") c && true).
  rewrite andb_true_r, N.eqb_sym.
  destruct (N.eqb c (chr " ")); reflexivity.
Qed.

Lemma context_of_lines {A : Type} (g : A -> list str) (s : list A) :
  map (substring_from 1) (filter is_context_line (flat_map g s))
  = flat_map (fun j => map (substring_from 1) (filter is_context_line (g j))) s.
Proof.
  induction s as [|a s IH]; [reflexivity|].
  cbn [flat_map]. rewrite filter_app, map_app, IH. reflexivity.
Qed.

(** [getContextLines] gives the context that the specification words. *)
Lemma getContextLines_reading (lines : list str) (i w : nat) :
  getContextLines lines i w = context_reading lines i w.
Proof.
  unfold getContextLines, context_reading. cbv zeta.
  rewrite Nat.max_0_l, slice_by_index, context_of_lines.
  apply flat_map_ext. intro j.
  destruct (nth_error lines j) as [line|]; [apply context_of_line|reflexivity].
Qed.

Lemma flat_map_short {A B : Type} (g : A -> list B) (s : list A) :
  (forall a, length (g a) <= 1) -> length (flat_map g s) <= length s.
Proof.
  intro H. induction s as [|a s IH]; [apply Nat.le_refl|].
  cbn [flat_map length]. rewrite length_app. specialize (H a). lia.
Qed.

Lemma unmarked_short (line : str) : length (unmarked line) <= 1.
Proof.
  destruct line as [|c text]; [cbn; lia|].
  unfold unmarked. destruct (N.eqb c (chr " ")); cbn; lia.
Qed.

Lemma unmarked_source (line text : str) :
  In text (unmarked line) -> line = chr " " :: text.
Proof.
  destruct line as [|c rest]; [intros []|].
  unfold unmarked. destruct (N.eqb c (chr " ")) eqn:E; [|intros []].
  intros [H|[]]. subst rest. apply N.eqb_eq in E. subst c. reflexivity.
Qed.

(** C8 (amended): the records follow the lines that start with [+] or [-]
    (other than [+++] and [---]) in the order of the line array, and the
    record emitted at index [i] has as its context the lines at the indices
    [i - 3] to [i + 3] of the whole line array, as far as they exist, that
    start with a space, with that space stripped.  So a context holds at
    most 2*3+1 texts, each from a line within three places of the change
    that is no addition, deletion or hunk header; and it may be empty.
    (The window is not cut at hunk boundaries.) *)
Theorem context_is_filtered_window :
  (forall diffOutput : str,
     map content_and_context (parseDiffOutput diffOutput)
     = map (fun i =>
              (substring_from 1 (nth i (split_on newline diffOutput) []),
               context_reading (split_on newline diffOutput) i 3))
           (emitting_indices (split_on newline diffOutput))) /\
  (forall (lines : list str) (i : nat),
     length (context_reading lines i 3) <= 2 * 3 + 1 /\
     forall text, In text (context_reading lines i 3) ->
       exists j,
         i - 3 <= j /\ j <= i + 3 /\
         nth_error lines j = Some (chr " " :: text) /\
         is_addition_line (chr " " :: text) = false /\
         is_deletion_line (chr " " :: text) = false /\
         is_header_line (chr " " :: text) = false) /\
  (exists (diffOutput : str) (c : GitChange),
     In c (parseDiffOutput diffOutput) /\ context c = []).
Proof.
  split; [|split].
  - intro diffOutput. unfold parseDiffOutput, parseDiffLines.
    rewrite (scan_positions (split_on newline diffOutput)
               (split_on newline diffOutput) 0 (Num 0) eq_refl).
    apply map_ext. intro i. cbn [Nat.add].
    rewrite getContextLines_reading. reflexivity.
  - intros lines i. split.
    + unfold context_reading.
      eapply Nat.le_trans.
      * apply flat_map_short. intro j.
        destruct (nth_error lines j); [apply unmarked_short|cbn; lia].
      * rewrite length_seq. lia.
    + intros text Ht. unfold context_reading in Ht.
      apply in_flat_map in Ht. destruct Ht as [j [Hj Ht]].
      apply in_seq in Hj.
      destruct (nth_error lines j) as [line|] eqn:Hnth; [|destruct Ht].
      apply unmarked_source in Ht. subst line.
      exists j. repeat split; try reflexivity; try lia. exact Hnth.
  - exists (lit "+new"), (mkGitChange addition (Num 0) (lit "new") []).
    split; [left|]; reflexivity.
Qed.

(** Two additions with the same text, each with the context of its own
    place. *)
Lemma context_is_filtered_window_witness :
  map content_and_context
    (parseDiffOutput
       (lit ("@@ -1,6 +1,8 @@" ++ nl ++ " a" ++ nl ++ "+x" ++ nl ++ " b" ++ nl ++
             " c" ++ nl ++ " d" ++ nl ++ " e" ++ nl ++ "+x" ++ nl ++ " f")))
  = [(lit "x", [lit "a"; lit "b"; lit "c"; lit "d"]);
     (lit "x", [lit "c"; lit "d"; lit "e"; lit "f"])].
Proof.
  etransitivity.
  - exact (proj1 context_is_filtered_window
             (lit ("@@ -1,6 +1,8 @@" ++ nl ++ " a" ++ nl ++ "+x" ++ nl ++
                   " b" ++ nl ++ " c" ++ nl ++ " d" ++ nl ++ " e" ++ nl ++
                   "+x" ++ nl ++ " f"))).
  - vm_compute. reflexivity.
Defined.

(** C8 (as stated) fails on hunk boundaries.  In this diff of one file,
    made with one line of context, the hunks lie three lines apart; the
    window of three lines around the addition [+B] of the first hunk
    reaches over the header of the second hunk, and the record gets the
    context line [g] of the second hunk. *)
Lemma context_crosses_hunk_header :
  let diffOutput :=
    lit ("diff --git a/f.txt b/f.txt" ++ nl ++
         "index 1111111..2222222 100644" ++ nl ++
         "--- a/f.txt" ++ nl ++
         "+++ b/f.txt" ++ nl ++
         "@@ -1,3 +1,3 @@" ++ nl ++
         " a" ++ nl ++
         "-b" ++ nl ++
         "+B" ++ nl ++
         " c" ++ nl ++
         "@@ -7,3 +7,3 @@" ++ nl ++
         " g" ++ nl ++
         "-h" ++ nl ++
         "+H" ++ nl ++
         " i" ++ nl) in
  let lines := split_on newline diffOutput in
  let c := mkGitChange addition (Num 2) (lit "B") [lit "a"; lit "c"; lit "g"] in
  nth_error (parseDiffOutput diffOutput) 1 = Some c /\
  nth_error (emitting_indices lines) 1 = Some 7 /\
  nth_error lines 7 = Some (lit "+B") /\
  ~ context_within_hunk lines 7 c.
Proof.
  intros diffOutput lines c.
  split; [vm_compute; reflexivity|]. split; [vm_compute; reflexivity|].
  split; [vm_compute; reflexivity|].
  intro H. destruct (H (lit "g")) as [j [Hsame Hj]];
    [right; right; left; reflexivity|].
  do 15 (destruct j as [|j]; [vm_compute in Hj; try discriminate Hj;
                              vm_compute in Hsame; discriminate Hsame|]).
  vm_compute in Hj. destruct j; discriminate Hj.
Qed.

(** *** Hunk headers *)

Lemma hunk_header_re_ast :
  hunk_header_re = ltac:(let r := eval vm_compute in hunk_header_re in exact r).
Proof. vm_compute. reflexivity. Qed.


(** Literal texts are replaced by their code units. *)
Ltac eval_lits :=
  repeat match goal with
         | |- context [lit ?s] =>
             let v := eval vm_compute in (lit s) in change (lit s) with v
         end.

Ltac run_digits :=
  first [ eapply rmatch_digits; [assumption|reflexivity|try lia|]
        | eapply (rmatch_digits 0 []); [reflexivity|reflexivity|simpl; lia|] ].

Ltac run_header :=
  repeat first
    [ rewrite rmatch_char_hit
    | rewrite rmatch_group
    | rewrite rmatch_opt_miss by reflexivity
    | eapply rmatch_opt_hit
    | run_digits
    | progress cbv beta
    | progress cbn [pos rest caps] ].

Lemma header_match (old : str) (oldCount : option str) (new : str)
    (newCount : option str) (tail : str) :
  all_digits old = true -> old <> [] -> count_ok oldCount = true ->
  all_digits new = true -> new <> [] -> count_ok newCount = true ->
  exists y,
    rmatch false hunk_header_re
      (MState (hunk_header old oldCount new newCount tail) 0 []) (fun y => Some y)
    = Some y /\
    caps y = [(1, (length (lit "@@ -" ++ range_text old oldCount ++ lit " +"),
                   length (lit "@@ -" ++ range_text old oldCount ++ lit " +") + length new))].
Proof.
  intros Hold Hold0 Hoc Hnew Hnew0 Hnc.
  assert (Hlen : forall s : str, s <> [] -> 1 <= length s).
  { intros [|ch s] H; [congruence|simpl; lia]. }
  apply Hlen in Hold0, Hnew0.
  rewrite hunk_header_re_ast.
  unfold hunk_header, range_text.
  destruct oldCount as [k1|]; destruct newCount as [k2|]; simpl in Hoc, Hnc;
  repeat rewrite <- app_assoc; eval_lits; cbn [app];
  repeat rewrite rmatch_seq;
  repeat (rewrite rmatch_char_hit; cbv beta).
  all: eexists; split; [run_header; reflexivity|].
  all: cbn [caps]; repeat (progress (rewrite ?length_app; cbn [length]));
       do 3 f_equal; lia.
Qed.

Lemma exec_header (old : str) (oldCount : option str) (new : str)
    (newCount : option str) (tail : str) :
  all_digits old = true -> old <> [] -> count_ok oldCount = true ->
  all_digits new = true -> new <> [] -> count_ok newCount = true ->
  exists m,
    exec false hunk_header_re (hunk_header old oldCount new newCount tail) = Some m /\
    group (hunk_header old oldCount new newCount tail) m 1 = Some new.
Proof.
  intros Hold Hold0 Hoc Hnew Hnew0 Hnc.
  destruct (header_match old oldCount new newCount tail Hold Hold0 Hoc Hnew Hnew0 Hnc)
    as [y [Hy Hcaps]].
  exists (MResult 0 (pos y) (caps y)). split.
  - apply exec_from_hit. unfold match_at. rewrite Hy. reflexivity.
  - unfold group. cbn [m_caps]. rewrite Hcaps. cbn [cap_get Nat.eqb].
    f_equal. unfold hunk_header.
    replace (lit "@@ -" ++ range_text old oldCount ++ lit " +" ++
             range_text new newCount ++ lit " @@" ++ tail)
      with ((lit "@@ -" ++ range_text old oldCount ++ lit " +") ++ new ++
            (match newCount with Some k => lit "," ++ k | None => [] end
             ++ lit " @@" ++ tail)).
    + apply substring_middle.
    + unfold range_text. repeat rewrite <- app_assoc. reflexivity.
Qed.

Lemma to_number_exact (n : N) :
  (n <= exact_bound)%N -> to_number n = Num n.
Proof.
  intro H. unfold to_number. apply N.leb_le in H. rewrite H. reflexivity.
Qed.

Lemma parseInt10_digits (ds : str) :
  all_digits ds = true -> ds <> [] ->
  parseInt10 ds = to_number (digits_value 0 ds).
Proof.
  intros H H0. destruct ds as [|c ds]; [congruence|].
  simpl in H. apply andb_true_iff in H. destruct H as [Hc _].
  unfold parseInt10. rewrite Hc. reflexivity.
Qed.

Lemma after_header_hunk_header (old : str) (oldCount : option str) (new : str)
    (newCount : option str) (tail : str) (currentLineNumber : jsnum) :
  all_digits old = true -> old <> [] -> count_ok oldCount = true ->
  all_digits new = true -> new <> [] -> count_ok newCount = true ->
  after_header (hunk_header old oldCount new newCount tail) currentLineNumber
  = to_number (digits_value 0 new).
Proof.
  intros Hold Hold0 Hoc Hnew Hnew0 Hnc.
  destruct (exec_header old oldCount new newCount tail Hold Hold0 Hoc Hnew Hnew0 Hnc)
    as [m [Hm Hg]].
  unfold after_header, parseInt_group. rewrite Hm, Hg.
  apply (parseInt10_digits new Hnew Hnew0).
Qed.

Lemma split_on_one_line (l : str) :
  one_line l = true -> split_on newline l = [l].
Proof.
  induction l as [|c l IH]; intro H; [reflexivity|].
  simpl in H. apply andb_true_iff in H. destruct H as [Hc Hl].
  apply negb_true_iff in Hc. cbn [split_on]. rewrite Hc, (IH Hl). reflexivity.
Qed.

Lemma split_on_line_break (l rest : str) :
  one_line l = true ->
  split_on newline (l ++ newline :: rest) = l :: split_on newline rest.
Proof.
  induction l as [|c l IH]; intro H.
  - cbn [app split_on]. rewrite N.eqb_refl. reflexivity.
  - simpl in H. apply andb_true_iff in H. destruct H as [Hc Hl].
    apply negb_true_iff in Hc. cbn [app split_on]. rewrite Hc, (IH Hl). reflexivity.
Qed.

Lemma split_on_join (ls : list str) :
  ls <> [] ->
  Forall (fun l => one_line l = true) ls ->
  split_on newline (join [newline] ls) = ls.
Proof.
  induction ls as [|l ls IH]; intros H0 H; [congruence|].
  inversion H as [|? ? Hl Hls]; subst.
  destruct ls as [|l' ls].
  - apply split_on_one_line. exact Hl.
  - change (join [newline] (l :: l' :: ls))
      with (l ++ newline :: join [newline] (l' :: ls)).
    rewrite (split_on_line_break l _ Hl). f_equal. apply IH; [discriminate|exact Hls].
Qed.

Lemma silent_line_shape (line : str) :
  is_silent_line line = true ->
  is_header_line line = false /\ is_addition_line line = false /\
  is_deletion_line line = false.
Proof.
  unfold is_silent_line. intro H.
  apply andb_true_iff in H. destruct H as [H H3].
  apply andb_true_iff in H. destruct H as [H1 H2].
  apply negb_true_iff in H1, H2, H3. auto.
Qed.

Lemma deletion_line_shape (line : str) :
  is_deletion_line line = true ->
  is_header_line line = false /\ is_addition_line line = false.
Proof.
  unfold is_deletion_line, is_header_line, is_addition_line.
  destruct line as [|c0 line]; [discriminate|].
  change (startsWith (lit "-") (c0 :: line)) with (N.eqb (chr "-") c0 && true).
  rewrite andb_true_r. intro H. apply andb_true_iff in H. destruct H as [H _].
  apply N.eqb_eq in H. subst c0. split; reflexivity.
Qed.

Lemma scan_silent (lines preamble todo : list str) :
  Forall (fun l => is_silent_line l = true) preamble ->
  forall i currentLineNumber,
  exists n,
    scan lines i (preamble ++ todo) currentLineNumber
    = scan lines (i + length preamble) todo n.
Proof.
  induction preamble as [|l preamble IH]; intros H i cur.
  - exists cur. simpl. rewrite Nat.add_0_r. reflexivity.
  - inversion H as [|? ? Hl Hrest]; subst.
    destruct (silent_line_shape l Hl) as [Hh [Ha Hd]].
    cbn [app]. rewrite scan_cons, Hh, Ha, Hd.
    destruct (is_context_line l).
    + destruct (IH Hrest (S i) (incr cur)) as [n Hn]. exists n. rewrite Hn.
      f_equal. simpl. lia.
    + destruct (IH Hrest (S i) cur) as [n Hn]. exists n. rewrite Hn.
      f_equal. simpl. lia.
Qed.

Lemma scan_deletions (lines body todo : list str) :
  Forall (fun l => is_deletion_line l = true) body ->
  forall i currentLineNumber,
    map kind_and_line (scan lines i (body ++ todo) currentLineNumber)
    = repeat (deletion, currentLineNumber) (length body)
      ++ map kind_and_line (scan lines (i + length body) todo currentLineNumber).
Proof.
  induction body as [|l body IH]; intros H i cur.
  - simpl. rewrite Nat.add_0_r. reflexivity.
  - inversion H as [|? ? Hl Hrest]; subst.
    destruct (deletion_line_shape l Hl) as [Hh Ha].
    cbn [app]. rewrite scan_cons, Hh, Ha, Hl.
    cbn [map length repeat app]. unfold kind_and_line at 1. cbn [type lineNumber].
    rewrite (IH Hrest).
    replace (S i + length body) with (i + S (length body)) by lia. reflexivity.
Qed.

Lemma digit_not_newline (c : char) :
  is_digit c = true -> N.eqb c newline = false.
Proof.
  intro H. destruct (N.eqb c newline) eqn:E; [|reflexivity].
  apply N.eqb_eq in E. subst c. discriminate.
Qed.

Lemma one_line_digits (ds : str) : all_digits ds = true -> one_line ds = true.
Proof.
  induction ds as [|c ds IH]; intro H; [reflexivity|].
  simpl in H. apply andb_true_iff in H. destruct H as [Hc Hds].
  simpl. rewrite (digit_not_newline c Hc), (IH Hds). reflexivity.
Qed.

Lemma one_line_app (a b : str) :
  one_line (a ++ b) = one_line a && one_line b.
Proof. unfold one_line. apply forallb_app. Qed.

Lemma one_line_range (start : str) (count : option str) :
  all_digits start = true -> count_ok count = true ->
  one_line (range_text start count) = true.
Proof.
  intros Hs Hc. unfold range_text. rewrite one_line_app, (one_line_digits start Hs).
  destruct count as [k|]; [|reflexivity].
  rewrite one_line_app, (one_line_digits k Hc). reflexivity.
Qed.

Lemma one_line_hunk_header (old : str) (oldCount : option str) (new : str)
    (newCount : option str) (tail : str) :
  all_digits old = true -> count_ok oldCount = true ->
  all_digits new = true -> count_ok newCount = true ->
  one_line tail = true ->
  one_line (hunk_header old oldCount new newCount tail) = true.
Proof.
  intros Ho Hoc Hn Hnc Ht. unfold hunk_header.
  repeat rewrite one_line_app.
  rewrite (one_line_range old oldCount Ho Hoc), (one_line_range new newCount Hn Hnc), Ht.
  reflexivity.
Qed.

Lemma header_is_header (old : str) (oldCount : option str) (new : str)
    (newCount : option str) (tail : str) :
  is_header_line (hunk_header old oldCount new newCount tail) = true.
Proof. reflexivity. Qed.

Lemma scan_silent_nothing (lines todo : list str) :
  Forall (fun l => is_silent_line l = true) todo ->
  forall i currentLineNumber, scan lines i todo currentLineNumber = [].
Proof.
  induction todo as [|l todo IH]; intros H i cur; [reflexivity|].
  inversion H as [|? ? Hl Hrest]; subst.
  destruct (silent_line_shape l Hl) as [Hh [Ha Hd]].
  rewrite scan_cons, Hh, Ha, Hd.
  destruct (is_context_line l); apply IH; exact Hrest.
Qed.

(** C7: for every single-hunk diff (file-header lines, one hunk header
    [@@ -old[,n] +new[,n] @@], then only deletion lines, none of them a
    [---] marker, with or without a final line feed) the parser emits one
    record per body line, and each is a Deletion whose lineNumber is the
    new-start declared in the hunk header, as a number of JavaScript: the
    counter is set from the header and no deletion advances it.  Up to 2^53
    that number is the declared new-start itself. *)
Theorem deletions_share_new_start (preamble : list str)
    (old : str) (oldCount : option str) (new : str) (newCount : option str)
    (tail : str) (body : list str) (trailing_newline : bool) :
  all_digits old = true -> old <> [] -> count_ok oldCount = true ->
  all_digits new = true -> new <> [] -> count_ok newCount = true ->
  one_line tail = true ->
  Forall (fun l => is_silent_line l = true /\ one_line l = true) preamble ->
  Forall (fun l => is_deletion_line l = true /\ one_line l = true) body ->
  let diffOutput :=
    join [newline]
      (preamble ++ hunk_header old oldCount new newCount tail
                :: body ++ last_lines trailing_newline) in
  length (parseDiffOutput diffOutput) = length body /\
  forall c, In c (parseDiffOutput diffOutput) ->
    type c = deletion /\
    lineNumber c = to_number (digits_value 0 new) /\
    ((digits_value 0 new <= exact_bound)%N ->
     lineNumber c = Num (digits_value 0 new)).
Proof.
  intros Hold Hold0 Hoc Hnew Hnew0 Hnc Htail Hpre Hbody diffOutput.
  subst diffOutput.
  remember (hunk_header old oldCount new newCount tail) as header eqn:Eheader.
  remember (last_lines trailing_newline) as trailer eqn:Etrailer.
  assert (Htrailer : Forall (fun l => is_silent_line l = true) trailer /\
                     Forall (fun l => one_line l = true) trailer).
  { subst trailer. destruct trailing_newline; split; repeat constructor. }
  destruct Htrailer as [Hquiet Hone].
  assert (Hmap : map kind_and_line
                   (parseDiffOutput
                      (join [newline] (preamble ++ header :: body ++ trailer)))
                 = repeat (deletion, to_number (digits_value 0 new))
                     (length body)).
  { unfold parseDiffOutput. rewrite split_on_join.
    - unfold parseDiffLines.
      destruct (scan_silent (preamble ++ header :: body ++ trailer) preamble
                  (header :: body ++ trailer)) with
        (i := 0) (currentLineNumber := Num 0) as [n Hn].
      { eapply Forall_impl; [|exact Hpre]. intros l [H _]. exact H. }
      rewrite Hn. set (lines := preamble ++ header :: body ++ trailer).
      rewrite scan_cons. rewrite Eheader at 1. rewrite header_is_header.
      rewrite Eheader at 1.
      rewrite (after_header_hunk_header old oldCount new newCount tail n
                 Hold Hold0 Hoc Hnew Hnew0 Hnc).
      rewrite scan_deletions.
      + rewrite (scan_silent_nothing lines trailer Hquiet). apply app_nil_r.
      + eapply Forall_impl; [|exact Hbody]. intros l [H _]. exact H.
    - destruct preamble; discriminate.
    - apply Forall_app. split.
      + eapply Forall_impl; [|exact Hpre]. intros l [_ H]. exact H.
      + constructor.
        * subst header. apply one_line_hunk_header; assumption.
        * apply Forall_app. split; [|exact Hone].
          eapply Forall_impl; [|exact Hbody]. intros l [_ H]. exact H. }
  subst trailer. split.
  - pose proof (f_equal (@length _) Hmap) as Hlen.
    rewrite length_map, repeat_length in Hlen. exact Hlen.
  - intros c Hc. apply (in_map kind_and_line) in Hc. rewrite Hmap in Hc.
    apply repeat_spec in Hc. unfold kind_and_line in Hc.
    inversion Hc as [[Hkind Hnum]].
    split; [reflexivity|]. split; [reflexivity|].
    intro Hsmall. rewrite Hnum. apply to_number_exact. exact Hsmall.
Qed.

Lemma deletions_share_new_start_witness :
  let diffOutput :=
    join [newline]
      ([lit "--- a/x.ts"; lit "+++ b/x.ts"]
       ++ hunk_header (lit "3") (Some (lit "2")) (lit "3") (Some (lit "0")) (lit " f()")
       :: [lit "-foo"; lit "-bar"] ++ last_lines true) in
  length (parseDiffOutput diffOutput) = 2 /\
  forall c, In c (parseDiffOutput diffOutput) ->
    type c = deletion /\ lineNumber c = Num 3 /\
    ((3 <= exact_bound)%N -> lineNumber c = Num 3).
Proof.
  apply (deletions_share_new_start [lit "--- a/x.ts"; lit "+++ b/x.ts"]
           (lit "3") (Some (lit "2")) (lit "3") (Some (lit "0")) (lit " f()")
           [lit "-foo"; lit "-bar"] true);
    try reflexivity; try discriminate; repeat constructor.
Defined.

(** A header the expression does not match leaves the counter alone: the
    deletions that follow are numbered 0. *)
Lemma malformed_header_keeps_counter :
  parseDiffOutput (lit ("@@ garbled @@" ++ nl ++ "-foo"))
  = [mkGitChange deletion (Num 0) (lit "foo") []].
Proof. vm_compute. reflexivity. Qed.

End DiffFacts.

(** * Where the matcher goes *)

Module TraceFacts.
Import JsString Regex RegexTrace RegexFacts.

Lemma along_refl (x : mstate) : along x x.
Proof. exists 0. split; [reflexivity|lia]. Qed.

Lemma along_trans (x y z : mstate) : along x y -> along y z -> along x z.
Proof.
  intros [k1 [R1 P1]] [k2 [R2 P2]]. exists (k1 + k2). split.
  - rewrite R2, R1, skipn_skipn. f_equal. lia.
  - lia.
Qed.

Lemma along_caps (x y : mstate) (cs : list (nat * (nat * nat))) :
  along x y -> along x (MState (rest y) (pos y) cs).
Proof. intros [k H]. exists k. exact H. Qed.

Lemma along_clear (gs : list nat) (x y : mstate) :
  along (cap_clear gs x) y -> along x y.
Proof. intros [k H]. exists k. exact H. Qed.

(** What a successful character matcher has read. *)
Lemma char_matcher_sound (ok : char -> bool) (x : mstate) (c : cont) (z : mstate) :
  char_matcher ok x c = Some z ->
  exists a tl, rest x = a :: tl /\ ok a = true /\
               c (MState tl (S (pos x)) (caps x)) = Some z.
Proof.
  unfold char_matcher. destruct (rest x) as [|a tl]; [discriminate|].
  destruct (ok a) eqn:E; [|discriminate]. intro H. exists a, tl. auto.
Qed.

(** What a successful repetition of a character matcher has read: at least
    [min] characters that the matcher accepts. *)
Lemma repeat_char_sound (ok : char -> bool) :
  forall fuel min greedy x c z,
    repeat_matcher (char_matcher ok) [] fuel min None greedy x c = Some z ->
    exists ds tl, rest x = ds ++ tl /\ forallb ok ds = true /\
                  min <= length ds /\
                  c (MState tl (pos x + length ds) (caps x)) = Some z.
Proof.
  induction fuel as [|fuel IH]; intros min greedy x c z H; [discriminate|].
  cbn [repeat_matcher] in H. rewrite cap_clear_nil in H.
  assert (Hstop : min = 0 -> c x = Some z ->
            exists ds tl, rest x = ds ++ tl /\ forallb ok ds = true /\
                          min <= length ds /\
                          c (MState tl (pos x + length ds) (caps x)) = Some z).
  { intros Hmin Hc. exists [], (rest x). destruct x as [r p cs]. subst min.
    cbn [rest pos caps length app forallb]. rewrite Nat.add_0_r. auto. }
  assert (Hgo : char_matcher ok x
            (fun y => if (min =? 0) && (pos y =? pos x) then None
                      else repeat_matcher (char_matcher ok) [] fuel (Nat.pred min)
                             (option_map Nat.pred None) greedy y c) = Some z ->
            exists ds tl, rest x = ds ++ tl /\ forallb ok ds = true /\
                          min <= length ds /\
                          c (MState tl (pos x + length ds) (caps x)) = Some z).
  { intro Hd. apply char_matcher_sound in Hd.
    destruct Hd as [a [tl [Hrest [Ha Hd]]]]. cbn [pos] in Hd.
    replace (S (pos x) =? pos x) with false in Hd
      by (symmetry; apply Nat.eqb_neq; lia).
    rewrite andb_false_r in Hd. cbn [option_map] in Hd.
    apply IH in Hd. destruct Hd as [ds [tl' [Htl [Hds [Hmin Hc]]]]].
    cbn [rest pos caps] in Htl, Hc.
    exists (a :: ds), tl'. repeat split.
    - rewrite Hrest, Htl. reflexivity.
    - cbn [forallb]. rewrite Ha, Hds. reflexivity.
    - cbn [length]. lia.
    - cbn [length]. replace (pos x + S (length ds)) with (S (pos x) + length ds) by lia.
      exact Hc. }
  destruct (min =? 0) eqn:Emin; cbn [negb] in H.
  - apply Nat.eqb_eq in Emin.
    destruct greedy; unfold orelse in H.
    + destruct (char_matcher ok x _) eqn:E; [apply Hgo; congruence|apply Hstop; assumption].
    + destruct (c x) eqn:E; [apply Hstop; congruence|apply Hgo; exact H].
  - apply Hgo. exact H.
Qed.

(** An optional character: read or passed over. *)
Lemma opt_char_sound (ok : char -> bool) (fuel : nat) (greedy : bool)
    (x : mstate) (c : cont) (z : mstate) :
  repeat_matcher (char_matcher ok) [] fuel 0 (Some 1) greedy x c = Some z ->
  exists y, along x y /\ caps y = caps x /\ c y = Some z.
Proof.
  intro H. destruct fuel as [|fuel]; [discriminate|].
  cbn [repeat_matcher Nat.eqb negb] in H. rewrite cap_clear_nil in H.
  assert (Hstop : c x = Some z ->
            exists y, along x y /\ caps y = caps x /\ c y = Some z).
  { intro Hc. exists x. split; [apply along_refl|auto]. }
  assert (Hgo : char_matcher ok x
            (fun y => if true && (pos y =? pos x) then None
                      else repeat_matcher (char_matcher ok) [] fuel (Nat.pred 0)
                             (option_map Nat.pred (Some 1)) greedy y c) = Some z ->
            exists y, along x y /\ caps y = caps x /\ c y = Some z).
  { intro Hd. apply char_matcher_sound in Hd.
    destruct Hd as [a [tl [Hrest [Ha Hd]]]]. cbn [pos] in Hd.
    replace (S (pos x) =? pos x) with false in Hd
      by (symmetry; apply Nat.eqb_neq; lia).
    cbn [andb option_map Nat.pred] in Hd. rewrite repeat_matcher_done in Hd.
    eexists. split; [|split; [|exact Hd]]; [|reflexivity].
    exists 1. cbn [rest pos]. rewrite Hrest. split; [reflexivity|lia]. }
  destruct greedy; unfold orelse in H.
  - destruct (char_matcher ok x _) eqn:E; [apply Hgo; congruence|apply Hstop; assumption].
  - destruct (c x) eqn:E; [apply Hstop; congruence|apply Hgo; exact H].
Qed.

(** A repetition hands over a state further along, as long as its body
    does. *)
Lemma repeat_matcher_along (m : matcher) (gs : list nat) :
  (forall x c z, m x c = Some z -> exists y, c y = Some z /\ along x y) ->
  forall fuel min max greedy x c z,
    repeat_matcher m gs fuel min max greedy x c = Some z ->
    exists y, c y = Some z /\ along x y.
Proof.
  intros Hm fuel. induction fuel as [|fuel IH]; intros min max greedy x c z H.
  - simpl in H. destruct max as [[|k]|]; try discriminate.
    exists x. split; [exact H|apply along_refl].
  - simpl in H.
    assert (Hstop : c x = Some z -> exists y, c y = Some z /\ along x y).
    { intro Hc. exists x. split; [exact Hc|apply along_refl]. }
    assert (Hgo : m (cap_clear gs x)
              (fun y => if (min =? 0) && (pos y =? pos x) then None
                        else repeat_matcher m gs fuel (Nat.pred min)
                               (option_map Nat.pred max) greedy y c) = Some z ->
              exists y, c y = Some z /\ along x y).
    { intro Hd. apply Hm in Hd. destruct Hd as [y [Hy Hal]].
      destruct ((min =? 0) && (pos y =? pos x)); [discriminate|].
      apply IH in Hy. destruct Hy as [y' [Hy' Hal']].
      exists y'. split; [exact Hy'|].
      apply along_trans with y; [apply along_clear with gs; exact Hal|exact Hal']. }
    destruct max as [[|k]|].
    + apply Hstop. exact H.
    + destruct (negb (min =? 0)); [apply Hgo; exact H|].
      destruct greedy; unfold orelse in H.
      * destruct (m (cap_clear gs x) _) eqn:E; [apply Hgo; congruence|apply Hstop; exact H].
      * destruct (c x) eqn:E; [apply Hstop; congruence|apply Hgo; exact H].
    + destruct (negb (min =? 0)); [apply Hgo; exact H|].
      destruct greedy; unfold orelse in H.
      * destruct (m (cap_clear gs x) _) eqn:E; [apply Hgo; congruence|apply Hstop; exact H].
      * destruct (c x) eqn:E; [apply Hstop; congruence|apply Hgo; exact H].
Qed.

(** Every result of a matcher is a result of its continuation, called on a
    state further along the same input. *)
Lemma rmatch_along (ic : bool) (r : regex) :
  forall x c z, rmatch ic r x c = Some z ->
    exists y, c y = Some z /\ along x y.
Proof.
  assert (Hchar : forall ok x c z, char_matcher ok x c = Some z ->
            exists y, c y = Some z /\ along x y).
  { intros ok x c z H. apply char_matcher_sound in H.
    destruct H as [a [tl [Hrest [_ Hc]]]]. eexists. split; [exact Hc|].
    exists 1. cbn [rest pos]. rewrite Hrest. split; [reflexivity|lia]. }
  induction r as [| a | | neg items | r1 IH1 r2 IH2 | r1 IH1 r2 IH2
                 | min max greedy r1 IH1 | i r1 IH1 | b r1 IH1 | |];
    intros x c z H; simpl in H; try (apply Hchar in H; exact H).
  - exists x. split; [exact H|apply along_refl].
  - apply IH1 in H. destruct H as [y1 [H A1]].
    apply IH2 in H. destruct H as [y2 [H A2]].
    exists y2. split; [exact H|]. apply along_trans with y1; assumption.
  - unfold orelse in H. destruct (rmatch ic r1 x c) eqn:E.
    + inversion H; subst. apply IH1 in E. exact E.
    + apply IH2 in H. exact H.
  - apply repeat_matcher_along in H; [exact H|exact IH1].
  - apply IH1 in H. destruct H as [y [Hy A]].
    eexists. split; [exact Hy|]. apply along_caps with (cs := (i, (pos x, pos y)) :: caps y) in A.
    exact A.
  - destruct b.
    + destruct (rmatch ic r1 x (fun y => Some y)) as [y1|]; [|discriminate].
      eexists. split; [exact H|]. exists 0. split; [reflexivity|simpl; lia].
    + destruct (rmatch ic r1 x (fun y => Some y)); [discriminate|].
      exists x. split; [exact H|apply along_refl].
  - destruct (pos x =? 0); [|discriminate].
    exists x. split; [exact H|apply along_refl].
  - destruct (rest x); [|discriminate].
    exists x. split; [exact H|apply along_refl].
Qed.

(** A matcher whose continuation fails on every state further along
    fails. *)
Lemma rmatch_blocked (ic : bool) (r : regex) (x : mstate) (c : cont) :
  (forall y, along x y -> c y = None) -> rmatch ic r x c = None.
Proof.
  intro H. destruct (rmatch ic r x c) as [z|] eqn:E; [|reflexivity].
  apply rmatch_along in E. destruct E as [y [Hy A]].
  rewrite (H y A) in Hy. discriminate.
Qed.

(** Where [exec] finds its match. *)
Lemma exec_from_found (ic : bool) (r : regex) :
  forall s i res, exec_from ic r s i = Some res ->
    exists k, match_at ic r (skipn k s) (i + k) = Some res.
Proof.
  induction s as [|ch s IH]; intros i res H; simpl in H.
  - destruct (match_at ic r [] i) eqn:E; [|discriminate].
    exists 0. rewrite Nat.add_0_r. simpl. congruence.
  - destruct (match_at ic r (ch :: s) i) eqn:E.
    + exists 0. rewrite Nat.add_0_r. simpl. congruence.
    + apply IH in H. destruct H as [k Hk]. exists (S k).
      replace (i + S k) with (S i + k) by lia. exact Hk.
Qed.

End TraceFacts.

(** * More on the diff parser: what is emitted and how it is numbered *)

Module DiffNumbering.
Import JsString Regex RegexTrace GitUtils DiffLines RegexFacts TraceFacts DiffFacts.

Lemma scan_kinds (lines : list str) :
  forall todo i currentLineNumber,
    map kind_and_content (scan lines i todo currentLineNumber)
    = map (fun line => (kind_of line, substring_from 1 line))
        (filter is_change_line todo).
Proof.
  induction todo as [|line todo IH]; intros i cur; [reflexivity|].
  rewrite scan_cons. cbn [filter]. unfold is_change_line at 1, kind_of at 1.
  destruct (is_header_line line) eqn:Eh.
  { assert (Ha : is_addition_line line = false /\ is_deletion_line line = false).
    { destruct line as [|c0 line]; [discriminate|].
      unfold is_header_line in Eh.
      change (startsWith (lit "@@") (c0 :: line))
        with (N.eqb (chr "@") c0 && startsWith (lit "@") line) in Eh.
      apply andb_true_iff in Eh. destruct Eh as [Eh _].
      apply N.eqb_eq in Eh. subst c0. split; reflexivity. }
    destruct Ha as [Ha Hd]. rewrite Ha, Hd. apply IH. }
  destruct (is_addition_line line) eqn:Ea.
  { cbn [orb map]. rewrite IH. unfold kind_of. rewrite Ea. reflexivity. }
  destruct (is_deletion_line line) eqn:Ed.
  { cbn [orb map]. rewrite IH. unfold kind_of. rewrite Ea. reflexivity. }
  cbn [orb]. destruct (is_context_line line); apply IH.
Qed.

(** X1: the parser emits exactly one record for every line of the diff text
    that starts with [+] or [-] without starting with [+++] or [---], in the
    order of the lines: an addition or a deletion, whose content is the line
    without its first character. *)
Theorem records_follow_change_lines (diffOutput : str) :
  map kind_and_content (parseDiffOutput diffOutput)
  = map (fun line => (kind_of line, substring_from 1 line))
      (filter is_change_line (split_on newline diffOutput)).
Proof. unfold parseDiffOutput, parseDiffLines. apply scan_kinds. Qed.

(** *** Numbering *)

Lemma change_indices_cons (line : str) (body : list str) :
  change_indices (line :: body)
  = (if is_change_line line then [0] else []) ++ map S (change_indices body).
Proof.
  unfold change_indices. cbn [length seq filter nth].
  rewrite <- seq_shift, filter_map_comm. cbn [nth].
  destruct (is_change_line line); reflexivity.
Qed.

Lemma new_side_lines_cons (line : str) (ls : list str) :
  new_side_lines (line :: ls)
  = ((if is_new_side_line line then 1 else 0) + new_side_lines ls)%N.
Proof.
  unfold new_side_lines. cbn [filter].
  destruct (is_new_side_line line); cbn [length]; lia.
Qed.

(** From a counter [n] on, and as long as no hunk header comes, the record
    of a line carries [n] plus the number of new-side lines passed, as long
    as the counter stays within the natural numbers that are doubles. *)
Lemma scan_numbered (lines : list str) :
  forall body, Forall (fun l => is_header_line l = false) body ->
  forall i n,
    (n + new_side_lines body <= exact_bound)%N ->
    map lineNumber (scan lines i body (Num n))
    = map (fun j => Num (n + new_side_lines (firstn j body)))
        (change_indices body).
Proof.
  induction body as [|line body IH]; intros H i n Hn; [reflexivity|].
  inversion H as [|? ? Hh Hbody]; subst.
  assert (Htail : forall k : N,
            map (fun j => Num (n + new_side_lines (firstn j (line :: body))))
              (map S (change_indices body))
            = map (fun j => Num (n + (if is_new_side_line line then 1 else 0)
                                 + new_side_lines (firstn j body)))
                (change_indices body)).
  { intros _. rewrite map_map. apply map_ext. intro j.
    cbn [firstn]. rewrite new_side_lines_cons. f_equal. lia. }
  rewrite new_side_lines_cons in Hn.
  assert (Hstep : is_new_side_line line = true ->
                  incr (Num n) = Num (n + 1) /\
                  (n + 1 + new_side_lines body <= exact_bound)%N).
  { intro Hside. rewrite Hside in Hn. split; [|lia].
    cbn [incr]. apply DiffFacts.to_number_exact. lia. }
  assert (Hstay : is_new_side_line line = false ->
                  (n + new_side_lines body <= exact_bound)%N).
  { intro Hside. rewrite Hside in Hn. lia. }
  rewrite scan_cons, Hh, change_indices_cons, map_app, (Htail 0%N).
  unfold is_change_line. unfold is_new_side_line in Hstep, Hstay |- *.
  destruct (is_addition_line line) eqn:Ea.
  { destruct (Hstep eq_refl) as [Hincr Hnext].
    cbn [orb map app firstn lineNumber]. f_equal.
    - unfold new_side_lines. cbn [filter length]. f_equal. lia.
    - rewrite Hincr. apply IH; assumption. }
  destruct (is_deletion_line line) eqn:Ed.
  { cbn [orb map app firstn lineNumber]. f_equal.
    - unfold new_side_lines. cbn [filter length]. f_equal. lia.
    - destruct (is_context_line line) eqn:Ec.
      + apply context_line_shape in Ec. destruct Ec as [_ [_ [Ec _]]]. congruence.
      + rewrite N.add_0_r. apply IH; [exact Hbody|]. apply Hstay. reflexivity. }
  cbn [orb app]. destruct (is_context_line line).
  - destruct (Hstep eq_refl) as [Hincr Hnext].
    rewrite Hincr. apply IH; assumption.
  - rewrite N.add_0_r. apply IH; [exact Hbody|]. apply Hstay. reflexivity.
Qed.

(** X2: in a single-hunk diff (file-header lines, one hunk header
    [@@ -old[,n] +new[,n] @@], then a body without further hunk headers)
    whose line numbers stay within 2^53, where the numbers of JavaScript
    count exactly, the record emitted for a body line carries the new-start
    of the header plus the number of addition and context lines that
    precede the line in the body: additions are numbered by their line in
    the new file, and a deletion carries the number of the new-file line
    that follows it. *)
Theorem hunk_records_numbered_by_new_side (preamble : list str)
    (old : str) (oldCount : option str) (new : str) (newCount : option str)
    (tail : str) (body : list str) :
  all_digits old = true -> old <> [] -> count_ok oldCount = true ->
  all_digits new = true -> new <> [] -> count_ok newCount = true ->
  one_line tail = true ->
  Forall (fun l => is_silent_line l = true /\ one_line l = true) preamble ->
  Forall (fun l => is_header_line l = false /\ one_line l = true) body ->
  (digits_value 0 new + new_side_lines body <= exact_bound)%N ->
  map lineNumber
    (parseDiffOutput
       (join [newline]
          (preamble ++ hunk_header old oldCount new newCount tail :: body)))
  = map (fun j => Num (digits_value 0 new + new_side_lines (firstn j body)))
      (change_indices body).
Proof.
  intros Hold Hold0 Hoc Hnew Hnew0 Hnc Htail Hpre Hbody Hsmall.
  remember (hunk_header old oldCount new newCount tail) as header eqn:Eheader.
  unfold parseDiffOutput. rewrite split_on_join.
  - unfold parseDiffLines.
    destruct (scan_silent (preamble ++ header :: body) preamble (header :: body))
      with (i := 0) (currentLineNumber := Num 0) as [n Hn].
    { eapply Forall_impl; [|exact Hpre]. intros l [H _]. exact H. }
    rewrite Hn. set (lines := preamble ++ header :: body).
    rewrite scan_cons. rewrite Eheader at 1. rewrite header_is_header.
    rewrite Eheader at 1.
    rewrite (after_header_hunk_header old oldCount new newCount tail n
               Hold Hold0 Hoc Hnew Hnew0 Hnc).
    rewrite DiffFacts.to_number_exact by lia.
    apply scan_numbered; [|exact Hsmall].
    eapply Forall_impl; [|exact Hbody]. intros l [H _]. exact H.
  - destruct preamble; discriminate.
  - apply Forall_app. split.
    + eapply Forall_impl; [|exact Hpre]. intros l [_ H]. exact H.
    + constructor.
      * subst header. apply one_line_hunk_header; assumption.
      * eapply Forall_impl; [|exact Hbody]. intros l [_ H]. exact H.
Qed.

Lemma hunk_records_numbered_by_new_side_witness :
  map lineNumber
    (parseDiffOutput
       (join [newline]
          ([lit "--- a/x.ts"; lit "+++ b/x.ts"]
           ++ hunk_header (lit "10") (Some (lit "4")) (lit "12") (Some (lit "5"))
                (lit " function f() {")
           :: [lit " a"; lit "-b"; lit "+c"; lit "+d"; lit " e"; lit "-f"; []])))
  = [Num 13; Num 13; Num 14; Num 16].
Proof.
  apply (hunk_records_numbered_by_new_side
           [lit "--- a/x.ts"; lit "+++ b/x.ts"]
           (lit "10") (Some (lit "4")) (lit "12") (Some (lit "5"))
           (lit " function f() {")
           [lit " a"; lit "-b"; lit "+c"; lit "+d"; lit " e"; lit "-f"; []]);
    try reflexivity; try discriminate; try (vm_compute; discriminate);
    repeat constructor.
Defined.

(** *** The counter is always a number *)

Lemma digit_class (ds : str) :
  forallb (fun ch => xorb false (set_has_ic false [CDigit] ch)) ds = true ->
  all_digits ds = true.
Proof.
  unfold all_digits. intro H. rewrite forallb_forall in *. intros ch Hch.
  specialize (H ch Hch). unfold set_has_ic, set_has in H. simpl in H.
  rewrite orb_false_r in H. exact H.
Qed.

(** Group 1 of a match of the header expression is a run of digits of the
    line, at least one. *)
Lemma header_group_digits (s : str) (i : nat) (z : mstate) :
  rmatch false hunk_header_re (MState s i []) (fun y => Some y) = Some z ->
  exists p ds, cap_get 1 (caps z) = Some (i + p, i + p + length ds) /\
               ds <> [] /\ all_digits ds = true /\
               firstn (length ds) (skipn p s) = ds.
Proof.
  intro H. rewrite hunk_header_re_ast in H.
  do 6 rewrite rmatch_seq in H.
  apply rmatch_along in H. destruct H as [y0 [H [p [Hrest Hpos]]]].
  cbn [rest pos] in Hrest, Hpos.
  cbn [rmatch groups_in] in H.
  apply repeat_char_sound in H.
  destruct H as [ds [tl [Hds [Hok [Hmin H]]]]].
  apply opt_char_sound in H. destruct H as [y2 [_ [Hc2 H]]].
  apply repeat_char_sound in H. destruct H as [ds3 [tl3 [_ [_ [_ H]]]]].
  apply char_matcher_sound in H. destruct H as [a4 [tl4 [_ [_ H]]]].
  apply char_matcher_sound in H. destruct H as [a5 [tl5 [_ [_ H]]]].
  apply char_matcher_sound in H. destruct H as [a6 [tl6 [_ [_ H]]]].
  inversion H; subst z. cbn [caps]. rewrite Hc2. cbn [cap_set caps cap_get Nat.eqb].
  exists p, ds. repeat split.
  - rewrite Hpos. reflexivity.
  - destruct ds; [simpl in Hmin; lia|discriminate].
  - apply digit_class. exact Hok.
  - rewrite <- Hrest, Hds, firstn_app, firstn_all, Nat.sub_diag. simpl.
    apply app_nil_r.
Qed.

Lemma to_number_is_number (n : N) : is_number (to_number n) = true.
Proof.
  unfold to_number. destruct (n <=? exact_bound)%N; [reflexivity|].
  cbv zeta.
  match goal with |- context [if ?b then Num ?v else Infinity] =>
    destruct b end; reflexivity.
Qed.

Lemma after_header_number (line : str) (currentLineNumber : jsnum) :
  is_number currentLineNumber = true ->
  is_number (after_header line currentLineNumber) = true.
Proof.
  intro Hcur. unfold after_header.
  destruct (exec false hunk_header_re line) as [m|] eqn:E; [|exact Hcur].
  unfold exec in E. apply exec_from_found in E. destruct E as [k E].
  unfold match_at in E.
  destruct (rmatch false hunk_header_re (MState (skipn k line) (0 + k) [])
              (fun y => Some y)) as [z|] eqn:Ez; [|discriminate].
  inversion E; subst m.
  apply header_group_digits in Ez.
  destruct Ez as [p [ds [Hcap [Hne [Hds Hfirst]]]]].
  unfold parseInt_group, group. cbn [m_caps]. rewrite Hcap.
  unfold substring.
  replace (0 + k + p + length ds - (0 + k + p)) with (length ds) by lia.
  replace (0 + k + p) with (p + k) by lia.
  rewrite <- skipn_skipn, Hfirst, (parseInt10_digits ds Hds Hne).
  apply to_number_is_number.
Qed.

Lemma scan_numbers (lines : list str) :
  forall todo i currentLineNumber,
    is_number currentLineNumber = true ->
    forallb (fun c => is_number (lineNumber c))
      (scan lines i todo currentLineNumber) = true.
Proof.
  assert (Hincr : forall v, is_number v = true -> is_number (incr v) = true).
  { intros [n| |] H; [apply to_number_is_number|discriminate|reflexivity]. }
  induction todo as [|line todo IH]; intros i cur Hcur; [reflexivity|].
  rewrite scan_cons.
  destruct (is_header_line line); [apply IH, after_header_number, Hcur|].
  destruct (is_addition_line line).
  { cbn [forallb lineNumber]. rewrite Hcur. apply IH, Hincr, Hcur. }
  destruct (is_deletion_line line).
  { cbn [forallb lineNumber]. rewrite Hcur. apply IH, Hcur. }
  destruct (is_context_line line); [apply IH, Hincr, Hcur|apply IH, Hcur].
Qed.

(** X3: whatever the diff text, the line number of every record is a
    number, never NaN: the counter starts at 0, and a hunk header only
    replaces it when the header expression matches, in which case the
    captured new-start is a non-empty run of digits that [parseInt]
    reads. *)
Theorem line_numbers_are_never_NaN (diffOutput : str) :
  forallb (fun c => is_number (lineNumber c)) (parseDiffOutput diffOutput) = true.
Proof.
  unfold parseDiffOutput, parseDiffLines. apply scan_numbers. reflexivity.
Qed.

(** *** Lines that look like file markers *)

Lemma marker_line_shape (line : str) :
  is_marker_line line = true ->
  is_header_line line = false /\ is_addition_line line = false /\
  is_deletion_line line = false /\ is_context_line line = false.
Proof.
  unfold is_marker_line, is_addition_line, is_deletion_line. intro H.
  destruct (startsWith (lit "+++") line) eqn:Ep.
  - destruct line as [|c0 line]; [discriminate|].
    assert (Ec : c0 = chr "+").
    { change (startsWith (lit "+++") (c0 :: line))
        with (N.eqb (chr "+") c0 && startsWith (lit "++") line) in Ep.
      apply andb_true_iff in Ep. destruct Ep as [Ec _].
      apply N.eqb_eq in Ec. congruence. }
    subst c0. repeat split; reflexivity.
  - cbn [orb] in H. rewrite H.
    destruct line as [|c0 line]; [discriminate|].
    assert (Ec : c0 = chr "-").
    { change (startsWith (lit "---") (c0 :: line))
        with (N.eqb (chr "-") c0 && startsWith (lit "--") line) in H.
      apply andb_true_iff in H. destruct H as [Ec _].
      apply N.eqb_eq in Ec. congruence. }
    subst c0. repeat split; reflexivity.
Qed.

(** Kind, number and content of the records do not depend on where in the
    line array the loop stands. *)
Lemma scan_kind_line_content (lines1 lines2 : list str) :
  forall todo i1 i2 currentLineNumber,
    map kind_line_content (scan lines1 i1 todo currentLineNumber)
    = map kind_line_content (scan lines2 i2 todo currentLineNumber).
Proof.
  induction todo as [|line todo IH]; intros i1 i2 cur; [reflexivity|].
  rewrite !scan_cons.
  destruct (is_header_line line); [apply IH|].
  destruct (is_addition_line line).
  { cbn [map]. f_equal. apply IH. }
  destruct (is_deletion_line line).
  { cbn [map]. f_equal. apply IH. }
  destruct (is_context_line line); apply IH.
Qed.

Lemma scan_marker (line : str) (after : list str) :
  is_marker_line line = true ->
  forall before lines1 lines2 i1 i2 currentLineNumber,
    map kind_line_content
      (scan lines1 i1 (before ++ line :: after) currentLineNumber)
    = map kind_line_content (scan lines2 i2 (before ++ after) currentLineNumber).
Proof.
  intro Hm. destruct (marker_line_shape line Hm) as [Hh [Ha [Hd Hc]]].
  induction before as [|l before IH]; intros lines1 lines2 i1 i2 cur.
  - cbn [app]. rewrite scan_cons, Hh, Ha, Hd, Hc. apply scan_kind_line_content.
  - cbn [app]. rewrite !scan_cons.
    destruct (is_header_line l); [apply IH|].
    destruct (is_addition_line l).
    { cbn [map]. f_equal. apply IH. }
    destruct (is_deletion_line l).
    { cbn [map]. f_equal. apply IH. }
    destruct (is_context_line l); apply IH.
Qed.

(** X4: a line that starts with [+++] or [---] leaves no trace, wherever it
    stands, also inside a hunk: the diff text with the line and the diff
    text without it give the same records as to kind, line number and
    content.  So an added line whose own text starts with [++] (or a removed
    one whose text starts with [--]) is not reported, and the additions
    after it are numbered as if it were not there. *)
Theorem marker_like_lines_leave_no_trace (before after : list str) (line : str) :
  is_marker_line line = true -> one_line line = true ->
  Forall (fun l => one_line l = true) before ->
  Forall (fun l => one_line l = true) after ->
  map kind_line_content
    (parseDiffOutput (join [newline] (before ++ line :: after)))
  = map kind_line_content (parseDiffOutput (join [newline] (before ++ after))).
Proof.
  intros Hm Hl Hb Ha. unfold parseDiffOutput at 1.
  rewrite split_on_join.
  - unfold parseDiffLines.
    destruct (before ++ after) as [|l0 ls] eqn:E.
    + apply app_eq_nil in E. destruct E; subst before after.
      destruct (marker_line_shape line Hm) as [Hh [Had [Hd Hc]]].
      cbn [app]. rewrite scan_cons, Hh, Had, Hd, Hc. reflexivity.
    + unfold parseDiffOutput. rewrite split_on_join.
      * unfold parseDiffLines. rewrite <- E. apply scan_marker. exact Hm.
      * discriminate.
      * rewrite <- E. apply Forall_app. split; assumption.
  - destruct before; discriminate.
  - apply Forall_app. split; [exact Hb|]. constructor; assumption.
Qed.

Lemma marker_like_lines_leave_no_trace_witness :
  map kind_line_content
    (parseDiffOutput
       (join [newline] ([lit "@@ -1 +1,3 @@"] ++ lit "+++counter;"
                        :: [lit "+return counter;"])))
  = [(addition, Num 1, lit "return counter;")].
Proof.
  rewrite (marker_like_lines_leave_no_trace [lit "@@ -1 +1,3 @@"]
             [lit "+return counter;"] (lit "+++counter;"));
    [reflexivity|reflexivity|reflexivity|repeat constructor|repeat constructor].
Defined.

End DiffNumbering.

(** * The glob filter, read without regular expressions *)

Module GlobFacts.
Import JsString Regex RegexTrace Analyzer Glob ConfigDefaults.
Import RegexFacts TraceFacts FilterFacts.

(** *** Parsing the translated pattern *)

Lemma simple_char_inv (c : char) :
  simple_char c = true ->
  ch_is c "\" = false /\ ch_is c "(" = false /\ ch_is c ")" = false /\
  ch_is c "[" = false /\ ch_is c "+" = false /\ ch_is c "{" = false /\
  ch_is c "|" = false /\ ch_is c "^" = false /\ ch_is c "$" = false.
Proof.
  unfold simple_char. intro H. apply negb_true_iff in H.
  repeat (apply orb_false_iff in H; destruct H as [H ?]). auto 12.
Qed.

Lemma parse_token (c : char) (alts : list regex) (ts : terms) (n : nat)
    (tail : str) :
  simple_char c = true ->
  parse_from (PState alts ts [] n MNormal) (wildcard c ++ tail)
  = parse_from (PState alts (gterm (token_of c) :: ts) [] n MNormal) tail.
Proof.
  intro Hc.
  destruct (simple_char_inv c Hc) as [H1 [H2 [H3 [H4 [H5 [H6 [H7 [H8 H9]]]]]]]].
  unfold wildcard, token_of.
  destruct (ch_is c "*") eqn:Estar; [cbn; reflexivity|].
  destruct (ch_is c "?") eqn:Eq; [cbn; reflexivity|].
  cbn [app parse_from step mode]. unfold step_normal.
  rewrite H1, H2, H3, H4, H5, H6, H7, H8, H9, Estar, Eq.
  destruct (ch_is c "."); reflexivity.
Qed.

Lemma parse_tokens (s : str) :
  forallb simple_char s = true ->
  forall alts ts n tail,
    parse_from (PState alts ts [] n MNormal) (flat_map wildcard s ++ tail)
    = parse_from
        (PState alts (rev (map gterm (map token_of s)) ++ ts) [] n MNormal) tail.
Proof.
  induction s as [|c s IH]; intros Hs alts ts n tail; [reflexivity|].
  simpl in Hs. apply andb_true_iff in Hs. destruct Hs as [Hc Hs].
  cbn [flat_map map rev]. rewrite <- !app_assoc.
  rewrite (parse_token c alts ts n _ Hc), (IH Hs). reflexivity.
Qed.

Lemma double_stars_forall (P : char -> bool) (s : str) :
  P (chr ".") = true -> P (chr "*") = true ->
  forallb P s = true -> forallb P (double_stars s) = true.
Proof.
  intros Hdot Hstar.
  assert (H : (forallb P s = true -> forallb P (double_stars s) = true) /\
              (forall c, forallb P (c :: s) = true ->
                         forallb P (double_stars (c :: s)) = true)).
  { induction s as [|a s [IH1 IH2]].
    - split; intros; [reflexivity|assumption].
    - split; [exact (IH2 a)|]. intros c H.
      cbn [double_stars].
      destruct (N.eqb (chr "*") c && N.eqb (chr "*") a).
      + cbn [forallb] in H. apply andb_true_iff in H. destruct H as [_ H].
        apply andb_true_iff in H. destruct H as [_ H].
        rewrite forallb_app, (IH1 H).
        change (forallb P (lit ".*")) with (P (chr ".") && (P (chr "*") && true)).
        rewrite Hdot, Hstar. reflexivity.
      + cbn [forallb] in H. apply andb_true_iff in H. destruct H as [Hc H].
        cbn [forallb]. rewrite Hc. apply IH2. exact H. }
  exact (proj1 H).
Qed.

(** The regular expression of a simple pattern: the start of the input, the
    terms of the tokens, the end of the input. *)
Lemma simple_pattern_regex (pattern : str) :
  simple_pattern pattern = true ->
  new_RegExp (lit "^" ++ glob_to_regex_source pattern ++ lit "$")
  = Returns (seq_of ((REol, TAssert)
                     :: rev (map gterm (glob_tokens pattern))
                     ++ [(RBol, TAssert)])).
Proof.
  intro H. rewrite glob_to_regex_source_eq. unfold new_RegExp, parse.
  assert (Hhead : forall tl,
            parse_from (PState [] [] [] 0 MNormal) (lit "^" ++ tl)
            = parse_from (PState [] [(RBol, TAssert)] [] 0 MNormal) tl)
    by (intro tl; reflexivity).
  rewrite Hhead, parse_tokens.
  - reflexivity.
  - apply double_stars_forall; [reflexivity|reflexivity|exact H].
Qed.

(** *** Running the terms of a sequence *)

Lemma run_local (ic : bool) (rs : list regex) : local (run ic rs).
Proof.
  induction rs as [|r rs IH]; intros x c1 c2 H.
  - apply H, ahead_refl.
  - cbn [run]. apply rmatch_local. intros y Hy. apply IH.
    intros z Hz. apply H. apply ahead_trans with y; assumption.
Qed.

Lemma run_app (ic : bool) (a b : list regex) :
  forall x c, run ic (a ++ b) x c = run ic a x (fun y => run ic b y c).
Proof.
  induction a as [|r a IH]; intros x c; [reflexivity|].
  cbn [app run]. apply rmatch_local. intros y _. apply IH.
Qed.

Lemma rmatch_seq_of (ic : bool) (ts : terms) :
  ts <> [] ->
  forall x c, rmatch ic (seq_of ts) x c = run ic (rev (map fst ts)) x c.
Proof.
  induction ts as [|[r t] ts IH]; intros Hne x c; [congruence|].
  destruct ts as [|t2 older]; [reflexivity|].
  change (seq_of ((r, t) :: t2 :: older)) with (RSeq (seq_of (t2 :: older)) r).
  rewrite rmatch_seq, IH by discriminate.
  change (rev (map fst ((r, t) :: t2 :: older)))
    with (rev (map fst (t2 :: older)) ++ [r]).
  rewrite run_app. reflexivity.
Qed.

Lemma glob_terms_run (toks : list gtoken) :
  rev (map fst ((REol, TAssert) :: rev (map gterm toks) ++ [(RBol, TAssert)]))
  = RBol :: map tok_regex toks ++ [REol].
Proof.
  cbn [map]. rewrite map_app, map_rev, map_map. cbn [map fst rev].
  rewrite rev_app_distr, rev_involutive. reflexivity.
Qed.

Lemma is_some_orelse (a b : option mstate) :
  is_some (orelse a b) = is_some a || is_some b.
Proof. destruct a; reflexivity. Qed.

(** A greedy run of characters without separator, as a boolean: the
    continuation holds here, or after one more such character. *)
Lemma star_bool (ok : char -> bool) (K : cont) (g : str -> bool) :
  (forall a, ok a = not_slash a) ->
  (forall q p cs, is_some (K (MState q p cs)) = g q) ->
  forall path p cs,
    is_some (repeat_matcher (char_matcher ok) [] (length path + 1) 0 None true
               (MState path p cs) K)
    = many g path.
Proof.
  intros Hok HK. induction path as [|a path IH]; intros p cs.
  - cbn [length Nat.add repeat_matcher Nat.eqb negb]. rewrite cap_clear_nil.
    rewrite char_matcher_miss by exact I. cbn [orelse many].
    rewrite HK, orb_false_r. reflexivity.
  - cbn [length Nat.add repeat_matcher Nat.eqb negb]. rewrite cap_clear_nil.
    rewrite is_some_orelse, HK. cbn [many]. rewrite orb_comm. f_equal.
    unfold char_matcher. cbn [rest pos caps]. rewrite Hok.
    destruct (not_slash a); [|reflexivity].
    replace (S p =? p) with false by (symmetry; apply Nat.eqb_neq; lia).
    cbn [andb option_map]. apply IH.
Qed.

Lemma run_tokens (toks : list gtoken) :
  forall path p cs,
    is_some (run false (map tok_regex toks ++ [REol]) (MState path p cs)
               (fun y => Some y))
    = glob_match toks path.
Proof.
  assert (Hclass : forall a,
            xorb true (set_has_ic false [CChar slash] a) = not_slash a).
  { intro a. unfold set_has_ic, set_has, not_slash. simpl.
    rewrite orb_false_r. reflexivity. }
  induction toks as [|t toks IH]; intros path p cs.
  - destruct path; reflexivity.
  - destruct t; cbn [map app run tok_regex glob_match].
    + cbn [rmatch]. unfold char_matcher. cbn [rest pos caps].
      destruct path as [|a path]; [reflexivity|].
      destruct (N.eqb c a); [apply IH|reflexivity].
    + cbn [rmatch]. unfold char_matcher. cbn [rest pos caps].
      destruct path as [|a path]; [reflexivity|].
      destruct (is_line_terminator a); [reflexivity|apply IH].
    + unfold no_slash_class. cbn [rmatch]. unfold char_matcher. cbn [rest pos caps].
      destruct path as [|a path]; [reflexivity|].
      rewrite Hclass. destruct (not_slash a); [apply IH|reflexivity].
    + unfold no_slash_class. cbn [rmatch groups_in rest Nat.add].
      apply star_bool; [exact Hclass|]. intros q p' cs'. apply IH.
Qed.

(** An expression that starts with [^] only matches at index 0. *)
Lemma anchored_exec (r : regex) (rs : list regex) :
  (forall x c, rmatch false r x c = run false (RBol :: rs) x c) ->
  forall path,
    is_some (exec false r path)
    = is_some (run false rs (MState path 0 []) (fun y => Some y)).
Proof.
  intros Hr path.
  assert (Hlater : forall s i, 1 <= i -> exec_from false r s i = None).
  { induction s as [|a s IHs]; intros i Hi.
    - cbn [exec_from]. unfold match_at. rewrite Hr. cbn [run rmatch pos].
      replace (i =? 0) with false by (symmetry; apply Nat.eqb_neq; lia).
      reflexivity.
    - cbn [exec_from]. unfold match_at. rewrite Hr. cbn [run rmatch pos].
      replace (i =? 0) with false by (symmetry; apply Nat.eqb_neq; lia).
      apply IHs. lia. }
  unfold exec.
  assert (Hfirst : is_some (match_at false r path 0)
                   = is_some (run false rs (MState path 0 []) (fun y => Some y))).
  { unfold match_at. rewrite Hr. cbn [run rmatch pos Nat.eqb].
    destruct (run false rs (MState path 0 []) (fun y => Some y)); reflexivity. }
  rewrite <- Hfirst. destruct path as [|a path]; cbn [exec_from].
  - destruct (match_at false r [] 0); reflexivity.
  - destruct (match_at false r (a :: path) 0); [reflexivity|].
    rewrite Hlater by lia. reflexivity.
Qed.

(** The filter of a simple pattern is the reference matcher on its
    tokens. *)
Lemma matchesPattern_simple (filePath pattern : str) :
  simple_pattern pattern = true ->
  matchesPattern filePath pattern
  = Returns (glob_match (glob_tokens pattern) filePath).
Proof.
  intro H. unfold matchesPattern. rewrite (simple_pattern_regex pattern H).
  cbn [bind]. f_equal.
  rewrite <- run_tokens with (p := 0) (cs := []).
  set (R := seq_of ((REol, TAssert) :: rev (map gterm (glob_tokens pattern))
                    ++ [(RBol, TAssert)])).
  assert (Hr : forall x c,
            rmatch false R x c
            = run false (RBol :: map tok_regex (glob_tokens pattern) ++ [REol]) x c).
  { intros x c. unfold R. rewrite rmatch_seq_of by discriminate.
    rewrite glob_terms_run. reflexivity. }
  rewrite <- (anchored_exec R _ Hr filePath). unfold test.
  destruct (exec false R filePath); reflexivity.
Qed.

(** X5: for every pattern without the characters that structure a regular
    expression (backslash, parentheses, opening bracket and brace, [+],
    [|], [^], [$]) and every path, the filter returns, and what it returns
    is the result of matching the path against the pattern read token by
    token: [*] stands for any run of characters other than [/], [?] for one
    character other than [/], the dot for any one character that is no line
    terminator, [**] for one such character followed by a run without [/],
    any other character for itself, and the whole path has to be used
    up. *)
Theorem matchesPattern_reads_tokens (filePath pattern : str) :
  simple_pattern pattern = true ->
  matchesPattern filePath pattern
  = Returns (glob_match (glob_tokens pattern) filePath).
Proof. apply matchesPattern_simple. Qed.

Lemma matchesPattern_reads_tokens_witness :
  matchesPattern (lit "src/index.test.ts") (lit "src/*.test.?s") = Returns true.
Proof.
  rewrite (matchesPattern_reads_tokens (lit "src/index.test.ts")
             (lit "src/*.test.?s")); reflexivity.
Defined.

(** *** Patterns without wildcards *)

Lemma double_stars_without_star (s : str) :
  forallb (fun c => negb (ch_is c "*")) s = true -> double_stars s = s.
Proof.
  induction s as [|a s IH]; intro H; [reflexivity|].
  cbn [forallb] in H. apply andb_true_iff in H. destruct H as [Ha Hs].
  cbn [double_stars]. destruct s as [|b s']; [reflexivity|].
  apply negb_true_iff in Ha. unfold ch_is in Ha. rewrite N.eqb_sym in Ha.
  change (chr "*" =? a)%N with (N.eqb (chr "*") a). rewrite Ha. cbn [andb].
  f_equal. apply IH. exact Hs.
Qed.

Lemma literal_char_inv (c : char) :
  literal_char c = true ->
  simple_char c = true /\ ch_is c "*" = false /\ ch_is c "?" = false /\
  ch_is c "." = false.
Proof.
  unfold literal_char. intro H. apply andb_true_iff in H. destruct H as [Hs H].
  apply negb_true_iff in H.
  repeat (apply orb_false_iff in H; destruct H as [H ?]). auto.
Qed.

Lemma literal_pattern_simple (s : str) :
  literal_pattern s = true -> simple_pattern s = true.
Proof.
  unfold literal_pattern, simple_pattern. intro H.
  rewrite forallb_forall in *. intros c Hc. apply literal_char_inv. apply H, Hc.
Qed.

Lemma literal_pattern_no_star (s : str) :
  literal_pattern s = true ->
  forallb (fun c => negb (ch_is c "*")) s = true.
Proof.
  unfold literal_pattern. intro H. rewrite forallb_forall in *. intros c Hc.
  destruct (literal_char_inv c (H c Hc)) as [_ [Hstar _]]. rewrite Hstar. reflexivity.
Qed.

Lemma literal_tokens (s : str) :
  literal_pattern s = true -> map token_of s = map GLit s.
Proof.
  unfold literal_pattern. induction s as [|c s IH]; intro H; [reflexivity|].
  cbn [forallb] in H. apply andb_true_iff in H. destruct H as [Hc Hs].
  destruct (literal_char_inv c Hc) as [_ [H1 [H2 H3]]].
  cbn [map]. unfold token_of at 1. rewrite H1, H2, H3, (IH Hs). reflexivity.
Qed.



Lemma glob_match_literal (s path : str) :
  glob_match (map GLit s) path = str_eqb s path.
Proof.
  revert path. induction s as [|c s IH]; intros [|a path]; try reflexivity.
  cbn [map glob_match str_eqb]. rewrite IH. reflexivity.
Qed.

Lemma str_eqb_refl (s : str) : str_eqb s s = true.
Proof.
  induction s as [|c s IH]; [reflexivity|].
  cbn [str_eqb]. rewrite N.eqb_refl. exact IH.
Qed.

Lemma str_eqb_eq (a b : str) : str_eqb a b = true <-> a = b.
Proof.
  split.
  - revert b. induction a as [|x a IH]; intros [|y b] H; try discriminate.
    + reflexivity.
    + cbn [str_eqb] in H. apply andb_true_iff in H. destruct H as [Hx H].
      apply N.eqb_eq in Hx. subst y. f_equal. apply IH. exact H.
  - intro H. subst b. apply str_eqb_refl.
Qed.

(** X6: a pattern without wildcard, without dot and without the characters
    that structure a regular expression matches exactly one path, the
    pattern itself: the match is anchored at both ends, so neither a longer
    path that contains the pattern nor a prefix of it is accepted. *)
Theorem literal_pattern_matches_itself_only (filePath pattern : str) :
  literal_pattern pattern = true ->
  (matchesPattern filePath pattern = Returns true <-> filePath = pattern) /\
  exists b, matchesPattern filePath pattern = Returns b.
Proof.
  intro H.
  rewrite (matchesPattern_simple filePath pattern (literal_pattern_simple pattern H)).
  unfold glob_tokens.
  rewrite (double_stars_without_star pattern (literal_pattern_no_star pattern H)).
  rewrite (literal_tokens pattern H), glob_match_literal.
  split; [|eexists; reflexivity]. split.
  - intro E. inversion E as [E']. apply str_eqb_eq in E'. congruence.
  - intro E. subst filePath. rewrite str_eqb_refl. reflexivity.
Qed.

Lemma literal_pattern_matches_itself_only_witness :
  (matchesPattern (lit "src/Makefile") (lit "Makefile") = Returns true
   <-> lit "src/Makefile" = lit "Makefile") /\
  exists b, matchesPattern (lit "src/Makefile") (lit "Makefile") = Returns b.
Proof.
  apply (literal_pattern_matches_itself_only (lit "src/Makefile") (lit "Makefile")).
  reflexivity.
Defined.



(** *** Separators *)

Lemma depth_cons (a : char) (path : str) :
  depth (a :: path) = (if N.eqb slash a then 1 else 0) + depth path.
Proof. unfold depth. cbn [filter]. destruct (N.eqb slash a); reflexivity. Qed.

(** A match uses one separator for every [/] of the pattern, and at most
    one more for every dot. *)
Lemma glob_match_depth (toks : list gtoken) :
  forall path, glob_match toks path = true ->
    length (filter (fun t => match t with
                             | GLit c => N.eqb slash c
                             | _ => false
                             end) toks) <= depth path /\
    depth path
    <= length (filter (fun t => match t with
                                | GLit c => N.eqb slash c
                                | GAny => true
                                | _ => false
                                end) toks).
Proof.
  induction toks as [|t toks IH]; intros path H.
  - destruct path; [split; reflexivity|discriminate].
  - destruct t; cbn [glob_match] in H.
    + destruct path as [|a path]; [discriminate|].
      apply andb_true_iff in H. destruct H as [Ha H]. apply N.eqb_eq in Ha. subst a.
      apply IH in H. rewrite depth_cons. cbn [filter].
      destruct (N.eqb slash c); cbn [length]; lia.
    + destruct path as [|a path]; [discriminate|].
      apply andb_true_iff in H. destruct H as [_ H].
      apply IH in H. rewrite depth_cons. cbn [filter length].
      destruct (N.eqb slash a); lia.
    + destruct path as [|a path]; [discriminate|].
      apply andb_true_iff in H. destruct H as [Ha H].
      apply IH in H. rewrite depth_cons. cbn [filter].
      unfold not_slash in Ha. apply negb_true_iff in Ha. rewrite Ha. exact H.
    + cbn [filter]. induction path as [|a path IHp].
      * cbn [many] in H. rewrite orb_false_r in H. apply IH. exact H.
      * cbn [many] in H. apply orb_true_iff in H. destruct H as [H|H].
        { apply IH. exact H. }
        apply andb_true_iff in H. destruct H as [Ha H].
        rewrite depth_cons.
        unfold not_slash in Ha. apply negb_true_iff in Ha. rewrite Ha.
        apply IHp. exact H.
Qed.







(** *** The default configuration *)

Lemma first_match_simple (filePath : str) (patterns : list str) :
  forallb simple_pattern patterns = true ->
  first_match filePath patterns
  = Returns (existsb (fun p => glob_match (glob_tokens p) filePath) patterns).
Proof.
  induction patterns as [|p ps IH]; intro H; [reflexivity|].
  cbn [forallb] in H. apply andb_true_iff in H. destruct H as [Hp Hps].
  cbn [first_match existsb]. rewrite (matchesPattern_simple filePath p Hp).
  cbn [bind]. destruct (glob_match (glob_tokens p) filePath); [reflexivity|].
  apply IH. exact Hps.
Qed.

Lemma shouldAnalyzeFile_simple (incl excl : list str) (filePath : str) :
  forallb simple_pattern incl = true -> forallb simple_pattern excl = true ->
  shouldAnalyzeFile (mkConfig (Some incl) (Some excl)) filePath
  = Returns (negb (existsb (fun p => glob_match (glob_tokens p) filePath) excl)
             && existsb (fun p => glob_match (glob_tokens p) filePath) incl).
Proof.
  intros Hi He. unfold shouldAnalyzeFile. cbn [excludePatterns includePatterns].
  rewrite (first_match_simple filePath excl He). cbn [bind].
  destruct (existsb _ excl); [reflexivity|].
  rewrite (first_match_simple filePath incl Hi). reflexivity.
Qed.

(** X9: with the default configuration the filter returns for every path,
    and a path it accepts holds at least one and at most three separators:
    every default include pattern reads [**/*.ext], which asks for a [/],
    so a file at the top of the repository is never analysed. *)
Theorem default_filter_skips_top_level_files (filePath : str) :
  (exists b, shouldAnalyzeFile DEFAULT_CONFIG filePath = Returns b) /\
  (shouldAnalyzeFile DEFAULT_CONFIG filePath = Returns true ->
   1 <= depth filePath <= 3).
Proof.
  unfold DEFAULT_CONFIG.
  rewrite shouldAnalyzeFile_simple by reflexivity.
  split; [eexists; reflexivity|]. intro H.
  match type of H with
  | Returns (negb ?e && existsb ?f ?incl) = _ =>
      assert (Hin : existsb f incl = true)
        by (destruct e; [discriminate|]; cbn [negb andb] in H; congruence)
  end.
  clear H. apply existsb_exists in Hin. destruct Hin as [p [Hp Hg]].
  apply glob_match_depth in Hg.
  cbn [In] in Hp.
  repeat (destruct Hp as [Hp|Hp];
          [subst p; vm_compute in Hg; exact Hg|]).
  destruct Hp.
Qed.

Lemma default_filter_skips_top_level_files_witness :
  1 <= depth (lit "src/cli.ts") <= 3.
Proof.
  apply (proj2 (default_filter_skips_top_level_files (lit "src/cli.ts"))).
  vm_compute. reflexivity.
Defined.

End GlobFacts.

(** * More on the section extractor *)

Module ExtractionFacts.
Import JsString Regex RegexTrace GitUtils Analyzer Sectioning.
Import RegexFacts TraceFacts SectionFacts DiffFacts.

(** *** Trimming *)

Lemma trim_start_fixed (s : str) :
  match s with c :: _ => is_space c = false | [] => True end ->
  trim_start s = s.
Proof.
  destruct s as [|c s]; intro H; [reflexivity|]. simpl. rewrite H. reflexivity.
Qed.

Lemma trim_start_head (s : str) :
  match trim_start s with c :: _ => is_space c = false | [] => True end.
Proof.
  induction s as [|c s IH]; [exact I|].
  simpl. destruct (is_space c) eqn:E; [exact IH|exact E].
Qed.

(** [trim_start] takes a run of white space off the front. *)
Lemma trim_start_split (s : str) :
  exists sp, s = sp ++ trim_start s /\ forallb is_space sp = true.
Proof.
  induction s as [|c s [sp [IH1 IH2]]]; [exists []; split; reflexivity|].
  simpl. destruct (is_space c) eqn:E.
  - exists (c :: sp). split; [simpl; f_equal; exact IH1|].
    simpl. rewrite E. exact IH2.
  - exists []. split; reflexivity.
Qed.

Lemma trim_head (s : str) :
  match trim s with c :: _ => is_space c = false | [] => True end.
Proof.
  unfold trim, trim_end.
  pose proof (trim_start_head s) as Hhead.
  destruct (trim_start_split (rev (trim_start s))) as [sp [Hsplit Hsp]].
  set (u := trim_start (rev (trim_start s))) in *.
  assert (Ht : trim_start s = rev u ++ rev sp).
  { rewrite <- rev_app_distr, <- Hsplit, rev_involutive. reflexivity. }
  destruct (rev u) as [|c ru] eqn:E; [exact I|].
  rewrite Ht in Hhead. exact Hhead.
Qed.

Lemma trim_idempotent (s : str) : trim (trim s) = trim s.
Proof.
  pose proof (trim_head s) as Hhead.
  unfold trim at 1. rewrite (trim_start_fixed (trim s) Hhead).
  unfold trim, trim_end. rewrite rev_involutive.
  rewrite (trim_start_fixed _ (trim_start_head (rev (trim_start s)))).
  reflexivity.
Qed.

(** *** Lines *)

Lemma forallb_rev {A : Type} (P : A -> bool) (l : list A) :
  forallb P (rev l) = forallb P l.
Proof.
  induction l as [|a l IH]; [reflexivity|].
  simpl. rewrite forallb_app, IH. simpl. rewrite andb_true_r. apply andb_comm.
Qed.

Lemma forallb_firstn {A : Type} (P : A -> bool) (l : list A) :
  forallb P l = true -> forall n, forallb P (firstn n l) = true.
Proof.
  induction l as [|a l IH]; intros H n; [destruct n; reflexivity|].
  simpl in H. apply andb_true_iff in H. destruct H as [Ha H].
  destruct n as [|n]; [reflexivity|]. simpl. rewrite Ha. apply IH. exact H.
Qed.

Lemma forallb_skipn {A : Type} (P : A -> bool) (l : list A) :
  forallb P l = true -> forall n, forallb P (skipn n l) = true.
Proof.
  induction l as [|a l IH]; intros H n; [destruct n; reflexivity|].
  destruct n as [|n]; [exact H|].
  simpl in H. apply andb_true_iff in H. destruct H as [_ H].
  simpl. apply IH. exact H.
Qed.

Lemma forallb_trim_start (P : char -> bool) (s : str) :
  forallb P s = true -> forallb P (trim_start s) = true.
Proof.
  induction s as [|c s IH]; intro H; [reflexivity|].
  simpl. destruct (is_space c); [|exact H].
  simpl in H. apply andb_true_iff in H. apply IH, H.
Qed.

Lemma forallb_trim (P : char -> bool) (s : str) :
  forallb P s = true -> forallb P (trim s) = true.
Proof.
  intro H. unfold trim, trim_end. rewrite forallb_rev.
  apply forallb_trim_start. rewrite forallb_rev.
  apply forallb_trim_start. exact H.
Qed.

Lemma forallb_replace_first (P : char -> bool) (ic : bool) (r : regex) (s : str) :
  forallb P s = true -> forallb P (replace_first ic r [] s) = true.
Proof.
  intro H. unfold replace_first. destruct (exec ic r s); [|exact H].
  rewrite forallb_app. cbn [app].
  rewrite (forallb_firstn P s H), (forallb_skipn P s H). reflexivity.
Qed.

Lemma split_on_lines (s : str) :
  Forall (fun l => one_line l = true) (split_on newline s).
Proof.
  induction s as [|c s IH]; [repeat constructor|].
  cbn [split_on]. destruct (N.eqb c newline) eqn:E.
  - constructor; [reflexivity|exact IH].
  - destruct (split_on newline s) as [|l ls].
    + repeat constructor. simpl. rewrite E. reflexivity.
    + inversion IH as [|? ? Hl Hls]; subst. constructor; [|exact Hls].
      simpl. rewrite E. exact Hl.
Qed.

(** X10: every item that [extractListItems] returns is non-empty, carries
    no white space at either end and holds no line feed, whatever the
    text. *)
Theorem list_items_are_trimmed_lines (text : str) :
  Forall is_list_item (extractListItems text).
Proof.
  unfold extractListItems. apply Forall_forall. intros item Hin.
  apply filter_In in Hin. destruct Hin as [Hin Hne].
  apply in_map_iff in Hin. destruct Hin as [line [Hitem Hline]].
  apply filter_In in Hline. destruct Hline as [Hline _].
  apply in_map_iff in Hline. destruct Hline as [raw [Hraw Hsplit]].
  subst item line. repeat split.
  - exact Hne.
  - apply trim_idempotent.
  - apply forallb_trim, forallb_replace_first, forallb_trim.
    exact (proj1 (Forall_forall _ _) (split_on_lines text) raw Hsplit).
Qed.

(** *** Placeholders *)

Lemma or_str_nonempty (a : option str) (b : str) :
  nonempty b = true -> nonempty (or_str a b) = true.
Proof. intro H. destruct a as [[|c s]|]; try exact H. reflexivity. Qed.

(** X11: the summary, purpose and impact of an analysis record are never
    the empty text: a section that is found but empty (a heading followed at
    once by the next one) gets the placeholder as well, since the empty
    text is falsy.  The documentation is empty only for the empty
    response. *)
Theorem record_texts_are_never_empty (filePath language response : str) :
  exists result,
    parseAnalysisResponse filePath language response = Returns result /\
    nonempty (summary result) = true /\
    nonempty (purpose result) = true /\
    nonempty (impact result) = true /\
    nonempty (documentation result) = nonempty response.
Proof.
  unfold parseAnalysisResponse.
  destruct (extractSections_returns response) as [sections E].
  rewrite E. cbn [bind]. eexists. split; [reflexivity|].
  cbn [summary purpose impact documentation].
  repeat split; try (apply or_str_nonempty; reflexivity).
  destruct response as [|c0 response].
  - assert (H : extractSections [] = Returns no_sections)
      by (vm_compute; reflexivity).
    rewrite H in E. inversion E. reflexivity.
  - apply or_str_nonempty. reflexivity.
Qed.

(** *** Responses of one line *)

Lemma to_upper_line_feed (a : char) :
  N.eqb (to_upper newline) (to_upper a) = N.eqb newline a.
Proof.
  change (to_upper newline) with newline.
  unfold to_upper, is_lower, in_range, newline.
  destruct ((97 <=? a)%N && (a <=? 122)%N) eqn:E; [|reflexivity].
  apply andb_true_iff in E. destruct E as [E1 E2].
  apply N.leb_le in E1, E2.
  transitivity false; [|symmetry]; apply N.eqb_neq; lia.
Qed.

Lemma one_line_skipn (s : str) (k : nat) :
  one_line s = true -> one_line (skipn k s) = true.
Proof. intro H. apply forallb_skipn. exact H. Qed.

(** An expression that ends in a lookahead for a line feed finds nothing in
    a text of one line. *)
Lemma exec_from_one_line (ic : bool) (front alt : regex) :
  forall s i, one_line s = true ->
    exec_from ic (RSeq front (RLook true (RSeq (RChar newline) alt))) s i = None.
Proof.
  assert (Hat : forall s i, one_line s = true ->
            match_at ic (RSeq front (RLook true (RSeq (RChar newline) alt))) s i
            = None).
  { intros s i Hs. unfold match_at. rewrite rmatch_seq, rmatch_blocked; [reflexivity|].
    intros y [k [Hrest _]]. cbn [rest] in Hrest.
    cbn [rmatch]. unfold char_matcher. rewrite Hrest.
    pose proof (one_line_skipn s k Hs) as Hk.
    destruct (skipn k s) as [|a tl]; [reflexivity|].
    simpl in Hk. apply andb_true_iff in Hk. destruct Hk as [Ha _].
    apply negb_true_iff in Ha. rewrite N.eqb_sym in Ha.
    destruct ic; [rewrite to_upper_line_feed|]; rewrite Ha; reflexivity. }
  induction s as [|a s IH]; intros i Hs.
  - cbn [exec_from]. rewrite Hat by exact Hs. reflexivity.
  - cbn [exec_from]. rewrite Hat by exact Hs. apply IH.
    simpl in Hs. apply andb_true_iff in Hs. apply Hs.
Qed.

Lemma line_feed_lookahead :
  Forall (fun re => exists front alt,
            re = RSeq front (RLook true (RSeq (RChar newline) alt)))
    [summary_re; purpose_re; impact_re; doc_re; keyChanges_re].
Proof. repeat constructor; vm_compute; eexists; eexists; reflexivity. Qed.

Lemma section_one_line {A : Type} (re : regex) (f : str -> A) (response : str) :
  In re [summary_re; purpose_re; impact_re; doc_re; keyChanges_re] ->
  one_line response = true ->
  section re f response = Returns None.
Proof.
  intros Hin Hone.
  destruct (proj1 (Forall_forall _ _) line_feed_lookahead re Hin)
    as [front [alt Hre]].
  unfold section, exec. rewrite Hre, exec_from_one_line by exact Hone.
  reflexivity.
Qed.

(** X12: a response without line feed never yields a summary, a purpose, an
    impact, a documentation or key changes, whatever it says: each of the
    five expressions ends its section at a line feed.  Only the Suggestions
    section, which runs to the end of the text, can be found. *)
Theorem one_line_response_has_no_sections (response : str) :
  one_line response = true ->
  exists suggestions,
    extractSections response
    = Returns (mkSections None None None None None suggestions).
Proof.
  intro H. unfold extractSections.
  rewrite (section_one_line summary_re) by (cbn [In]; tauto).
  rewrite (section_one_line purpose_re) by (cbn [In]; tauto).
  rewrite (section_one_line impact_re) by (cbn [In]; tauto).
  rewrite (section_one_line doc_re) by (cbn [In]; tauto).
  rewrite (section_one_line keyChanges_re) by (cbn [In]; tauto).
  cbn [bind]. section_found v E. eauto.
Qed.

Lemma one_line_response_has_no_sections_witness :
  exists suggestions,
    extractSections (lit "Summary: renames a variable. Impact: none.")
    = Returns (mkSections None None None None None suggestions).
Proof.
  apply (one_line_response_has_no_sections
           (lit "Summary: renames a variable. Impact: none.")).
  reflexivity.
Defined.

(** *** The Suggestions section *)

(** A repetition that may stop at once succeeds when its continuation
    does. *)
Lemma repeat_can_stop (m : matcher) (gs : list nat) (fuel : nat)
    (greedy : bool) (x : mstate) (c : cont) :
  is_some (c x) = true ->
  is_some (repeat_matcher m gs (S fuel) 0 None greedy x c) = true.
Proof.
  intro H. cbn [repeat_matcher Nat.eqb negb].
  destruct greedy; unfold orelse.
  - destruct (m (cap_clear gs x) _); [reflexivity|exact H].
  - destruct (c x); [reflexivity|discriminate].
Qed.

(** A lazy run of arbitrary characters reaches the end of the input. *)
Lemma lazy_to_end (ok : char -> bool) (c : cont) :
  (forall a, ok a = true) ->
  (forall p cs, is_some (c (MState [] p cs)) = true) ->
  forall s p cs,
    is_some (repeat_matcher (char_matcher ok) [] (length s + 1) 0 None false
               (MState s p cs) c) = true.
Proof.
  intros Hok Hc. induction s as [|a s IH]; intros p cs.
  - cbn [length Nat.add repeat_matcher Nat.eqb negb].
    unfold orelse. pose proof (Hc p cs) as H.
    destruct (c (MState [] p cs)); [reflexivity|discriminate].
  - cbn [length Nat.add repeat_matcher Nat.eqb negb]. rewrite cap_clear_nil.
    unfold orelse. destruct (c (MState (a :: s) p cs)); [reflexivity|].
    rewrite char_matcher_hit by apply Hok. cbn [pos].
    replace (S p =? p) with false by (symmetry; apply Nat.eqb_neq; lia).
    cbn [andb option_map]. apply IH.
Qed.

Lemma any_character (a : char) :
  xorb false (set_has_ic true [CSpace; CNotSpace] a) = true.
Proof.
  unfold set_has_ic, set_has. cbn [existsb item_has xorb].
  destruct (is_space a); reflexivity.
Qed.

Lemma suggestions_re_ast :
  suggestions_re = ltac:(let r := eval vm_compute in suggestions_re in exact r).
Proof. vm_compute. reflexivity. Qed.

(** The Suggestions expression matches wherever the word starts. *)
Lemma suggestions_match (s : str) (i : nat) :
  starts_ci (lit "Suggestions") s = true ->
  is_some (match_at true suggestions_re s i) = true.
Proof.
  intro Hw. unfold match_at.
  assert (H : is_some (rmatch true suggestions_re (MState s i []) (fun y => Some y))
              = true).
  { rewrite suggestions_re_ast.
    do 3 rewrite rmatch_seq.
    match goal with
    | |- is_some (rmatch true (RAlt ?w1 ?w2) ?x ?K) = true =>
        change (rmatch true (RAlt w1 w2) x K)
          with (orelse (rmatch true w1 x K) (rmatch true w2 x K));
        rewrite (rmatch_word w1 (lit "Suggestions") eq_refl)
    end.
    cbn [rest]. rewrite Hw, GlobFacts.is_some_orelse.
    apply orb_true_iff. left.
    cbn [rmatch groups_in rest]. rewrite Nat.add_1_r.
    apply repeat_can_stop. cbv beta. cbn [rmatch groups_in rest Nat.add].
    apply lazy_to_end; [exact any_character|]. intros p cs. reflexivity. }
  destruct (rmatch true suggestions_re (MState s i []) (fun y => Some y));
    [reflexivity|discriminate].
Qed.

Lemma exec_from_occurs (s : str) :
  forall i, occurs_ci (lit "Suggestions") s = true ->
    is_some (exec_from true suggestions_re s i) = true.
Proof.
  induction s as [|a s IH]; intros i H.
  - cbn [occurs_ci] in H. rewrite orb_false_r in H.
    cbn [exec_from]. pose proof (suggestions_match [] i H) as Hm.
    destruct (match_at true suggestions_re [] i); [reflexivity|discriminate].
  - cbn [exec_from]. cbn [occurs_ci] in H.
    destruct (match_at true suggestions_re (a :: s) i) eqn:E; [reflexivity|].
    apply orb_true_iff in H. destruct H as [H|H].
    + apply (suggestions_match (a :: s) i) in H. rewrite E in H. discriminate.
    + apply IH. exact H.
Qed.

Lemma suggestions_section (response : str) :
  exists found,
    section suggestions_re extractListItems response = Returns found /\
    is_some found = occurs_ci (lit "Suggestions") response.
Proof.
  destruct (occurs_ci (lit "Suggestions") response) eqn:Hocc.
  - pose proof (exec_from_occurs response 0 Hocc) as He.
    destruct (section_returns suggestions_re extractListItems response) as [found E].
    { vm_compute. reflexivity. }
    exists found. split; [exact E|].
    unfold section in E. unfold exec in E.
    destruct (exec_from true suggestions_re response 0) as [m|]; [|discriminate].
    destruct (group response m 1); inversion E; reflexivity.
  - exists None. split; [|reflexivity].
    erewrite (section_no_heading suggestions_re);
      [reflexivity|vm_compute; reflexivity..|exact Hocc].
Qed.

(** X13: the Suggestions section is found exactly when the word
    "suggestions" occurs somewhere in the response, in any letter case:
    its expression runs to the end of the text, so the first occurrence of
    the word always starts a match, wherever it stands. *)
Theorem suggestions_found_iff_word_occurs (response : str) :
  exists sections,
    extractSections response = Returns sections /\
    is_some (s_suggestions sections)
    = occurs_ci (lit "Suggestions") response.
Proof.
  unfold extractSections.
  section_found v1 E1. section_found v2 E2. section_found v3 E3.
  section_found v4 E4. section_found v5 E5.
  destruct (suggestions_section response) as [found [E H]].
  rewrite E. cbn [bind]. eexists. split; [reflexivity|exact H].
Qed.

(** *** List items *)

Lemma rmatch_class_run (ic neg : bool) (items : list citem) (min : nat)
    (ds tl : str) (p : nat) (cs : list (nat * (nat * nat))) (c : cont)
    (z : mstate) :
  forallb (fun ch => xorb neg (set_has_ic ic items ch)) ds = true ->
  stops (fun ch => xorb neg (set_has_ic ic items ch)) tl ->
  min <= length ds ->
  c (MState tl (p + length ds) cs) = Some z ->
  rmatch ic (RQuant min None true (RClass neg items)) (MState (ds ++ tl) p cs) c
  = Some z.
Proof.
  intros Hds Hstop Hmin Hc. cbn [rmatch groups_in rest].
  apply greedy_run; try assumption. rewrite length_app. lia.
Qed.

Lemma bullet_re_ast :
  bullet_re = ltac:(let r := eval vm_compute in bullet_re in exact r).
Proof. vm_compute. reflexivity. Qed.

Lemma mark_class (c : char) :
  xorb false
    (set_has_ic false [CChar (chr "-"); CChar (chr "*"); CChar (chr "+"); CDigit] c)
  = is_mark_char c.
Proof.
  unfold set_has_ic, set_has, is_mark_char, ch_is.
  cbn [existsb item_has xorb].
  rewrite (N.eqb_sym c (chr "-")), (N.eqb_sym c (chr "*")), (N.eqb_sym c (chr "+")).
  rewrite orb_false_r, !orb_assoc. reflexivity.
Qed.

Lemma space_class (c : char) :
  xorb false (set_has_ic false [CSpace] c) = is_space c.
Proof.
  unfold set_has_ic, set_has. cbn [existsb item_has xorb]. apply orb_false_r.
Qed.

Lemma is_item_text_inv (text : str) :
  is_item_text text = true ->
  exists c tl, text = c :: tl /\ is_mark_char c = false /\
               ch_is c "." = false /\ is_space c = false /\
               match rev text with
               | d :: _ => is_space d = false
               | [] => False
               end /\
               one_line text = true.
Proof.
  unfold is_item_text. intro H.
  apply andb_true_iff in H. destruct H as [H Hone].
  apply andb_true_iff in H. destruct H as [Hfirst Hlast].
  destruct text as [|c tl]; [discriminate|].
  apply andb_true_iff in Hfirst. destruct Hfirst as [Hfirst H3].
  apply andb_true_iff in Hfirst. destruct Hfirst as [H1 H2].
  apply negb_true_iff in H1, H2, H3.
  exists c, tl. repeat split; try assumption.
  destruct (rev (c :: tl)); [discriminate|].
  apply negb_true_iff in Hlast. exact Hlast.
Qed.

Lemma is_bullet_inv (b : Bullet) :
  is_bullet b = true ->
  nonempty (mark b) = true /\ forallb is_mark_char (mark b) = true /\
  forallb is_gap_char (gap b) = true /\ is_item_text (item b) = true.
Proof.
  unfold is_bullet. intro H.
  apply andb_true_iff in H. destruct H as [H H4].
  apply andb_true_iff in H. destruct H as [H H3].
  apply andb_true_iff in H. destruct H as [H1 H2]. auto.
Qed.

Lemma gap_is_space (s : str) :
  forallb is_gap_char s = true -> forallb is_space s = true.
Proof.
  intro H. rewrite forallb_forall in *. intros c Hc.
  specialize (H c Hc). unfold is_gap_char in H.
  apply andb_true_iff in H. apply H.
Qed.

(** The bullet expression takes the mark, the dot and the gap off a list
    line. *)
Lemma bullet_match (b : Bullet) :
  is_bullet b = true ->
  exists e,
    match_at false bullet_re (bullet_line b) 0 = Some (MResult 0 e []) /\
    e = length (mark b ++ (if dotted b then lit "." else []) ++ gap b).
Proof.
  intro Hb. destruct (is_bullet_inv b Hb) as [Hne [Hmark [Hgap Hitem]]].
  destruct (is_item_text_inv (item b) Hitem)
    as [c [tl [Htext [Hc1 [Hc2 [Hc3 _]]]]]].
  assert (Hrun : exists z,
            rmatch false bullet_re (MState (bullet_line b) 0 []) (fun y => Some y)
            = Some z /\
            pos z = length (mark b ++ (if dotted b then lit "." else []) ++ gap b) /\
            caps z = []).
  { rewrite bullet_re_ast. do 3 rewrite rmatch_seq.
    change (rmatch false RBol (MState (bullet_line b) 0 []))
      with (fun k : cont => k (MState (bullet_line b) 0 [])).
    cbv beta. unfold bullet_line.
    assert (Hmarks : forallb
              (fun ch => xorb false
                 (set_has_ic false
                    [CChar (chr "-"); CChar (chr "*"); CChar (chr "+"); CDigit] ch))
              (mark b) = true).
    { rewrite forallb_forall in *. intros ch Hch. rewrite mark_class.
      apply Hmark, Hch. }
    assert (Hgaps : forallb (fun ch => xorb false (set_has_ic false [CSpace] ch))
                      (gap b) = true).
    { rewrite forallb_forall. intros ch Hch. rewrite space_class.
      revert ch Hch. apply forallb_forall. apply gap_is_space. exact Hgap. }
    assert (Hlen : 1 <= length (mark b)).
    { destruct (mark b); [discriminate|]. cbn [length]. lia. }
    assert (Hg : match gap b with
                 | g :: _ => is_mark_char g = false /\ N.eqb (chr ".") g = false
                 | [] => True
                 end).
    { destruct (gap b) as [|g gs]; [exact I|].
      cbn [forallb] in Hgap. apply andb_true_iff in Hgap.
      destruct Hgap as [Hg _]. unfold is_gap_char in Hg.
      apply andb_true_iff in Hg. destruct Hg as [Hg _]. split.
      - unfold is_mark_char, ch_is.
        destruct (N.eqb g (chr "-")) eqn:E1;
          [apply N.eqb_eq in E1; subst g; discriminate|].
        destruct (N.eqb g (chr "*")) eqn:E2;
          [apply N.eqb_eq in E2; subst g; discriminate|].
        destruct (N.eqb g (chr "+")) eqn:E3;
          [apply N.eqb_eq in E3; subst g; discriminate|].
        cbn [orb]. destruct (is_digit g) eqn:E4; [|reflexivity].
        exfalso. unfold is_digit, in_range in E4.
        apply andb_true_iff in E4. destruct E4 as [E4 E5].
        apply N.leb_le in E4, E5.
        unfold is_space, in_range in Hg.
        repeat (apply orb_true_iff in Hg; destruct Hg as [Hg|Hg]);
          try (apply andb_true_iff in Hg; destruct Hg as [Hg Hg'];
               apply N.leb_le in Hg, Hg'; lia);
          try (apply N.eqb_eq in Hg; lia).
      - destruct (N.eqb (chr ".") g) eqn:E; [|reflexivity].
        apply N.eqb_eq in E. subst g. discriminate. }
    destruct (dotted b).
    - eexists. split.
      + apply rmatch_class_run; [exact Hmarks| |exact Hlen|].
        * unfold stops. cbn [app lit map list_ascii_of_string].
          rewrite mark_class. reflexivity.
        * cbv beta. cbn [app lit map list_ascii_of_string].
          apply rmatch_opt_hit.
          apply rmatch_class_run; [exact Hgaps| |lia|reflexivity].
          unfold stops. rewrite Htext, space_class. exact Hc3.
      + cbn [pos caps]. split; [|reflexivity].
        rewrite !length_app. cbn [length lit map list_ascii_of_string]. lia.
    - eexists. split.
      + apply rmatch_class_run; [exact Hmarks| |exact Hlen|].
        * unfold stops. cbn [app]. destruct (gap b) as [|g gs].
          -- cbn [app]. rewrite Htext, mark_class. exact Hc1.
          -- cbn [app]. rewrite mark_class. apply Hg.
        * cbv beta. cbn [app]. rewrite rmatch_opt_miss.
          -- apply rmatch_class_run; [exact Hgaps| |lia|reflexivity].
             unfold stops. rewrite Htext, space_class. exact Hc3.
          -- unfold stops. destruct (gap b) as [|g gs].
             ++ cbn [app]. rewrite Htext. unfold ch_is in Hc2.
                rewrite N.eqb_sym. exact Hc2.
             ++ cbn [app]. apply Hg.
      + cbn [pos caps]. split; [|reflexivity].
        rewrite !length_app. cbn [length]. lia. }
  destruct Hrun as [z [Hz [Hpos Hcaps]]].
  exists (pos z). split; [|exact Hpos].
  unfold match_at. rewrite Hz, Hcaps. reflexivity.
Qed.

Lemma trim_fixed (s : str) :
  match s with c :: _ => is_space c = false | [] => True end ->
  match rev s with c :: _ => is_space c = false | [] => True end ->
  trim s = s.
Proof.
  intros Hhead Hlast. unfold trim, trim_end.
  rewrite (trim_start_fixed s Hhead), (trim_start_fixed (rev s) Hlast).
  apply rev_involutive.
Qed.

Lemma visible_is_no_space (a : char) :
  (33 <= a)%N -> (a <= 159)%N -> is_space a = false.
Proof.
  intros Hlo Hhi.
  assert (Hne : forall k, (k < 33)%N \/ (159 < k)%N -> N.eqb a k = false).
  { intros k Hk. apply N.eqb_neq. lia. }
  unfold is_space, in_range. rewrite !Hne by lia.
  replace (a <=? 13)%N with false by (symmetry; apply N.leb_gt; lia).
  replace (8192 <=? a)%N with false by (symmetry; apply N.leb_gt; lia).
  rewrite andb_false_r. reflexivity.
Qed.

Lemma mark_not_space (c : char) :
  is_mark_char c = true -> is_space c = false.
Proof.
  unfold is_mark_char, ch_is. intro H.
  repeat (apply orb_true_iff in H; destruct H as [H|H]);
    try (apply N.eqb_eq in H; subst c; reflexivity).
  unfold is_digit, in_range in H. apply andb_true_iff in H.
  destruct H as [H1 H2]. apply N.leb_le in H1, H2.
  apply visible_is_no_space; lia.
Qed.

Lemma space_line_feed (c : char) :
  is_space c = false -> N.eqb c newline = false.
Proof.
  intro H. destruct (N.eqb c newline) eqn:E; [|reflexivity].
  apply N.eqb_eq in E. subst c. discriminate.
Qed.

(** What [extractListItems] does with one list line. *)
Lemma bullet_item (b : Bullet) :
  is_bullet b = true ->
  one_line (bullet_line b) = true /\
  trim (bullet_line b) = bullet_line b /\
  nonempty (bullet_line b) = true /\
  trim (replace_first false bullet_re [] (bullet_line b)) = item b /\
  nonempty (item b) = true.
Proof.
  intro Hb. destruct (is_bullet_inv b Hb) as [Hne [Hmark [Hgap Hitem]]].
  destruct (is_item_text_inv (item b) Hitem)
    as [c [tl [Htext [Hc1 [Hc2 [Hc3 [Hlast Hone]]]]]]].
  destruct (mark b) as [|m ms] eqn:Em; [discriminate|].
  assert (Hm : is_space m = false).
  { apply mark_not_space. cbn [forallb] in Hmark.
    apply andb_true_iff in Hmark. apply Hmark. }
  assert (Htrim : trim (item b) = item b).
  { apply trim_fixed.
    - rewrite Htext. exact Hc3.
    - destruct (rev (item b)); [exact I|exact Hlast]. }
  repeat split.
  - unfold bullet_line. rewrite Em, !one_line_app, Hone.
    assert (H1 : one_line (m :: ms) = true).
    { unfold one_line. rewrite forallb_forall in *. intros ch Hch.
      rewrite (space_line_feed ch); [reflexivity|].
      apply mark_not_space, Hmark, Hch. }
    assert (H2 : one_line (gap b) = true).
    { unfold one_line. rewrite forallb_forall in *. intros ch Hch.
      specialize (Hgap ch Hch). unfold is_gap_char in Hgap.
      apply andb_true_iff in Hgap. apply Hgap. }
    rewrite H1, H2. destruct (dotted b); reflexivity.
  - apply trim_fixed.
    + unfold bullet_line. rewrite Em. exact Hm.
    + unfold bullet_line. rewrite !rev_app_distr.
      destruct (rev (item b)) as [|d ds]; [destruct Hlast|exact Hlast].
  - unfold bullet_line. rewrite Em. reflexivity.
  - destruct (bullet_match b Hb) as [e [Hmatch He]].
    unfold replace_first, exec.
    rewrite (exec_from_hit false bullet_re (bullet_line b) 0 _ Hmatch).
    cbn [m_start m_end firstn app]. rewrite He. unfold bullet_line.
    replace (mark b ++ (if dotted b then lit "." else []) ++ gap b ++ item b)
      with ((mark b ++ (if dotted b then lit "." else []) ++ gap b) ++ item b)
      by (rewrite <- !app_assoc; reflexivity).
    rewrite skipn_app, skipn_all, Nat.sub_diag. exact Htrim.
  - rewrite Htext. reflexivity.
Qed.

Lemma bullets_items (bs : list Bullet) :
  forallb is_bullet bs = true ->
  filter nonempty
    (map (fun line => trim (replace_first false bullet_re [] line))
       (filter nonempty (map trim (map bullet_line bs))))
  = map item bs.
Proof.
  induction bs as [|b bs IH]; intro H; [reflexivity|].
  cbn [forallb] in H. apply andb_true_iff in H. destruct H as [Hb Hbs].
  destruct (bullet_item b Hb) as [_ [H1 [H2 [H3 H4]]]].
  cbn [map filter]. rewrite H1, H2. cbn [map filter]. rewrite H3, H4.
  f_equal. apply IH. exact Hbs.
Qed.

(** X14: bullets and numbering are taken off the lines of a list: for a
    text whose lines each consist of a mark (a run of [-], [*], [+] and
    digits), an optional dot, white space or none, and the text of the item,
    [extractListItems] returns the item texts, in order.  The mark may be
    any such run, so a leading number is taken off an item as well. *)
Theorem list_marks_are_removed (bs : list Bullet) :
  bs <> [] -> forallb is_bullet bs = true ->
  extractListItems (join [newline] (map bullet_line bs)) = map item bs.
Proof.
  intros Hne H. unfold extractListItems. rewrite split_on_join.
  - apply bullets_items. exact H.
  - destruct bs; [congruence|discriminate].
  - apply Forall_forall. intros line Hin.
    apply in_map_iff in Hin. destruct Hin as [b [Hline Hb]]. subst line.
    apply bullet_item. rewrite forallb_forall in H. apply H, Hb.
Qed.

Lemma list_marks_are_removed_witness :
  extractListItems
    (join [newline]
       (map bullet_line
          [mkBullet (lit "-") false (lit " ") (lit "renames the parser");
           mkBullet (lit "2") true (lit " ") (lit "adds a test");
           mkBullet (lit "**") false [] (lit "bold claim");
           mkBullet (lit "3") false (lit " ") (lit "files changed")]))
  = [lit "renames the parser"; lit "adds a test"; lit "bold claim";
     lit "files changed"].
Proof.
  apply (list_marks_are_removed
           [mkBullet (lit "-") false (lit " ") (lit "renames the parser");
            mkBullet (lit "2") true (lit " ") (lit "adds a test");
            mkBullet (lit "**") false [] (lit "bold claim");
            mkBullet (lit "3") false (lit " ") (lit "files changed")]);
    [discriminate|reflexivity].
Defined.

(** *** The section expressions, read without regular expressions *)

Lemma section_regexes_shape :
  summary_re = section_regex (lit "Summary") (lit "SUMMARY") after_summary /\
  purpose_re = section_regex (lit "Purpose") (lit "PURPOSE") after_purpose /\
  impact_re = section_regex (lit "Impact") (lit "IMPACT") after_impact /\
  doc_re = section_regex (lit "Documentation") (lit "DOCUMENTATION")
             after_documentation /\
  keyChanges_re = section_regex (lit "Key Changes") (lit "KEY CHANGES")
                    after_keyChanges /\
  suggestions_re = rest_regex (lit "Suggestions") (lit "SUGGESTIONS").
Proof. repeat split; vm_compute; reflexivity. Qed.

(** **** Words *)

Lemma word_of_fold (tl : str) :
  forall r w0, word_of r = Some w0 ->
    word_of (fold_left (fun acc a => RSeq acc (RChar a)) tl r) = Some (w0 ++ tl).
Proof.
  induction tl as [|a tl IH]; intros r w0 H.
  - simpl. rewrite app_nil_r. exact H.
  - cbn [fold_left]. rewrite (IH (RSeq r (RChar a)) (w0 ++ [a])).
    + rewrite <- app_assoc. reflexivity.
    + cbn [word_of]. rewrite H. reflexivity.
Qed.

Lemma word_of_word_regex (w : str) :
  w <> [] -> word_of (word_regex w) = Some w.
Proof.
  destruct w as [|c tl]; intro H; [congruence|].
  unfold word_regex. rewrite (word_of_fold tl (RChar c) [c]); reflexivity.
Qed.

Lemma rmatch_word_regex (w : str) (x : mstate) (c : cont) :
  w <> [] ->
  rmatch true (word_regex w) x c
  = if starts_ci w (rest x)
    then c (MState (skipn (length w) (rest x)) (pos x + length w) (caps x))
    else None.
Proof.
  intro H. apply rmatch_word. apply word_of_word_regex. exact H.
Qed.

Lemma length_same_upper (w1 w2 : str) :
  map to_upper w2 = map to_upper w1 -> length w2 = length w1.
Proof.
  intro H. apply (f_equal (@length _)) in H. rewrite !length_map in H. exact H.
Qed.

(** **** Separators and arbitrary characters *)

Lemma letter_is_no_sep (a : char) :
  (65 <= a)%N -> (a <= 122)%N -> is_sep a = false.
Proof.
  intros Hlo Hhi.
  assert (Hne : forall k, (k < 65)%N \/ (122 < k)%N -> N.eqb a k = false).
  { intros k Hk. apply N.eqb_neq. lia. }
  unfold is_sep, ch_is, is_space, in_range.
  change (chr ":") with 58%N. change (chr "-") with 45%N.
  rewrite !Hne by lia.
  replace (a <=? 13)%N with false by (symmetry; apply N.leb_gt; lia).
  replace (8192 <=? a)%N with false by (symmetry; apply N.leb_gt; lia).
  rewrite andb_false_r. reflexivity.
Qed.

Lemma sep_class (c : char) :
  xorb false
    (set_has_ic true [CChar (chr ":"); CChar (chr "-"); CSpace] c)
  = is_sep c.
Proof.
  assert (Hset : forall a, set_has [CChar (chr ":"); CChar (chr "-"); CSpace] a
                           = is_sep a).
  { intro a. unfold set_has, is_sep, ch_is. cbn [existsb item_has].
    rewrite (N.eqb_sym a (chr ":")), (N.eqb_sym a (chr "-")).
    rewrite orb_false_r, orb_assoc. reflexivity. }
  unfold set_has_ic. cbn [xorb]. rewrite !Hset.
  destruct (is_sep c) eqn:E; [reflexivity|]. cbn [orb].
  assert (Hup : is_sep (to_upper c) = false).
  { unfold to_upper. destruct (is_lower c) eqn:El; [|exact E].
    unfold is_lower, in_range in El. apply andb_true_iff in El.
    destruct El as [E1 E2]. apply N.leb_le in E1, E2.
    apply letter_is_no_sep; lia. }
  assert (Hlow : is_sep (to_lower c) = false).
  { unfold to_lower. destruct (is_upper c) eqn:Eu; [|exact E].
    unfold is_upper, in_range in Eu. apply andb_true_iff in Eu.
    destruct Eu as [E1 E2]. apply N.leb_le in E1, E2.
    apply letter_is_no_sep; lia. }
  rewrite Hup, Hlow. reflexivity.
Qed.

(** **** Where a section may stop *)

(** The alternatives of a lookahead, tried on a state: they succeed, with
    the captures untouched, when one of the words starts there or the input
    is used up. *)
Lemma next_alts_run (next : list str) :
  Forall (fun w => w <> []) next ->
  forall x,
    if existsb (fun w => starts_ci w (rest x)) next || is_empty (rest x)
    then exists z, rmatch true (next_alts next) x (fun y => Some y) = Some z /\
                   caps z = caps x
    else rmatch true (next_alts next) x (fun y => Some y) = None.
Proof.
  induction next as [|w next IH]; intros Hne x.
  - cbn [existsb orb next_alts fold_right rmatch].
    destruct (rest x) as [|a tl] eqn:E; cbn [is_empty]; [|reflexivity].
    exists x. split; reflexivity.
  - inversion Hne as [|? ? Hw Hnext]; subst.
    cbn [existsb next_alts fold_right].
    change (fold_right (fun w0 acc => RAlt (word_regex w0) acc) REol next)
      with (next_alts next).
    cbn [rmatch]. rewrite (rmatch_word_regex w x _ Hw).
    destruct (starts_ci w (rest x)) eqn:Ew.
    + cbn [orb orelse]. eexists. split; reflexivity.
    + cbn [orb orelse]. apply IH. exact Hnext.
Qed.

Lemma lookahead_boundary (next : list str) (y : mstate) (c : cont) :
  Forall (fun w => w <> []) next ->
  rmatch true (RLook true (RSeq (RChar newline) (next_alts next))) y c
  = if boundary next (rest y)
    then c (MState (rest y) (pos y) (caps y))
    else None.
Proof.
  intro Hne. cbn [rmatch]. unfold char_matcher.
  destruct (rest y) as [|a tl] eqn:E; [reflexivity|].
  cbn [boundary]. rewrite to_upper_line_feed.
  destruct (N.eqb newline a); [|reflexivity]. cbn [andb].
  pose proof (next_alts_run next Hne (MState tl (S (pos y)) (caps y))) as H.
  cbn [rest] in H.
  destruct (existsb (fun w => starts_ci w tl) next || is_empty tl).
  - destruct H as [z [Hz Hc]]. rewrite Hz. cbn [caps] in Hc. rewrite Hc.
    reflexivity.
  - rewrite H. reflexivity.
Qed.

(** **** The text of the section: as short as possible *)

Lemma text_until_prefix (stop : str -> bool) (s : str) :
  forall text, text_until stop s = Some text ->
    firstn (length text) s = text.
Proof.
  induction s as [|a s IH]; intros text H; cbn [text_until] in H.
  - destruct (stop []); [|discriminate]. inversion H. reflexivity.
  - destruct (stop (a :: s)); [inversion H; reflexivity|].
    destruct (text_until stop s) as [t|]; [|discriminate].
    inversion H. cbn [length firstn]. rewrite (IH t eq_refl). reflexivity.
Qed.

(** The lazy run of arbitrary characters, followed by a tail that holds
    exactly where [stop] does, ends at the first stop. *)
Lemma lazy_until (stop : str -> bool) (T : cont) (p0 : nat) :
  (forall y, T y = if stop (rest y) then Some y else None) ->
  forall s p cs,
    repeat_matcher
      (char_matcher (fun ch => xorb false (set_has_ic true [CSpace; CNotSpace] ch)))
      [] (length s + 1) 0 None false (MState s p cs)
      (fun y => T (cap_set 1 (p0, pos y) y))
    = match text_until stop s with
      | Some text =>
          Some (MState (skipn (length text) s) (p + length text)
                  ((1, (p0, p + length text)) :: cs))
      | None => None
      end.
Proof.
  intros HT. induction s as [|a s IH]; intros p cs.
  - cbn [length Nat.add repeat_matcher Nat.eqb negb text_until].
    rewrite cap_clear_nil. rewrite char_matcher_miss by exact I.
    rewrite HT. cbn [cap_set rest pos caps].
    destruct (stop []); cbn [orelse length skipn]; [|reflexivity].
    rewrite Nat.add_0_r. reflexivity.
  - cbn [length Nat.add repeat_matcher Nat.eqb negb text_until].
    rewrite cap_clear_nil. rewrite HT. cbn [cap_set rest pos caps].
    destruct (stop (a :: s)); cbn [orelse length skipn].
    + rewrite Nat.add_0_r. reflexivity.
    + rewrite char_matcher_hit by apply any_character. cbn [pos].
      replace (S p =? p) with false by (symmetry; apply Nat.eqb_neq; lia).
      cbn [andb option_map Nat.pred]. rewrite IH.
      destruct (text_until stop s) as [text|]; [|reflexivity].
      cbn [option_map length skipn].
      replace (S p + length text) with (p + S (length text)) by lia.
      reflexivity.
Qed.

Lemma any_text_until (stop : str -> bool) (T : cont) :
  (forall y, T y = if stop (rest y) then Some y else None) ->
  forall s p cs,
    rmatch true any_text (MState s p cs) T
    = match text_until stop s with
      | Some text =>
          Some (MState (skipn (length text) s) (p + length text)
                  ((1, (p, p + length text)) :: cs))
      | None => None
      end.
Proof.
  intros HT s p cs. unfold any_text. rewrite rmatch_group.
  cbn [rmatch groups_in rest pos Nat.add].
  apply (lazy_until stop T p HT).
Qed.

(** **** The separators: as many as possible, fewer if need be *)

Lemma sep_run_step (s : str) (p : nat) (cs : list (nat * (nat * nat)))
    (c : cont) :
  rmatch true sep_run (MState s p cs) c
  = match s with
    | a :: tl =>
        if is_sep a
        then orelse (rmatch true sep_run (MState tl (S p) cs) c)
               (c (MState s p cs))
        else c (MState s p cs)
    | [] => c (MState [] p cs)
    end.
Proof.
  unfold sep_run. cbn [rmatch groups_in rest]. destruct s as [|a tl].
  - cbn [length Nat.add repeat_matcher Nat.eqb negb]. rewrite cap_clear_nil.
    rewrite char_matcher_miss by exact I. reflexivity.
  - cbn [length Nat.add repeat_matcher Nat.eqb negb]. rewrite cap_clear_nil.
    unfold char_matcher at 1. cbn [rest pos caps]. rewrite sep_class.
    destruct (is_sep a); [|reflexivity].
    replace (S p =? p) with false by (symmetry; apply Nat.eqb_neq; lia).
    reflexivity.
Qed.

Lemma text_until_cons (stop : str -> bool) (a : char) (tl : str) :
  text_until stop (a :: tl)
  = if stop (a :: tl) then Some []
    else option_map (cons a) (text_until stop tl).
Proof. reflexivity. Qed.

(** What the separators and the text expression capture, started on what
    follows the heading word. *)
Lemma sep_run_reading (stop : str -> bool) (T : cont) :
  (forall y, T y = if stop (rest y) then Some y else None) ->
  forall s p cs,
    match reading_after stop s with
    | Some text =>
        exists z a,
          rmatch true sep_run (MState s p cs) (fun y => rmatch true any_text y T)
          = Some z /\
          cap_get 1 (caps z) = Some (p + a, p + a + length text) /\
          firstn (length text) (skipn a s) = text
    | None =>
        rmatch true sep_run (MState s p cs) (fun y => rmatch true any_text y T)
        = None
    end.
Proof.
  intro HT.
  assert (Hhere : forall s p cs,
            match text_until stop s with
            | Some text =>
                exists z a,
                  rmatch true any_text (MState s p cs) T = Some z /\
                  cap_get 1 (caps z) = Some (p + a, p + a + length text) /\
                  firstn (length text) (skipn a s) = text
            | None => rmatch true any_text (MState s p cs) T = None
            end).
  { intros s p cs. rewrite (any_text_until stop T HT).
    destruct (text_until stop s) as [text|] eqn:E; [|reflexivity].
    eexists. exists 0. split; [reflexivity|]. cbn [caps cap_get Nat.eqb skipn].
    rewrite Nat.add_0_r. split; [reflexivity|].
    apply text_until_prefix with stop. exact E. }
  induction s as [|a tl IH]; intros p cs.
  - rewrite sep_run_step. unfold reading_after. cbn [drop_seps].
    specialize (Hhere [] p cs).
    destruct (text_until stop []) as [text|]; exact Hhere.
  - rewrite sep_run_step. unfold reading_after. cbn [drop_seps].
    destruct (is_sep a) eqn:Ea.
    + specialize (IH (S p) cs). unfold reading_after in IH.
      destruct (text_until stop (drop_seps tl)) as [text|] eqn:Ed.
      * destruct IH as [z [k [Hz [Hcap Htext]]]].
        exists z, (S k). rewrite Hz. cbn [orelse].
        split; [reflexivity|]. split; [|exact Htext].
        rewrite Hcap. f_equal. f_equal; lia.
      * rewrite text_until_cons.
        destruct (text_until stop tl) as [t|] eqn:Et.
        -- destruct IH as [z [k [Hz [Hcap Htext]]]].
           destruct (stop (a :: tl)); cbn [option_map];
             (exists z, (S k); rewrite Hz; cbn [orelse];
              split; [reflexivity|]; split; [|exact Htext];
              rewrite Hcap; f_equal; f_equal; lia).
        -- rewrite IH. cbn [orelse option_map].
           specialize (Hhere (a :: tl) p cs). rewrite text_until_cons, Et in Hhere.
           cbn [option_map] in Hhere.
           destruct (stop (a :: tl)); exact Hhere.
    + specialize (Hhere (a :: tl) p cs).
      destruct (text_until stop (a :: tl)) as [text|]; exact Hhere.
Qed.

(** **** One section expression *)

Section OneSection.

Variables (w1 w2 : str) (stop : str -> bool) (tail : regex).

Hypothesis word1 : w1 <> [].
Hypothesis word2 : w2 <> [].
Hypothesis same : map to_upper w2 = map to_upper w1.

(** The tail of the expression holds exactly where [stop] does. *)
Hypothesis tail_stop :
  forall y, rmatch true tail y (fun z => Some z)
            = if stop (rest y) then Some y else None.

(** No stop inside the heading word. *)
Hypothesis word_stop :
  forall s k, starts_ci w1 s = true -> k < length w1 ->
              stop (skipn k s) = false.

Lemma heading_run (s : str) (i : nat) :
  rmatch true (RSeq (heading_regex w1 w2) tail) (MState s i []) (fun y => Some y)
  = if starts_ci w1 s
    then rmatch true sep_run (MState (skipn (length w1) s) (i + length w1) [])
           (fun y => rmatch true any_text y
                       (fun y' => rmatch true tail y' (fun z => Some z)))
    else None.
Proof.
  unfold heading_regex. do 3 rewrite rmatch_seq.
  change (rmatch true (RAlt (word_regex w1) (word_regex w2)) (MState s i []))
    with (fun k : cont =>
            orelse (rmatch true (word_regex w1) (MState s i []) k)
                   (rmatch true (word_regex w2) (MState s i []) k)).
  cbv beta. rewrite (rmatch_word_regex w1 _ _ word1), (rmatch_word_regex w2 _ _ word2).
  cbn [rest pos caps].
  rewrite <- (starts_ci_same w1 w2 (eq_sym same) s), (length_same_upper w1 w2 same).
  destruct (starts_ci w1 s); [|reflexivity].
  unfold orelse.
  destruct (rmatch true sep_run _ _); reflexivity.
Qed.

Lemma match_at_no_word (s : str) (i : nat) :
  starts_ci w1 s = false ->
  match_at true (RSeq (heading_regex w1 w2) tail) s i = None.
Proof.
  intro H. unfold match_at. rewrite heading_run, H. reflexivity.
Qed.

Lemma match_at_word (s : str) (i : nat) :
  starts_ci w1 s = true ->
  match reading_after stop (skipn (length w1) s) with
  | Some text =>
      exists m a,
        match_at true (RSeq (heading_regex w1 w2) tail) s i = Some m /\
        cap_get 1 (m_caps m)
        = Some (i + length w1 + a, i + length w1 + a + length text) /\
        firstn (length text) (skipn a (skipn (length w1) s)) = text
  | None => match_at true (RSeq (heading_regex w1 w2) tail) s i = None
  end.
Proof.
  intro H. unfold match_at. rewrite heading_run, H.
  pose proof (sep_run_reading stop
                (fun y' => rmatch true tail y' (fun z => Some z)) tail_stop
                (skipn (length w1) s) (i + length w1) []) as Hrun.
  destruct (reading_after stop (skipn (length w1) s)) as [text|].
  - destruct Hrun as [z [a [Hz [Hcap Htext]]]]. rewrite Hz.
    eexists. exists a. split; [reflexivity|]. split; [exact Hcap|exact Htext].
  - rewrite Hrun. reflexivity.
Qed.

Lemma find_ci_none (s : str) :
  find_ci w1 s = None ->
  forall i, exec_from true (RSeq (heading_regex w1 w2) tail) s i = None.
Proof.
  induction s as [|a s IH]; intros H i; cbn [find_ci] in H.
  - destruct (starts_ci w1 []) eqn:E; [discriminate|].
    cbn [exec_from]. rewrite (match_at_no_word [] i E). reflexivity.
  - destruct (starts_ci w1 (a :: s)) eqn:E; [discriminate|].
    cbn [exec_from]. rewrite (match_at_no_word (a :: s) i E).
    apply IH. destruct (find_ci w1 s); [discriminate|reflexivity].
Qed.

Lemma find_ci_some (s : str) :
  forall n i, find_ci w1 s = Some n ->
    starts_ci w1 (skipn n s) = true /\
    exec_from true (RSeq (heading_regex w1 w2) tail) s i
    = exec_from true (RSeq (heading_regex w1 w2) tail) (skipn n s) (i + n).
Proof.
  induction s as [|a s IH]; intros n i H; cbn [find_ci] in H.
  - destruct (starts_ci w1 []) eqn:E; [|discriminate].
    inversion H; subst n. rewrite Nat.add_0_r. split; [exact E|reflexivity].
  - destruct (starts_ci w1 (a :: s)) eqn:E.
    + inversion H; subst n. rewrite Nat.add_0_r. split; [exact E|reflexivity].
    + destruct (find_ci w1 s) as [k|] eqn:Ek; [|discriminate].
      inversion H; subst n. cbn [skipn exec_from].
      rewrite (match_at_no_word (a :: s) i E).
      destruct (IH k (S i) eq_refl) as [H1 H2]. split; [exact H1|].
      rewrite H2. f_equal. lia.
Qed.

Lemma exec_from_no_stop (s : str) :
  (forall k, stop (skipn k s) = false) ->
  forall i, exec_from true (RSeq (heading_regex w1 w2) tail) s i = None.
Proof.
  assert (Hat : forall s i, (forall k, stop (skipn k s) = false) ->
            match_at true (RSeq (heading_regex w1 w2) tail) s i = None).
  { intros s0 i Hs. unfold match_at. rewrite rmatch_seq, rmatch_blocked; [reflexivity|].
    intros y [k [Hrest _]]. cbn [rest] in Hrest.
    rewrite tail_stop, Hrest, Hs. reflexivity. }
  induction s as [|a s IH]; intros Hs i.
  - cbn [exec_from]. rewrite Hat by exact Hs. reflexivity.
  - cbn [exec_from]. rewrite Hat by exact Hs. apply IH.
    intro k. exact (Hs (S k)).
Qed.

Lemma text_until_none (s : str) :
  text_until stop s = None -> forall k, stop (skipn k s) = false.
Proof.
  induction s as [|a s IH]; intros H k; cbn [text_until] in H.
  - destruct (stop []) eqn:E; [discriminate|]. destruct k; exact E.
  - destruct (stop (a :: s)) eqn:E; [discriminate|].
    destruct k as [|k]; [exact E|]. cbn [skipn]. apply IH.
    destruct (text_until stop s); [discriminate|reflexivity].
Qed.

(** The method call [response.match(re)] followed by [f(m[1])] is the
    reading of the section, handed to [f]. *)
Lemma section_is_reading {A : Type} (f : str -> A) (response : str) :
  section (RSeq (heading_regex w1 w2) tail) f response
  = Returns
      (option_map f
         match find_ci w1 response with
         | Some n => reading_after stop (skipn (n + length w1) response)
         | None => None
         end).
Proof.
  unfold section, exec.
  destruct (find_ci w1 response) as [n|] eqn:En.
  - destruct (find_ci_some response n 0 En) as [Hstart Hexec].
    rewrite Hexec.
    assert (Hafter : skipn (length w1) (skipn n response)
                     = skipn (n + length w1) response).
    { rewrite skipn_skipn. f_equal. lia. }
    pose proof (match_at_word (skipn n response) (0 + n) Hstart) as Hm.
    rewrite Hafter in Hm.
    destruct (reading_after stop (skipn (n + length w1) response)) as [text|] eqn:Er.
    + destruct Hm as [m [a [Hm [Hcap Htext]]]].
      rewrite (exec_from_hit true _ (skipn n response) (0 + n) m Hm).
      unfold group. rewrite Hcap. unfold substring.
      replace (0 + n + length w1 + a + length text - (0 + n + length w1 + a))
        with (length text) by lia.
      replace (0 + n + length w1 + a) with (a + (n + length w1)) by lia.
      rewrite <- skipn_skipn, Htext. reflexivity.
    + rewrite exec_from_no_stop; [reflexivity|].
      assert (Hnone : text_until stop (skipn (n + length w1) response) = None).
      { unfold reading_after in Er.
        destruct (text_until stop (drop_seps (skipn (n + length w1) response)));
          [discriminate|].
        destruct (text_until stop (skipn (n + length w1) response));
          [discriminate|reflexivity]. }
      intro k. destruct (k <? length w1) eqn:Ek.
      * apply Nat.ltb_lt in Ek. apply word_stop; assumption.
      * apply Nat.ltb_ge in Ek.
        replace k with ((k - length w1) + length w1) by lia.
        rewrite <- skipn_skipn, Hafter. apply text_until_none. exact Hnone.
  - rewrite (find_ci_none response En 0). reflexivity.
Qed.

End OneSection.

(** **** The six expressions *)

Lemma boundary_tail (next : list str) :
  Forall (fun w => w <> []) next ->
  forall y,
    rmatch true (RLook true (RSeq (RChar newline) (next_alts next))) y
      (fun z => Some z)
    = if boundary next (rest y) then Some y else None.
Proof.
  intros Hne y. rewrite (lookahead_boundary next y _ Hne).
  destruct y as [r p cs]. reflexivity.
Qed.

Lemma eol_tail (y : mstate) :
  rmatch true REol y (fun z => Some z)
  = if is_empty (rest y) then Some y else None.
Proof. cbn [rmatch]. destruct (rest y); reflexivity. Qed.

Lemma starts_ci_at (w : str) :
  forall s k, starts_ci w s = true -> k < length w ->
    exists a tl, skipn k s = a :: tl /\
                 N.eqb (to_upper (nth k w 0%N)) (to_upper a) = true.
Proof.
  induction w as [|c w IH]; intros s k H Hk; [simpl in Hk; lia|].
  destruct s as [|b s]; [discriminate|].
  cbn [starts_ci] in H. apply andb_true_iff in H. destruct H as [Hc H].
  destruct k as [|k].
  - exists b, s. split; [reflexivity|exact Hc].
  - cbn [skipn nth]. apply IH; [exact H|]. simpl in Hk. lia.
Qed.

Lemma boundary_word_stop (w : str) (next : list str) :
  one_line w = true ->
  forall s k, starts_ci w s = true -> k < length w ->
              boundary next (skipn k s) = false.
Proof.
  intros Hone s k H Hk.
  destruct (starts_ci_at w s k H Hk) as [a [tl [Hskip Ha]]].
  rewrite Hskip. cbn [boundary].
  destruct (N.eqb newline a) eqn:E; [|reflexivity]. exfalso.
  apply N.eqb_eq in E. subst a. rewrite N.eqb_sym, to_upper_line_feed in Ha.
  unfold one_line in Hone. rewrite forallb_forall in Hone.
  specialize (Hone (nth k w 0%N) (nth_In w 0%N Hk)).
  apply negb_true_iff in Hone. rewrite N.eqb_sym in Hone. congruence.
Qed.

Lemma empty_word_stop (w : str) :
  forall s k, starts_ci w s = true -> k < length w ->
              is_empty (skipn k s) = false.
Proof.
  intros s k H Hk. destruct (starts_ci_at w s k H Hk) as [a [tl [Hskip _]]].
  rewrite Hskip. reflexivity.
Qed.

Lemma text_until_end (s : str) : text_until is_empty s = Some s.
Proof.
  induction s as [|a s IH]; [reflexivity|].
  cbn [text_until is_empty]. rewrite IH. reflexivity.
Qed.

Lemma section_regex_reading {A : Type} (w1 w2 : str) (next : list str)
    (f : str -> A) (response : str) :
  w1 <> [] -> w2 <> [] -> map to_upper w2 = map to_upper w1 ->
  one_line w1 = true -> Forall (fun w => w <> []) next ->
  section (section_regex w1 w2 next) f response
  = Returns (option_map f (section_reading w1 next response)).
Proof.
  intros H1 H2 Hup Hone Hnext. unfold section_regex, section_reading.
  apply (section_is_reading w1 w2 (boundary next) _ H1 H2 Hup
           (boundary_tail next Hnext) (boundary_word_stop w1 next Hone)).
Qed.

Lemma rest_regex_reading {A : Type} (w1 w2 : str) (f : str -> A)
    (response : str) :
  w1 <> [] -> w2 <> [] -> map to_upper w2 = map to_upper w1 ->
  section (rest_regex w1 w2) f response
  = Returns (option_map f (rest_reading w1 response)).
Proof.
  intros H1 H2 Hup. unfold rest_regex, rest_reading.
  rewrite (section_is_reading w1 w2 is_empty REol H1 H2 Hup eol_tail
             (empty_word_stop w1)).
  destruct (find_ci w1 response) as [n|]; [|reflexivity].
  unfold reading_after. rewrite text_until_end. reflexivity.
Qed.

Ltac section_side :=
  match goal with
  | |- _ <> [] => vm_compute; discriminate
  | |- map to_upper _ = map to_upper _ => vm_compute; reflexivity
  | |- one_line _ = true => vm_compute; reflexivity
  | |- Forall _ _ => repeat constructor; vm_compute; discriminate
  end.

(** X15: [extractSections], on every response, returns what a direct
    reading of the response gives, without regular expressions.  A section
    starts at the first occurrence of its heading word (in any letter
    case, anywhere in the text) and skips the colons, dashes and white
    space that follow; its text runs to the first line feed that is
    followed by one of the later heading words or by the end of the
    response (Suggestions: to the end of the response).  When the only such
    line feeds lie among the skipped separators the section is the empty
    text, and when there is none the section is absent. *)
Theorem extractSections_is_a_direct_reading (response : str) :
  extractSections response = Returns (sections_reading response).
Proof.
  destruct section_regexes_shape as [E1 [E2 [E3 [E4 [E5 E6]]]]].
  unfold extractSections. rewrite E1, E2, E3, E4, E5, E6.
  rewrite (section_regex_reading (lit "Summary") (lit "SUMMARY")
             after_summary trim response) by section_side.
  rewrite (section_regex_reading (lit "Purpose") (lit "PURPOSE")
             after_purpose trim response) by section_side.
  rewrite (section_regex_reading (lit "Impact") (lit "IMPACT")
             after_impact trim response) by section_side.
  rewrite (section_regex_reading (lit "Documentation") (lit "DOCUMENTATION")
             after_documentation trim response) by section_side.
  rewrite (section_regex_reading (lit "Key Changes") (lit "KEY CHANGES")
             after_keyChanges extractListItems response) by section_side.
  rewrite (rest_regex_reading (lit "Suggestions") (lit "SUGGESTIONS")
             extractListItems response) by section_side.
  reflexivity.
Qed.

(** *** A response that starts with its summary *)

Lemma same_word_starts (w heading : str) :
  same_word heading w = true ->
  forall tl, starts_ci w (heading ++ tl) = true /\
             skipn (length w) (heading ++ tl) = tl.
Proof.
  unfold same_word. intro H. apply GlobFacts.str_eqb_eq in H.
  revert heading H. induction w as [|c w IH]; intros [|b heading] H tl;
    try discriminate.
  - split; reflexivity.
  - cbn [map] in H. inversion H as [[Hb Hrest]].
    destruct (IH heading Hrest tl) as [H1 H2].
    cbn [app starts_ci length skipn]. rewrite Hb, N.eqb_refl, H1, H2.
    split; reflexivity.
Qed.

Lemma find_ci_here (w s : str) :
  starts_ci w s = true -> find_ci w s = Some 0.
Proof. intro H. destruct s; cbn [find_ci]; rewrite H; reflexivity. Qed.

Lemma drop_seps_run (seps s : str) :
  forallb is_sep seps = true -> starts_with_text s = true ->
  drop_seps (seps ++ s) = s.
Proof.
  intros Hseps Hs. induction seps as [|c seps IH].
  - destruct s as [|a s]; [discriminate|]. cbn [app drop_seps].
    cbn [starts_with_text] in Hs. apply negb_true_iff in Hs. rewrite Hs.
    reflexivity.
  - cbn [forallb] in Hseps. apply andb_true_iff in Hseps.
    destruct Hseps as [Hc Hseps]. cbn [app drop_seps]. rewrite Hc.
    apply IH. exact Hseps.
Qed.

Lemma text_until_line (next : list str) (text rest : str) :
  one_line text = true -> boundary next (newline :: rest) = true ->
  text_until (boundary next) (text ++ newline :: rest) = Some text.
Proof.
  intros Hone Hb. induction text as [|a text IH].
  - cbn [app text_until]. rewrite Hb. reflexivity.
  - cbn [one_line forallb] in Hone. apply andb_true_iff in Hone.
    destruct Hone as [Ha Hone]. apply negb_true_iff in Ha.
    cbn [app]. rewrite text_until_cons.
    cbn [boundary]. rewrite N.eqb_sym, Ha. cbn [andb].
    rewrite (IH Hone). reflexivity.
Qed.

(** X16: a response that starts with the word Summary (in any letter
    case), goes on with colons, dashes or blanks, then with one line of
    text, and then with a line feed followed by one of the headings
    Purpose, Key, Impact, Documentation, Suggestions or by nothing at all,
    has that line, trimmed, as its summary. *)
Theorem summary_line_is_extracted (heading seps text rest : str) :
  same_word heading (lit "Summary") = true ->
  forallb is_sep seps = true ->
  starts_with_text text = true -> one_line text = true ->
  boundary after_summary (newline :: rest) = true ->
  exists sections,
    extractSections (heading ++ seps ++ text ++ newline :: rest)
    = Returns sections /\
    s_summary sections = Some (trim text).
Proof.
  intros Hhead Hseps Htext Hone Hb.
  destruct section_regexes_shape as [E1 _].
  unfold extractSections. rewrite E1.
  rewrite (section_regex_reading (lit "Summary") (lit "SUMMARY")
             after_summary trim) by section_side.
  cbn [bind].
  section_found v2 E2. section_found v3 E3. section_found v4 E4.
  section_found v5 E5. section_found v6 E6.
  eexists. split; [reflexivity|]. cbn [s_summary].
  destruct (same_word_starts (lit "Summary") heading Hhead
              (seps ++ text ++ newline :: rest)) as [Hstart Hskip].
  unfold section_reading.
  rewrite (find_ci_here _ _ Hstart). cbn [Nat.add]. rewrite Hskip.
  unfold reading_after. rewrite (drop_seps_run seps _ Hseps).
  - rewrite (text_until_line after_summary text rest Hone Hb). reflexivity.
  - destruct text as [|a text]; [exact Htext|exact Htext].
Qed.

Lemma summary_line_is_extracted_witness :
  exists sections,
    extractSections
      (lit "SUMMARY" ++ lit " - " ++ lit "moves the parser " ++
       newline :: lit "Key changes: none")
    = Returns sections /\
    s_summary sections = Some (lit "moves the parser").
Proof.
  apply (summary_line_is_extracted (lit "SUMMARY") (lit " - ")
           (lit "moves the parser ") (lit "Key changes: none"));
    reflexivity.
Defined.

End ExtractionFacts.

(** * The analysis section of the README *)

Module ReadmeFacts.
Import JsString Cli.

(** *** Searching a text that is put together from parts *)

(** A search that finds no start among the first characters goes on behind
    them. *)
Lemma indexOf_from_skip (needle : str) (pre : str) :
  forall s i,
    (forall k, k < length pre -> startsWith needle (skipn k (pre ++ s)) = false) ->
    indexOf_from needle (pre ++ s) i = indexOf_from needle s (i + length pre).
Proof.
  induction pre as [|a pre IH]; intros s i H.
  - cbn [app length]. rewrite Nat.add_0_r. reflexivity.
  - assert (H0 : startsWith needle (a :: pre ++ s) = false).
    { apply (H 0). cbn [length]. lia. }
    cbn [app indexOf_from]. rewrite H0, IH.
    + f_equal. cbn [length]. lia.
    + intros k Hk. apply (H (S k)). cbn [length]. lia.
Qed.

Lemma indexOf_from_here (needle s : str) (i : nat) :
  startsWith needle s = true -> indexOf_from needle s i = Some i.
Proof. intro H. destruct s; cbn [indexOf_from]; rewrite H; reflexivity. Qed.

Lemma startsWith_app (needle tl : str) : startsWith needle (needle ++ tl) = true.
Proof.
  induction needle as [|c needle IH]; [reflexivity|].
  cbn [app startsWith]. rewrite N.eqb_refl. exact IH.
Qed.

(** A start of [needle] that is not a start within [p] alone runs over the
    end of [p]: what follows [p] begins with a character of the tail of
    [needle]. *)
Lemma startsWith_straddle (needle : str) :
  forall p s, p <> [] ->
    startsWith needle (p ++ s) = true -> startsWith needle p = false ->
    exists c0 t, s = c0 :: t /\ In c0 (List.tl needle).
Proof.
  induction needle as [|m needle IH]; intros p s Hp H Hn; [discriminate|].
  destruct p as [|a p]; [congruence|].
  cbn [app startsWith] in H, Hn. apply andb_true_iff in H. destruct H as [Hm H].
  rewrite Hm in Hn. cbn [andb] in Hn. cbn [List.tl].
  destruct p as [|b p].
  - cbn [app] in H. destruct needle as [|n needle]; [discriminate|].
    destruct s as [|c0 s]; [discriminate|].
    cbn [startsWith] in H. apply andb_true_iff in H. destruct H as [Hc _].
    apply N.eqb_eq in Hc. subst c0. exists n, s. split; [reflexivity|left; reflexivity].
  - destruct (IH (b :: p) s) as [c0 [t [Hs Hin]]]; try assumption; [discriminate|].
    exists c0, t. split; [exact Hs|].
    destruct needle as [|n needle]; [destruct Hin|]. right. exact Hin.
Qed.

(** No start of [needle] among the characters of [pre], when [needle] does
    not occur in [pre] and the text goes on with a character that the tail
    of [needle] does not hold. *)
Lemma no_start_in (needle pre s : str) :
  occurs needle pre = false ->
  match s with
  | c0 :: _ => existsb (N.eqb c0) (List.tl needle) = false
  | [] => True
  end ->
  forall k, k < length pre -> startsWith needle (skipn k (pre ++ s)) = false.
Proof.
  intros Hocc Hs. induction pre as [|a pre IH]; intros k Hk;
    [cbn [length] in Hk; lia|].
  cbn [occurs] in Hocc. apply orb_false_iff in Hocc. destruct Hocc as [Hhere Hocc].
  destruct k as [|k].
  - cbn [skipn].
    destruct (startsWith needle ((a :: pre) ++ s)) eqn:E; [|reflexivity].
    exfalso.
    destruct (startsWith_straddle needle (a :: pre) s) as [c0 [t [Hs' Hin]]];
      try assumption; [discriminate|].
    subst s. assert (Hex : existsb (N.eqb c0) (List.tl needle) = true).
    { apply existsb_exists. exists c0. split; [exact Hin|apply N.eqb_refl]. }
    congruence.
  - cbn [app skipn]. apply IH; [exact Hocc|]. cbn [length] in Hk. lia.
Qed.

(** Characters that cannot start [needle] in front of a text do not add an
    occurrence. *)
Lemma occurs_behind (needle q s : str) :
  match needle with
  | m :: _ => existsb (N.eqb m) q = false
  | [] => False
  end ->
  occurs needle (q ++ s) = occurs needle s.
Proof.
  destruct needle as [|m needle]; [intros []|]. intro Hq.
  induction q as [|c q IH]; [reflexivity|].
  cbn [existsb] in Hq. apply orb_false_iff in Hq. destruct Hq as [Hc Hq].
  cbn [app occurs startsWith]. rewrite Hc. cbn [andb orb]. apply IH. exact Hq.
Qed.

Lemma occurs_app_line (needle a b : str) :
  needle <> [] -> existsb (N.eqb newline) needle = false ->
  occurs needle a = false -> occurs needle b = false ->
  occurs needle (a ++ newline :: b) = false.
Proof.
  intros Hne Hnl Ha Hb. induction a as [|c a IH].
  - cbn [app occurs]. rewrite Hb, orb_false_r.
    destruct needle as [|m needle]; [congruence|].
    cbn [startsWith]. cbn [existsb] in Hnl. apply orb_false_iff in Hnl.
    destruct Hnl as [Hm _]. rewrite N.eqb_sym, Hm. reflexivity.
  - cbn [occurs] in Ha. apply orb_false_iff in Ha. destruct Ha as [Hhere Ha].
    cbn [app occurs]. rewrite (IH Ha), orb_false_r.
    destruct (startsWith needle (c :: a ++ newline :: b)) eqn:E; [|reflexivity].
    exfalso.
    destruct (startsWith_straddle needle (c :: a) (newline :: b))
      as [c0 [t [Hs Hin]]]; try assumption; [discriminate|].
    inversion Hs; subst c0 t.
    assert (Hex : existsb (N.eqb newline) needle = true).
    { apply existsb_exists. exists newline. split; [|apply N.eqb_refl].
      destruct needle as [|m needle]; [destruct Hin|]. right. exact Hin. }
    congruence.
Qed.

Lemma occurs_none (needle s : str) :
  occurs needle s = false -> forall i, indexOf_from needle s i = None.
Proof.
  induction s as [|a s IH]; intros H i; cbn [occurs] in H;
    apply orb_false_iff in H; destruct H as [Hhere H];
    cbn [indexOf_from]; rewrite Hhere; [reflexivity|]. apply IH. exact H.
Qed.

Lemma skipn_behind {A : Type} (pre s : list A) (k : nat) :
  skipn (length pre + k) (pre ++ s) = skipn k s.
Proof.
  rewrite Nat.add_comm, <- skipn_skipn, skipn_app, skipn_all, Nat.sub_diag.
  reflexivity.
Qed.

(** *** A marker whose first character does not come back in it *)

Section Marker.

Variables (m : char) (needle' : str).

Let marker : str := m :: needle'.

Hypothesis head_once : existsb (N.eqb m) needle' = false.
Hypothesis one_line : existsb (N.eqb newline) marker = false.

Lemma first_marker (pre s : str) :
  occurs marker pre = false ->
  indexOf marker (pre ++ marker ++ s) 0 = Some (length pre).
Proof.
  intro Hpre. unfold indexOf. cbn [skipn].
  rewrite indexOf_from_skip.
  - apply indexOf_from_here. apply startsWith_app.
  - apply no_start_in; [exact Hpre|]. exact head_once.
Qed.

Lemma occurs_behind_marker (s : str) :
  occurs marker (needle' ++ s) = occurs marker s.
Proof. apply occurs_behind. exact head_once. Qed.

Lemma second_marker (pre mid post : str) :
  occurs marker mid = false ->
  indexOf marker (pre ++ marker ++ mid ++ marker ++ post) (length pre + 1)
  = Some (length pre + length marker + length mid).
Proof.
  intro Hmid. unfold indexOf. rewrite skipn_behind.
  change (skipn 1 (marker ++ mid ++ marker ++ post))
    with (needle' ++ mid ++ marker ++ post).
  rewrite app_assoc, indexOf_from_skip.
  - rewrite (indexOf_from_here marker _ _ (startsWith_app marker post)).
    f_equal. rewrite length_app. unfold marker. cbn [length]. lia.
  - apply no_start_in; [|exact head_once].
    rewrite occurs_behind_marker. exact Hmid.
Qed.

Lemma no_second_marker (pre tail : str) :
  occurs marker tail = false ->
  indexOf marker (pre ++ marker ++ tail) (length pre + 1) = None.
Proof.
  intro Htail. unfold indexOf. rewrite skipn_behind.
  change (skipn 1 (marker ++ tail)) with (needle' ++ tail).
  apply occurs_none. rewrite occurs_behind_marker. exact Htail.
Qed.

Lemma occurs_line_feeds (a b : str) :
  occurs marker a = false -> occurs marker b = false ->
  occurs marker (a ++ [newline; newline] ++ b) = false.
Proof.
  intros Ha Hb.
  assert (Hne : marker <> []) by discriminate.
  change (a ++ [newline; newline] ++ b) with (a ++ newline :: (newline :: b)).
  apply (occurs_app_line marker a (newline :: b) Hne one_line Ha).
  apply (occurs_app_line marker [] b Hne one_line); [reflexivity|exact Hb].
Qed.

End Marker.

(** *** The section marker of the program *)

Lemma marker_first (pre s : str) :
  occurs sectionMarker pre = false ->
  indexOf sectionMarker (pre ++ sectionMarker ++ s) 0 = Some (length pre).
Proof.
  exact (first_marker (chr "<") (lit "!-- AI Code Context Analysis -->")
           eq_refl pre s).
Qed.

Lemma marker_second (pre mid post : str) :
  occurs sectionMarker mid = false ->
  indexOf sectionMarker (pre ++ sectionMarker ++ mid ++ sectionMarker ++ post)
    (length pre + 1)
  = Some (length pre + length sectionMarker + length mid).
Proof.
  exact (second_marker (chr "<") (lit "!-- AI Code Context Analysis -->")
           eq_refl pre mid post).
Qed.

Lemma marker_no_second (pre tail : str) :
  occurs sectionMarker tail = false ->
  indexOf sectionMarker (pre ++ sectionMarker ++ tail) (length pre + 1) = None.
Proof.
  exact (no_second_marker (chr "<") (lit "!-- AI Code Context Analysis -->")
           eq_refl pre tail).
Qed.

Lemma marker_line_feeds (a b : str) :
  occurs sectionMarker a = false -> occurs sectionMarker b = false ->
  occurs sectionMarker (a ++ [newline; newline] ++ b) = false.
Proof.
  exact (occurs_line_feeds (chr "<") (lit "!-- AI Code Context Analysis -->")
           eq_refl a b).
Qed.

Lemma newContent_replaces (pre mid post report : str) :
  occurs sectionMarker pre = false -> occurs sectionMarker mid = false ->
  newContent (pre ++ sectionMarker ++ mid ++ sectionMarker ++ post) report
  = pre ++ section_block report ++ post.
Proof.
  intros Hpre Hmid. unfold newContent.
  rewrite (marker_first pre _ Hpre), (marker_second pre mid post Hmid).
  unfold substring, substring_from. cbn [skipn]. rewrite Nat.sub_0_r.
  rewrite firstn_app, firstn_all, Nat.sub_diag. cbn [firstn].
  rewrite app_nil_r. f_equal. f_equal.
  replace (length pre + length sectionMarker + length mid + length sectionMarker)
    with (length (pre ++ sectionMarker ++ mid ++ sectionMarker) + 0)
    by (rewrite !length_app; lia).
  replace (pre ++ sectionMarker ++ mid ++ sectionMarker ++ post)
    with ((pre ++ sectionMarker ++ mid ++ sectionMarker) ++ post)
    by (rewrite <- !app_assoc; reflexivity).
  apply skipn_behind.
Qed.

Lemma newContent_appends (content report : str) :
  occurs sectionMarker content = false ->
  newContent content report = appended content report.
Proof.
  intro H. unfold newContent, indexOf. cbn [skipn].
  rewrite (occurs_none sectionMarker content H). reflexivity.
Qed.

(** X17: when the README holds the section marker twice, with no marker
    before the first and none in between, the update replaces what stands
    between the two markers by the new report (set off by blank lines) and
    keeps the text before the first and after the second marker as it
    is. *)
Theorem readme_section_is_replaced_in_place (pre mid post report : str) :
  occurs sectionMarker pre = false -> occurs sectionMarker mid = false ->
  newContent (pre ++ sectionMarker ++ mid ++ sectionMarker ++ post) report
  = pre ++ sectionMarker ++ [newline; newline] ++ report ++
    [newline; newline] ++ sectionMarker ++ post.
Proof.
  intros Hpre Hmid. rewrite (newContent_replaces pre mid post report Hpre Hmid).
  unfold section_block. rewrite <- !app_assoc. reflexivity.
Qed.

Lemma readme_section_is_replaced_in_place_witness :
  newContent
    (lit "# Tool" ++ sectionMarker ++ lit "old report" ++ sectionMarker ++
     lit "License: MIT") (lit "new report")
  = lit "# Tool" ++ sectionMarker ++ [newline; newline] ++ lit "new report" ++
    [newline; newline] ++ sectionMarker ++ lit "License: MIT".
Proof.
  apply (readme_section_is_replaced_in_place (lit "# Tool") (lit "old report")
           (lit "License: MIT") (lit "new report")); reflexivity.
Defined.

(** X18: updating twice is updating once with the later report: for a
    README and a first report that do not hold the marker, the second
    update replaces the section that the first one appended, and the
    result is what the second update alone gives. *)
Theorem readme_update_overwrites_previous (content report1 report2 : str) :
  occurs sectionMarker content = false ->
  occurs sectionMarker report1 = false ->
  newContent (newContent content report1) report2 = newContent content report2.
Proof.
  intros Hc Hr.
  rewrite (newContent_appends content report1 Hc),
          (newContent_appends content report2 Hc).
  unfold appended, section_block.
  replace (content ++ [newline; newline] ++ sectionMarker ++ [newline; newline]
           ++ report1 ++ [newline; newline] ++ sectionMarker)
    with ((content ++ [newline; newline] ++ []) ++ sectionMarker ++
          ([] ++ [newline; newline] ++ report1 ++ [newline; newline] ++ [])
          ++ sectionMarker ++ [])
    by (cbn [app]; rewrite <- !app_assoc; cbn [app]; rewrite app_nil_r;
        reflexivity).
  rewrite newContent_replaces.
  - unfold section_block. cbn [app]. rewrite <- !app_assoc. cbn [app].
    rewrite app_nil_r. reflexivity.
  - apply marker_line_feeds; [exact Hc|reflexivity].
  - apply (marker_line_feeds []); [reflexivity|].
    apply marker_line_feeds; [exact Hr|reflexivity].
Qed.

Lemma readme_update_overwrites_previous_witness :
  newContent (newContent (lit "# Tool") (lit "first")) (lit "second")
  = newContent (lit "# Tool") (lit "second").
Proof.
  apply (readme_update_overwrites_previous (lit "# Tool") (lit "first")
           (lit "second")); reflexivity.
Defined.

(** X19: a README that holds the marker exactly once gets a complete
    section appended by the first update; the second update then takes the
    stray marker for the start of the section and the appended one for its
    end: the text that followed the stray marker is replaced by the new
    report, and the report of the first update stays behind it, followed
    by a third marker. *)
Theorem stray_marker_swallows_text (pre tail report1 report2 : str) :
  occurs sectionMarker pre = false -> occurs sectionMarker tail = false ->
  newContent (newContent (pre ++ sectionMarker ++ tail) report1) report2
  = pre ++ section_block report2 ++ [newline; newline] ++ report1 ++
    [newline; newline] ++ sectionMarker.
Proof.
  intros Hpre Htail.
  assert (Hfirst : newContent (pre ++ sectionMarker ++ tail) report1
                   = appended (pre ++ sectionMarker ++ tail) report1).
  { unfold newContent.
    rewrite (marker_first pre tail Hpre), (marker_no_second pre tail Htail).
    reflexivity. }
  rewrite Hfirst. unfold appended, section_block.
  replace ((pre ++ sectionMarker ++ tail) ++ [newline; newline] ++ sectionMarker
           ++ [newline; newline] ++ report1 ++ [newline; newline] ++ sectionMarker)
    with (pre ++ sectionMarker ++ (tail ++ [newline; newline] ++ []) ++
          sectionMarker ++
          ([newline; newline] ++ report1 ++ [newline; newline] ++ sectionMarker))
    by (cbn [app]; rewrite <- !app_assoc; cbn [app]; reflexivity).
  rewrite newContent_replaces; [reflexivity|exact Hpre|].
  apply marker_line_feeds; [exact Htail|reflexivity].
Qed.

Lemma stray_marker_swallows_text_witness :
  newContent
    (newContent (lit "# Tool" ++ sectionMarker ++ lit "my own notes")
       (lit "first")) (lit "second")
  = lit "# Tool" ++ section_block (lit "second") ++ [newline; newline] ++
    lit "first" ++ [newline; newline] ++ sectionMarker.
Proof.
  apply (stray_marker_swallows_text (lit "# Tool") (lit "my own notes")
           (lit "first") (lit "second")); reflexivity.
Defined.

End ReadmeFacts.

(** * The arguments of the command line *)

Module CliFacts.
Import JsString Cli ConfigManager.

(** *** Splitting and joining *)

Lemma split_walk_nonempty (sep : str) :
  forall s k, split_walk sep s k <> [].
Proof.
  induction s as [|c s IH]; intro k; [discriminate|].
  cbn [split_walk]. destruct k as [|k]; [|apply IH].
  destruct (startsWith sep (c :: s)); [discriminate|].
  destruct (split_walk sep s 0); discriminate.
Qed.

Lemma join_cons_head (sep : str) (c : char) (l : str) (ls : list str) :
  join sep ((c :: l) :: ls) = c :: join sep (l :: ls).
Proof. destruct ls; reflexivity. Qed.

Lemma join_empty_head (sep : str) (ls : list str) :
  ls <> [] -> join sep ([] :: ls) = sep ++ join sep ls.
Proof. destruct ls; [congruence|reflexivity]. Qed.

Lemma startsWith_cut (sep s : str) :
  startsWith sep s = true -> s = sep ++ skipn (length sep) s.
Proof.
  revert s. induction sep as [|a sep IH]; intros s H; [reflexivity|].
  destruct s as [|b s]; [discriminate|].
  cbn [startsWith] in H. apply andb_true_iff in H. destruct H as [Hab H].
  apply N.eqb_eq in Hab. subst b. cbn [length skipn app]. f_equal.
  apply IH. exact H.
Qed.

(** Joining the parts with the separator gives the text back. *)
Lemma join_split_walk (sep : str) :
  sep <> [] ->
  forall s k, join sep (split_walk sep s k) = skipn k s.
Proof.
  intro Hsep. induction s as [|c s IH]; intro k.
  - destruct k; reflexivity.
  - cbn [split_walk]. destruct k as [|k]; [|apply IH].
    destruct (startsWith sep (c :: s)) eqn:E.
    + rewrite join_empty_head by apply split_walk_nonempty.
      rewrite IH. cbn [skipn].
      transitivity (sep ++ skipn (length sep) (c :: s));
        [|symmetry; apply startsWith_cut; exact E].
      f_equal. destruct sep as [|a sep]; [congruence|].
      cbn [length skipn Nat.sub]. rewrite ?Nat.sub_0_r. reflexivity.
    + specialize (IH 0). cbn [skipn] in IH.
      destruct (split_walk sep s 0) as [|l ls] eqn:Es.
      * exfalso. exact (split_walk_nonempty sep s 0 Es).
      * rewrite join_cons_head, IH. reflexivity.
Qed.

Lemma join_split_str (sep s : str) :
  sep <> [] -> join sep (split_str sep s) = s.
Proof. intro H. exact (join_split_walk sep H s 0). Qed.

Lemma split_str_without (sep s : str) :
  occurs sep s = false -> split_str sep s = [s].
Proof.
  unfold split_str. induction s as [|c s IH]; intro H; [reflexivity|].
  cbn [occurs] in H. apply orb_false_iff in H. destruct H as [Hhere H].
  cbn [split_walk]. rewrite Hhere, (IH H). reflexivity.
Qed.

(** X20: a [--commit] argument that the separator [..] cuts into exactly
    two parts reaches git unchanged: splitting it and putting the range
    together again gives the argument back.  This also holds for a
    three-dot range such as [main...feature], whose parts are [main] and
    [.feature]. *)
Theorem two_part_range_reaches_git_unchanged (commit from to : str) :
  split_str (lit "..") commit = [from; to] ->
  diff_range commit = commit.
Proof.
  intro H. unfold diff_range, commit_parts.
  destruct (occurs (lit "..") commit) eqn:E.
  - rewrite H.
    pose proof (join_split_str (lit "..") commit) as Hjoin.
    rewrite H in Hjoin. apply Hjoin. discriminate.
  - rewrite (split_str_without _ _ E) in H. discriminate.
Qed.

Lemma two_part_range_reaches_git_unchanged_witness :
  diff_range (lit "main...feature") = lit "main...feature".
Proof.
  apply (two_part_range_reaches_git_unchanged (lit "main...feature")
           (lit "main") (lit ".feature")).
  reflexivity.
Defined.

(** *** [config --set key=value] *)

Lemma split_on_part (sep : char) (l rest : str) :
  forallb (fun c => negb (N.eqb c sep)) l = true ->
  split_on sep (l ++ sep :: rest) = l :: split_on sep rest.
Proof.
  induction l as [|c l IH]; intro H.
  - cbn [app split_on]. rewrite N.eqb_refl. reflexivity.
  - cbn [forallb] in H. apply andb_true_iff in H. destruct H as [Hc Hl].
    apply negb_true_iff in Hc. cbn [app split_on]. rewrite Hc, (IH Hl).
    reflexivity.
Qed.

Lemma split_on_whole (sep : char) (l : str) :
  forallb (fun c => negb (N.eqb c sep)) l = true -> split_on sep l = [l].
Proof.
  induction l as [|c l IH]; intro H; [reflexivity|].
  cbn [forallb] in H. apply andb_true_iff in H. destruct H as [Hc Hl].
  apply negb_true_iff in Hc. cbn [split_on]. rewrite Hc, (IH Hl). reflexivity.
Qed.

(** X21: [config --set] takes the text before the first [=] as the key and
    the text between the first and the second [=] as the value: a value
    that holds an [=] itself is cut there, and what follows is dropped
    without a word. *)
Theorem set_value_is_cut_at_equals_sign (key value rest : str) :
  Analyzer.nonempty key = true -> Analyzer.nonempty value = true ->
  forallb (fun c => negb (N.eqb c (chr "="))) key = true ->
  forallb (fun c => negb (N.eqb c (chr "="))) value = true ->
  set_pair (key ++ lit "=" ++ value) = Some (key, value) /\
  set_pair (key ++ lit "=" ++ value ++ lit "=" ++ rest) = Some (key, value).
Proof.
  intros Hk Hv Hkey Hvalue. unfold set_pair.
  change (key ++ lit "=" ++ value) with (key ++ chr "=" :: value).
  change (key ++ lit "=" ++ value ++ lit "=" ++ rest)
    with (key ++ chr "=" :: (value ++ chr "=" :: rest)).
  rewrite !(split_on_part (chr "=") key) by exact Hkey.
  rewrite (split_on_whole (chr "=") value Hvalue).
  rewrite (split_on_part (chr "=") value rest Hvalue).
  rewrite Hk, Hv. split; reflexivity.
Qed.

Lemma set_value_is_cut_at_equals_sign_witness :
  set_pair (lit "apiKey" ++ lit "=" ++ lit "c2VjcmV0" ++ lit "=" ++ lit "=")
  = Some (lit "apiKey", lit "c2VjcmV0").
Proof.
  apply (proj2 (set_value_is_cut_at_equals_sign (lit "apiKey") (lit "c2VjcmV0")
                  (lit "=") eq_refl eq_refl eq_refl eq_refl)).
Defined.

(** X22: [config --set key=value] does not read the configuration file
    before it writes it: the manager it creates holds the defaults, so the
    file written holds the default configuration with the one key
    replaced, whatever the file (and every other file) held before.
    Settings made earlier are lost. *)
Theorem config_set_writes_defaults_and_one_key (d : disk)
    (projectRoot arg key value : str) :
  set_pair arg = Some (key, value) ->
  exists stored,
    manageConfig_set d projectRoot arg (config_path projectRoot) = Some stored /\
    forall k,
      stored k
      = if Glob.str_eqb k key && negb (Glob.str_eqb key (lit "__proto__"))
        then Some (JStr value)
        else DEFAULT_CONFIG k.
Proof.
  intro H. unfold manageConfig_set. rewrite H.
  unfold save, new_ConfigManager, writeJson. cbn [fst configPath config].
  rewrite GlobFacts.str_eqb_refl. eexists. split; [reflexivity|].
  intro k. unfold spread, single, empty.
  destruct (Glob.str_eqb key (lit "__proto__")).
  - rewrite andb_false_r. destruct (DEFAULT_CONFIG k); reflexivity.
  - rewrite andb_true_r. cbn [literal].
    destruct (Glob.str_eqb k key); [reflexivity|].
    destruct (DEFAULT_CONFIG k); reflexivity.
Qed.

Lemma config_set_writes_defaults_and_one_key_witness :
  exists stored,
    manageConfig_set
      (fun _ => Some (literal [(lit "apiKey", JStr (lit "sk-123"))]))
      (lit "/repo") (lit "model=gpt-4o") (lit "/repo/.aicontext.json")
    = Some stored /\
    stored (lit "apiKey") = None /\
    stored (lit "model") = Some (JStr (lit "gpt-4o")).
Proof.
  destruct (config_set_writes_defaults_and_one_key
              (fun _ => Some (literal [(lit "apiKey", JStr (lit "sk-123"))]))
              (lit "/repo") (lit "model=gpt-4o") (lit "model") (lit "gpt-4o")
              eq_refl) as [stored [Hs Hk]].
  exists stored. split; [exact Hs|]. split; rewrite Hk; reflexivity.
Defined.

End CliFacts.

(** * The language of a file *)

Module LanguageFacts.
Import JsString Language.

(** *** The loop of [extname] *)

Lemma scan_back_cons (code : char) (more : str) (i : nat) (st : scan_state) :
  scan_back (code :: more) i st
  = if N.eqb code CHAR_FORWARD_SLASH then
      if negb (matchedSlash st)
      then mkScan (startDot st) (i + 1) (endIdx st) (matchedSlash st)
             (preDotState st)
      else scan_back more (i - 1) st
    else
      let st1 :=
        match endIdx st with
        | None => mkScan (startDot st) (startPart st) (Some (i + 1)) false
                    (preDotState st)
        | Some _ => st
        end in
      let st2 :=
        if N.eqb code CHAR_DOT then
          match startDot st1 with
          | None => mkScan (Some i) (startPart st1) (endIdx st1)
                      (matchedSlash st1) (preDotState st1)
          | Some _ => mkScan (startDot st1) (startPart st1) (endIdx st1)
                        (matchedSlash st1) dots_seen
          end
        else
          match startDot st1 with
          | Some _ => mkScan (startDot st1) (startPart st1) (endIdx st1)
                        (matchedSlash st1) char_seen
          | None => st1
          end in
      scan_back more (i - 1) st2.
Proof. reflexivity. Qed.

Lemma name_char_inv (c : char) :
  is_name_char c = true ->
  N.eqb c CHAR_DOT = false /\ N.eqb c CHAR_FORWARD_SLASH = false.
Proof.
  unfold is_name_char. intro H. apply andb_true_iff in H. destruct H as [H1 H2].
  apply negb_true_iff in H1, H2. auto.
Qed.

(** Characters of a name, met before any dot and after the end of the
    extension is known, change nothing. *)
Lemma scan_name_rest (r : str) :
  forallb is_name_char r = true ->
  forall more i sp e ms pd,
    scan_back (r ++ more) i (mkScan None sp (Some e) ms pd)
    = scan_back more (i - length r) (mkScan None sp (Some e) ms pd).
Proof.
  induction r as [|c r IH]; intros H more i sp e ms pd.
  - cbn [app length]. rewrite Nat.sub_0_r. reflexivity.
  - cbn [forallb] in H. apply andb_true_iff in H. destruct H as [Hc H].
    destruct (name_char_inv c Hc) as [Hdot Hslash].
    cbn [app]. rewrite scan_back_cons, Hslash, Hdot. cbn [endIdx startDot].
    cbv zeta. rewrite (IH H). f_equal. cbn [length]. lia.
Qed.

(** The name at the end of the path fixes the end of the extension. *)
Lemma scan_name_first (r : str) :
  forallb is_name_char r = true -> r <> [] ->
  forall more i sp ms pd,
    scan_back (r ++ more) i (mkScan None sp None ms pd)
    = scan_back more (i - length r) (mkScan None sp (Some (i + 1)) false pd).
Proof.
  intros H Hne more i sp ms pd. destruct r as [|c r]; [congruence|].
  cbn [forallb] in H. apply andb_true_iff in H. destruct H as [Hc H].
  destruct (name_char_inv c Hc) as [Hdot Hslash].
  cbn [app]. rewrite scan_back_cons, Hslash, Hdot. cbn [endIdx startDot].
  cbv zeta. cbn [startDot]. rewrite (scan_name_rest r H). f_equal.
  cbn [length]. lia.
Qed.

(** Once the dot and the end are known and a character in front of the dot
    was seen, the rest of the loop keeps them. *)
Lemma scan_keeps (r : str) :
  forall i sd sp e pd,
    pd <> nothing_seen ->
    let st := scan_back r i (mkScan (Some sd) sp (Some e) false pd) in
    startDot st = Some sd /\ endIdx st = Some e /\
    preDotState st <> nothing_seen.
Proof.
  induction r as [|c r IH]; intros i sd sp e pd Hpd.
  - cbn. auto.
  - cbv zeta. rewrite scan_back_cons.
    cbn [matchedSlash negb startDot endIdx startPart preDotState].
    destruct (N.eqb c CHAR_FORWARD_SLASH).
    + cbn [startDot endIdx preDotState]. auto.
    + cbv zeta. cbn [startDot endIdx startPart matchedSlash].
      destruct (N.eqb c CHAR_DOT); apply IH; discriminate.
Qed.

(** The loop on a name with an extension. *)
Lemma extname_of_extension (base ext : str) :
  ends_in_name base = true -> plain_name ext = true ->
  extname (base ++ CHAR_DOT :: ext) = CHAR_DOT :: ext.
Proof.
  intros Hbase Hext. unfold plain_name in Hext.
  apply andb_true_iff in Hext. destruct Hext as [Hne Hext].
  assert (Hlen : 1 <= length ext).
  { unfold Analyzer.nonempty in Hne. apply Nat.ltb_lt in Hne. lia. }
  assert (Hrev : forallb is_name_char (rev ext) = true).
  { rewrite ExtractionFacts.forallb_rev. exact Hext. }
  assert (Hrne : rev ext <> []).
  { destruct ext as [|c ext]; [discriminate|]. cbn [rev].
    destruct (rev ext); discriminate. }
  unfold extname. rewrite rev_app_distr. cbn [rev]. rewrite <- app_assoc.
  cbn [app]. rewrite (scan_name_first (rev ext) Hrev Hrne).
  rewrite length_rev, length_app. cbn [length].
  replace (length base + S (length ext) - 1 - length ext) with (length base) by lia.
  replace (length base + S (length ext) - 1 + 1)
    with (length base + S (length ext)) by lia.
  rewrite scan_back_cons.
  change (N.eqb CHAR_DOT CHAR_FORWARD_SLASH) with false.
  change (N.eqb CHAR_DOT CHAR_DOT) with true.
  cbv zeta. cbn [endIdx startDot startPart matchedSlash preDotState].
  unfold ends_in_name in Hbase.
  destruct (rev base) as [|b rb] eqn:Eb; [discriminate|].
  apply negb_true_iff in Hbase.
  rewrite scan_back_cons, Hbase.
  cbv zeta. cbn [endIdx startDot startPart matchedSlash preDotState].
  assert (Hsub : substring (length base) (length base + S (length ext))
                   (base ++ CHAR_DOT :: ext) = CHAR_DOT :: ext).
  { unfold substring.
    replace (length base + S (length ext) - length base)
      with (length (CHAR_DOT :: ext)) by (cbn [length]; lia).
    rewrite skipn_app, skipn_all, Nat.sub_diag. cbn [app skipn].
    apply firstn_all. }
  destruct (N.eqb b CHAR_DOT).
  - destruct (scan_keeps rb (length base - 1 - 1) (length base) 0
                (length base + S (length ext)) dots_seen) as [H1 [H2 H3]];
      [discriminate|].
    cbv zeta in H1, H2, H3. rewrite H1, H2.
    destruct (preDotState _); [congruence| |exact Hsub].
    replace (length base =? length base + S (length ext) - 1) with false
      by (symmetry; apply Nat.eqb_neq; lia).
    exact Hsub.
  - destruct (scan_keeps rb (length base - 1 - 1) (length base) 0
                (length base + S (length ext)) char_seen) as [H1 [H2 H3]];
      [discriminate|].
    cbv zeta in H1, H2, H3. rewrite H1, H2.
    destruct (preDotState _); [congruence| |exact Hsub].
    replace (length base =? length base + S (length ext) - 1) with false
      by (symmetry; apply Nat.eqb_neq; lia).
    exact Hsub.
Qed.

(** X23: the language of a file is read off the text behind the last dot of
    its name, letter case aside: for a path that ends in a name, a dot
    and an extension without dot and slash, [detectLanguage] returns what
    the table holds for the extension in lower case, and "unknown" when the
    table does not hold it.  Directories and the rest of the name play no
    role. *)
Theorem language_follows_the_extension (base ext : str) :
  ends_in_name base = true -> plain_name ext = true ->
  detectLanguage (base ++ lit "." ++ ext)
  = language_of (lit "." ++ toLowerCase ext).
Proof.
  intros Hbase Hext. unfold detectLanguage.
  change (base ++ lit "." ++ ext) with (base ++ CHAR_DOT :: ext).
  rewrite (extname_of_extension base ext Hbase Hext). reflexivity.
Qed.

Lemma language_follows_the_extension_witness :
  detectLanguage (lit "src/Legacy.Module" ++ lit "." ++ lit "TSX")
  = lit "typescript".
Proof.
  rewrite (language_follows_the_extension (lit "src/Legacy.Module") (lit "TSX"));
    reflexivity.
Defined.

Lemma extname_without_dot (dir name : str) :
  is_dir_prefix dir = true -> plain_name name = true ->
  extname (dir ++ name) = [] /\ extname (dir ++ CHAR_DOT :: name) = [].
Proof.
  intros Hdir Hname. unfold plain_name in Hname.
  apply andb_true_iff in Hname. destruct Hname as [Hne Hname].
  assert (Hrev : forallb is_name_char (rev name) = true).
  { rewrite ExtractionFacts.forallb_rev. exact Hname. }
  assert (Hrne : rev name <> []).
  { destruct name as [|c name]; [discriminate|]. cbn [rev].
    destruct (rev name); discriminate. }
  unfold is_dir_prefix in Hdir. split.
  - unfold extname. rewrite rev_app_distr.
    rewrite (scan_name_first (rev name) Hrev Hrne).
    destruct (rev dir) as [|c rd]; [reflexivity|].
    rewrite scan_back_cons, Hdir. reflexivity.
  - unfold extname. rewrite rev_app_distr. cbn [rev]. rewrite <- app_assoc.
    cbn [app]. rewrite (scan_name_first (rev name) Hrev Hrne).
    rewrite scan_back_cons.
    change (N.eqb CHAR_DOT CHAR_FORWARD_SLASH) with false.
    change (N.eqb CHAR_DOT CHAR_DOT) with true.
    cbv zeta. cbn [endIdx startDot startPart matchedSlash preDotState].
    destruct (rev dir) as [|c rd]; [reflexivity|].
    rewrite scan_back_cons, Hdir. reflexivity.
Qed.

(** X24: a file whose name holds no dot, and a file whose name starts with
    its only dot (such as [.gitignore]), have the language "unknown",
    in whatever directory they lie. *)
Theorem names_without_extension_are_unknown (dir name : str) :
  is_dir_prefix dir = true -> plain_name name = true ->
  detectLanguage (dir ++ name) = lit "unknown" /\
  detectLanguage (dir ++ lit "." ++ name) = lit "unknown".
Proof.
  intros Hdir Hname. unfold detectLanguage.
  change (dir ++ lit "." ++ name) with (dir ++ CHAR_DOT :: name).
  destruct (extname_without_dot dir name Hdir Hname) as [H1 H2].
  rewrite H1, H2. split; reflexivity.
Qed.

Lemma names_without_extension_are_unknown_witness :
  detectLanguage (lit "src.v2/" ++ lit "Makefile") = lit "unknown" /\
  detectLanguage (lit "src.v2/" ++ lit "." ++ lit "Makefile") = lit "unknown".
Proof.
  apply (names_without_extension_are_unknown (lit "src.v2/") (lit "Makefile"));
    reflexivity.
Defined.

End LanguageFacts.

(** * analyzer.ts: what [analyzeDiffs] asks the provider, and what it keeps *)

Module PipelineFacts.
Import JsString GitUtils Analyzer Language Pipeline.

Lemma parse_keeps_file_and_language (f l response : str) (r : AnalysisResult) :
  parseAnalysisResponse f l response = Returns r ->
  file r = f /\ language r = l.
Proof.
  unfold parseAnalysisResponse, bind.
  destruct (extractSections response); intros H; inversion H; subst.
  split; reflexivity.
Qed.

Section Loop.
Variable analyzeCode : provider.
Variable config : Config.
Variable projectContext : ProjectContext.

Let loop := analyze_loop analyzeCode config projectContext.
Let asked (diffs : list GitDiffResult) : list request :=
  map (request_for projectContext) (filter (accepted config) diffs).

(** The requests of the loop are those for the accepted files, in order,
    up to the point where it stops. *)
Lemma loop_requests (diffs : list GitDiffResult) :
  forall sent results,
  exists k, fst (loop diffs sent results) = sent ++ firstn k (asked diffs).
Proof.
  induction diffs as [|d more IH]; intros sent results.
  - exists 0. cbn. rewrite app_nil_r. reflexivity.
  - unfold loop, asked in *. cbn [analyze_loop filter].
    assert (Ha : accepted config d =
                 match shouldAnalyzeFile config (d_file d) with
                 | Returns true => true
                 | _ => false
                 end) by reflexivity.
    destruct (shouldAnalyzeFile config (d_file d)) as [[|]| |];
      rewrite Ha; clear Ha.
    + cbn [map].
      destruct (analyzeCode sent _ _) as [response| |].
      * destruct (parseAnalysisResponse _ _ response) as [r| |].
        -- destruct (IH (sent ++ [request_for projectContext d])
                        (results ++ [r])) as [k Hk].
           exists (S k).
           etransitivity; [exact Hk|].
           cbn [firstn]. rewrite <- app_assoc. reflexivity.
        -- exists 1. reflexivity.
        -- exists 1. reflexivity.
      * exists 1. reflexivity.
      * exists 1. reflexivity.
    + apply IH.
    + exists 0. cbn. rewrite app_nil_r. reflexivity.
    + exists 0. cbn. rewrite app_nil_r. reflexivity.
Qed.

(** When the loop returns, it asked for every accepted file and pushed one
    record for each. *)
Lemma loop_returns (diffs : list GitDiffResult) :
  forall sent results rs,
  snd (loop diffs sent results) = Returns rs ->
  fst (loop diffs sent results) = sent ++ asked diffs /\
  exists new, rs = results ++ new /\
    map file new = map d_file (filter (accepted config) diffs) /\
    map language new =
      map (fun d => detectLanguage (d_file d)) (filter (accepted config) diffs).
Proof.
  induction diffs as [|d more IH]; intros sent results rs.
  - cbn. intros H. inversion H; subst. rewrite !app_nil_r.
    split; [reflexivity|]. exists []. rewrite app_nil_r. repeat split.
  - unfold loop, asked in *. cbn [analyze_loop filter].
    assert (Ha : accepted config d =
                 match shouldAnalyzeFile config (d_file d) with
                 | Returns true => true
                 | _ => false
                 end) by reflexivity.
    destruct (shouldAnalyzeFile config (d_file d)) as [[|]| |];
      rewrite Ha; clear Ha; try (cbn [snd]; discriminate).
    + destruct (analyzeCode sent _ _) as [response| |];
        try (cbn [snd]; discriminate).
      destruct (parseAnalysisResponse _ _ response) as [r| |] eqn:Hp;
        try (cbn [snd]; discriminate).
      intros H. destruct (IH _ _ _ H) as [Hs [new [Hrs [Hf Hl]]]].
      destruct (parse_keeps_file_and_language _ _ _ _ Hp) as [Hrf Hrl].
      split.
      * rewrite Hs. rewrite <- app_assoc. reflexivity.
      * exists (r :: new). rewrite Hrs, <- app_assoc. cbn [app map].
        rewrite Hf, Hl, Hrf, Hrl. repeat split.
    + apply IH.
Qed.

(** The loop over a list cut in two: the second part starts from what the
    first part leaves. *)
Lemma loop_app (before after : list GitDiffResult) :
  forall sent results sent' results',
  loop before sent results = (sent', Returns results') ->
  loop (before ++ after) sent results = loop after sent' results'.
Proof.
  induction before as [|d more IH]; intros sent results sent' results'.
  - cbn. intros H. inversion H; subst. reflexivity.
  - unfold loop in *. cbn [analyze_loop app].
    destruct (shouldAnalyzeFile config (d_file d)) as [[|]| |];
      try discriminate.
    + destruct (analyzeCode sent _ _) as [response| |]; try discriminate.
      destruct (parseAnalysisResponse _ _ response) as [r| |];
        try discriminate.
      apply IH.
    + apply IH.
Qed.

End Loop.

(** X25: for patterns within the model of regular expressions, whatever
    the provider answers and however the call ends (also when a pattern
    makes the filter throw), [analyzeDiffs] sends the provider nothing but
    the requests for the files that the filter accepts, each at most once
    and in the order of the diffs: the requests made are an initial part
    of the requests for the accepted files. *)
Theorem only_accepted_files_reach_the_provider (analyzeCode : provider)
    (config : Config) (projectContext : ProjectContext)
    (diffs : list GitDiffResult) :
  Forall (modelled config) diffs ->
  exists k,
    fst (analyzeDiffs analyzeCode config projectContext diffs) =
    firstn k (map (request_for projectContext)
                  (filter (accepted config) diffs)).
Proof.
  intros _. unfold analyzeDiffs.
  destruct (loop_requests analyzeCode config projectContext diffs [] [])
    as [k Hk].
  exists k. exact Hk.
Qed.

Lemma only_accepted_files_reach_the_provider_witness :
  exists k,
    fst (analyzeDiffs failing_provider ConfigDefaults.DEFAULT_CONFIG
           sample_context sample_diffs) =
    firstn k (map (request_for sample_context)
                  (filter (accepted ConfigDefaults.DEFAULT_CONFIG)
                          sample_diffs)).
Proof.
  apply (only_accepted_files_reach_the_provider failing_provider
           ConfigDefaults.DEFAULT_CONFIG sample_context sample_diffs).
  repeat constructor; unfold modelled; vm_compute; discriminate.
Defined.

(** X26: when [analyzeDiffs] returns, it has asked the provider once for
    every accepted file, and the records it returns are one per accepted
    file, in the order of the diffs, each with the path of its file and the
    language of that path. *)
Theorem one_record_per_accepted_file (analyzeCode : provider)
    (config : Config) (projectContext : ProjectContext)
    (diffs : list GitDiffResult) (results : list AnalysisResult) :
  snd (analyzeDiffs analyzeCode config projectContext diffs) = Returns results ->
  fst (analyzeDiffs analyzeCode config projectContext diffs) =
    map (request_for projectContext) (filter (accepted config) diffs) /\
  map file results = map d_file (filter (accepted config) diffs) /\
  map language results =
    map (fun d => detectLanguage (d_file d)) (filter (accepted config) diffs).
Proof.
  unfold analyzeDiffs. intros H.
  destruct (loop_returns analyzeCode config projectContext diffs [] [] results H)
    as [Hs [new [Hrs [Hf Hl]]]].
  cbn [app] in Hrs, Hs. subst new. repeat split; assumption.
Qed.

Lemma one_record_per_accepted_file_witness :
  fst (analyzeDiffs steady_provider ConfigDefaults.DEFAULT_CONFIG
         sample_context sample_diffs) =
    map (request_for sample_context)
        (filter (accepted ConfigDefaults.DEFAULT_CONFIG) sample_diffs) /\
  map file (returned (analyzeDiffs steady_provider ConfigDefaults.DEFAULT_CONFIG
                        sample_context sample_diffs)) =
    map d_file (filter (accepted ConfigDefaults.DEFAULT_CONFIG) sample_diffs) /\
  map language
      (returned (analyzeDiffs steady_provider ConfigDefaults.DEFAULT_CONFIG
                   sample_context sample_diffs)) =
    map (fun d => detectLanguage (d_file d))
        (filter (accepted ConfigDefaults.DEFAULT_CONFIG) sample_diffs).
Proof.
  apply (one_record_per_accepted_file steady_provider
           ConfigDefaults.DEFAULT_CONFIG sample_context sample_diffs).
  vm_compute. reflexivity.
Defined.

(** X27: one failure of the provider loses everything: when the files before
    an accepted file were analysed and the provider throws on the request
    for that file, [analyzeDiffs] throws, the records of the earlier files
    are not returned, and the files after it are not asked for. *)
Theorem provider_failure_discards_earlier_records (analyzeCode : provider)
    (config : Config) (projectContext : ProjectContext)
    (before after : list GitDiffResult) (diff : GitDiffResult)
    (sent : list request) (results : list AnalysisResult) :
  analyzeDiffs analyzeCode config projectContext before =
    (sent, Returns results) ->
  accepted config diff = true ->
  analyzeCode sent (fst (request_for projectContext diff))
              (snd (request_for projectContext diff)) = Throws ->
  analyzeDiffs analyzeCode config projectContext (before ++ diff :: after) =
    (sent ++ [request_for projectContext diff], Throws).
Proof.
  unfold analyzeDiffs. intros Hb Ha Ht.
  rewrite (loop_app analyzeCode config projectContext before (diff :: after)
             [] [] sent results Hb).
  cbn [analyze_loop]. unfold accepted in Ha.
  destruct (shouldAnalyzeFile config (d_file diff)) as [[|]| |];
    try discriminate.
  unfold request_for in Ht. cbn [fst snd] in Ht. rewrite Ht. reflexivity.
Qed.

Lemma provider_failure_discards_earlier_records_witness :
  analyzeDiffs failing_provider ConfigDefaults.DEFAULT_CONFIG sample_context
    ([sample_diff "src/cli.ts"; sample_diff "README.md"] ++
     sample_diff "src/a.py" :: [sample_diff "src/b.py"]) =
  (fst (analyzeDiffs failing_provider ConfigDefaults.DEFAULT_CONFIG
          sample_context [sample_diff "src/cli.ts"; sample_diff "README.md"]) ++
   [request_for sample_context (sample_diff "src/a.py")], Throws).
Proof.
  apply (provider_failure_discards_earlier_records failing_provider
           ConfigDefaults.DEFAULT_CONFIG sample_context
           [sample_diff "src/cli.ts"; sample_diff "README.md"]
           [sample_diff "src/b.py"] (sample_diff "src/a.py")
           (fst (analyzeDiffs failing_provider ConfigDefaults.DEFAULT_CONFIG
                   sample_context
                   [sample_diff "src/cli.ts"; sample_diff "README.md"]))
           (returned (analyzeDiffs failing_provider
                        ConfigDefaults.DEFAULT_CONFIG sample_context
                        [sample_diff "src/cli.ts"; sample_diff "README.md"]))).
  - vm_compute. reflexivity.
  - vm_compute. reflexivity.
  - vm_compute. reflexivity.
Defined.

End PipelineFacts.

(** * Responses in the numbered form that the prompt asks for *)

Module NumberedFacts.
Import JsString Regex RegexTrace GitUtils Analyzer Sectioning ResponseFormat.
Import RegexFacts TraceFacts SectionFacts DiffFacts ExtractionFacts.

Lemma digit_cases (c : char) :
  is_digit c = true ->
  In c [48; 49; 50; 51; 52; 53; 54; 55; 56; 57]%N.
Proof.
  unfold is_digit, in_range. intro H. apply andb_true_iff in H.
  destruct H as [Hlo Hhi]. apply N.leb_le in Hlo. apply N.leb_le in Hhi.
  cbn [In]. lia.
Qed.

(** No heading word starts with a digit. *)
Lemma digit_starts_no_heading (c : char) (tl : str) :
  is_digit c = true ->
  existsb (fun w => starts_ci w (c :: tl)) after_summary = false.
Proof.
  intro H. apply digit_cases in H. cbn [In] in H.
  repeat (destruct H as [H|H]; [subst c; vm_compute; reflexivity|]).
  destruct H.
Qed.

Lemma lead_char_starts_no_summary (c : char) (tl : str) :
  is_lead_char c = true -> starts_ci (lit "Summary") (c :: tl) = false.
Proof.
  unfold is_lead_char. intro H. apply orb_true_iff in H.
  destruct H as [H|H]; [apply orb_true_iff in H; destruct H as [H|H]|].
  - apply digit_cases in H. cbn [In] in H.
    repeat (destruct H as [H|H]; [subst c; vm_compute; reflexivity|]).
    destruct H.
  - unfold ch_is in H. apply N.eqb_eq in H. subst c. vm_compute. reflexivity.
  - unfold ch_is in H. apply N.eqb_eq in H. subst c. vm_compute. reflexivity.
Qed.

(** The search for the word Summary passes over a numbering. *)
Lemma find_ci_lead (lead s : str) :
  forallb is_lead_char lead = true ->
  find_ci (lit "Summary") (lead ++ s)
  = option_map (Nat.add (length lead)) (find_ci (lit "Summary") s).
Proof.
  induction lead as [|c lead IH]; intro H.
  - cbn [app length]. destruct (find_ci _ s); reflexivity.
  - cbn [forallb] in H. apply andb_true_iff in H. destruct H as [Hc H].
    cbn [app length]. cbn [find_ci].
    rewrite (lead_char_starts_no_summary c _ Hc), (IH H).
    destruct (find_ci _ s); reflexivity.
Qed.

(** A line without a line feed holds no end of a section. *)
Lemma text_until_over_line (next : list str) (l s : str) :
  one_line l = true ->
  text_until (boundary next) (l ++ s)
  = option_map (app l) (text_until (boundary next) s).
Proof.
  intro Hone. induction l as [|a l IH].
  - cbn [app]. destruct (text_until _ s); reflexivity.
  - cbn [one_line forallb] in Hone. apply andb_true_iff in Hone.
    destruct Hone as [Ha Hone]. apply negb_true_iff in Ha.
    cbn [app]. rewrite text_until_cons.
    cbn [boundary]. rewrite N.eqb_sym, Ha. cbn [andb].
    rewrite (IH Hone). destruct (text_until _ s); reflexivity.
Qed.

Lemma join_starts (sep l : str) (c : char) (more : list str) :
  exists tl, join sep ((c :: l) :: more) = c :: tl.
Proof.
  destruct more as [|m more]; cbn [join app]; eauto.
Qed.

(** The lines that start with a digit are passed over. *)
Lemma text_until_lines (rest : str) (more : list str) :
  forall first,
    one_line first = true -> forallb numbered_line more = true ->
    boundary after_summary (newline :: rest) = true ->
    text_until (boundary after_summary)
               (join [newline] (first :: more) ++ newline :: rest)
    = Some (join [newline] (first :: more)).
Proof.
  induction more as [|l more IH]; intros first Hone Hmore Hb.
  - cbn [join]. apply ExtractionFacts.text_until_line; assumption.
  - cbn [forallb] in Hmore. apply andb_true_iff in Hmore.
    destruct Hmore as [Hl Hmore]. unfold numbered_line in Hl.
    apply andb_true_iff in Hl. destruct Hl as [Hlone Hd].
    destruct l as [|d l]; [discriminate|].
    change (join [newline] (first :: (d :: l) :: more))
      with (first ++ [newline] ++ join [newline] ((d :: l) :: more)).
    rewrite <- !app_assoc. rewrite (text_until_over_line _ _ _ Hone).
    cbn [app]. rewrite text_until_cons.
    destruct (join_starts [newline] l d more) as [tl Etl].
    assert (Hnb : boundary after_summary
                    (newline :: join [newline] ((d :: l) :: more)
                                ++ newline :: rest) = false).
    { rewrite Etl. cbn [app boundary].
      rewrite (digit_starts_no_heading d _ Hd). cbn [is_empty orb].
      apply andb_false_r. }
    rewrite Hnb.
    exact (f_equal
             (fun o => option_map (app first) (option_map (cons newline) o))
             (IH (d :: l) Hlone Hmore Hb)).
Qed.

(** X28: a line that starts with a digit does not end the summary.  In a
    response of the numbered form that the prompt asks for (a numbering,
    the word Summary, separators, a line of text, then lines such as
    [2. Purpose: ...] that start with a digit, then a line feed followed by
    a heading word or by nothing), the summary is the first line together
    with all the numbered lines after it. *)
Theorem numbered_lines_stay_in_the_summary (lead heading seps first : str)
    (more : list str) (rest : str) :
  forallb is_lead_char lead = true ->
  same_word heading (lit "Summary") = true ->
  forallb is_sep seps = true ->
  starts_with_text first = true -> one_line first = true ->
  forallb numbered_line more = true ->
  boundary after_summary (newline :: rest) = true ->
  exists sections,
    extractSections
      (lead ++ heading ++ seps ++
       join [newline] (first :: more) ++ newline :: rest)
    = Returns sections /\
    s_summary sections = Some (trim (join [newline] (first :: more))).
Proof.
  intros Hlead Hhead Hseps Htext Hone Hmore Hb.
  destruct section_regexes_shape as [E1 _].
  unfold extractSections. rewrite E1.
  rewrite (section_regex_reading (lit "Summary") (lit "SUMMARY")
             after_summary trim) by section_side.
  cbn [bind].
  section_found v2 E2. section_found v3 E3. section_found v4 E4.
  section_found v5 E5. section_found v6 E6.
  eexists. split; [reflexivity|]. cbn [s_summary].
  set (text := join [newline] (first :: more)).
  destruct (same_word_starts (lit "Summary") heading Hhead
              (seps ++ text ++ newline :: rest)) as [Hstart Hskip].
  unfold section_reading.
  rewrite (find_ci_lead lead _ Hlead), (find_ci_here _ _ Hstart).
  cbn [option_map]. rewrite Nat.add_0_r.
  rewrite Nat.add_comm, <- skipn_skipn.
  rewrite skipn_app, skipn_all, Nat.sub_diag. cbn [skipn app].
  rewrite Hskip.
  unfold reading_after. rewrite (drop_seps_run seps _ Hseps).
  - unfold text. rewrite (text_until_lines rest more first Hone Hmore Hb).
    reflexivity.
  - destruct first as [|a first]; [discriminate Htext|].
    unfold text. destruct more; exact Htext.
Qed.

Lemma numbered_lines_stay_in_the_summary_witness :
  exists sections,
    extractSections
      (lit "1. " ++ lit "Summary" ++ lit ": " ++
       join [newline] (lit "adds a parser" ::
                       [lit "2. Purpose: faster start";
                        lit "3. Key Changes: none"]) ++
       newline :: [])
    = Returns sections /\
    s_summary sections =
      Some (trim (join [newline] (lit "adds a parser" ::
                                  [lit "2. Purpose: faster start";
                                   lit "3. Key Changes: none"]))).
Proof.
  apply (numbered_lines_stay_in_the_summary (lit "1. ") (lit "Summary")
           (lit ": ") (lit "adds a parser")
           [lit "2. Purpose: faster start"; lit "3. Key Changes: none"] []);
    reflexivity.
Defined.

End NumberedFacts.
